(** * Gap-fill pipeline of [ingest_openelections.py]: a shallow embedding

    The development follows the Python module function by function:
    the string primitives of the interpreter that the module relies on
    ([Py]), the fragment of the [re] module it uses ([Re]), the numeric
    conversions [float]/[int] ([Num]), and then the pipeline itself
    ([normalize_race_name], [match_to_ctds], [is_school_board_race],
    [is_metadata_row], [extract_records], [aggregate_to_candidates] and
    [main]).

    Text is modelled as [string] over 7-bit characters: [upper], [strip],
    [\s], [\d], [\w] are the ASCII restrictions of the Python (Unicode)
    operations, and a character outside that range is left alone.

    The standard-library calls that reach outside the module are inputs
    of the model: a downloaded file comes as what [csv.DictReader] makes
    of it (the header and one dict per row), the authoritative table and
    the directory as their lists of rows.  Exceptions are values
    ([result]); what the module prints while it processes the county-year
    files is collected in a report. *)

From Stdlib Require Import ZArith Ascii String List Bool Lia.
From Stdlib Require Import DecimalString.
From Stdlib Require OrderedTypeEx DecimalPos.
From stdpp Require Import base decidable option list sorting strings gmap.

Local Open Scope string_scope.
Local Open Scope list_scope.
Local Open Scope Z_scope.

(* ===================================================================== *)
(** ** Exceptions *)
(* ===================================================================== *)

Inductive exn :=
  ValueError | TypeError | OverflowError | IndexError | KeyError.

Inductive result (A : Type) :=
| Ok (a : A)
| Raise (e : exn).
Arguments Ok {A} a.
Arguments Raise {A} e.

(** Sequencing: the first exception raised propagates. *)
#[global] Instance result_ret : MRet result := fun _ a => Ok a.
#[global] Instance result_bind : MBind result := fun _ _ f r =>
  match r with
  | Ok a => f a
  | Raise e => Raise e
  end.

(* ===================================================================== *)
(** ** Interpreter primitives on text *)
(* ===================================================================== *)

Module Py.

Definition chars (s : string) : list ascii := list_ascii_of_string s.
Definition text (l : list ascii) : string := string_of_list_ascii l.

Definition code (c : ascii) : nat := nat_of_ascii c.

Definition in_range (lo hi : nat) (c : ascii) : bool :=
  (Nat.leb lo (code c) && Nat.leb (code c) hi)%bool.

(** [str.isspace] on 7-bit characters: TAB..CR, FS..US and the space. *)
Definition is_space (c : ascii) : bool :=
  (in_range 9 13 c || in_range 28 32 c)%bool.

Definition is_digit (c : ascii) : bool := in_range 48 57 c.
Definition is_upper (c : ascii) : bool := in_range 65 90 c.
Definition is_lower (c : ascii) : bool := in_range 97 122 c.
Definition is_alpha (c : ascii) : bool := (is_upper c || is_lower c)%bool.

(** [\w]: letters, digits and the underscore. *)
Definition is_word (c : ascii) : bool :=
  (is_alpha c || is_digit c || Ascii.eqb c "_"%char)%bool.

Definition upper_char (c : ascii) : ascii :=
  if is_lower c then ascii_of_nat (code c - 32) else c.
Definition lower_char (c : ascii) : ascii :=
  if is_upper c then ascii_of_nat (code c + 32) else c.

Fixpoint map_chars (f : ascii -> ascii) (s : string) : string :=
  match s with
  | EmptyString => EmptyString
  | String c s' => String (f c) (map_chars f s')
  end.

Definition upper (s : string) : string := map_chars upper_char s.
Definition lower (s : string) : string := map_chars lower_char s.

(** [str.title]: a letter is upper-cased when the previous character is
    not a letter and lower-cased otherwise. *)
Fixpoint title_from (prev_cased : bool) (s : string) : string :=
  match s with
  | EmptyString => EmptyString
  | String c s' =>
      String (if prev_cased then lower_char c else upper_char c)
             (title_from (is_alpha c) s')
  end.
Definition title (s : string) : string := title_from false s.

Fixpoint lstrip (s : string) : string :=
  match s with
  | String c s' => if is_space c then lstrip s' else s
  | EmptyString => EmptyString
  end.

Fixpoint rstrip (s : string) : string :=
  match s with
  | EmptyString => EmptyString
  | String c s' =>
      match rstrip s' with
      | EmptyString => if is_space c then EmptyString else String c EmptyString
      | r => String c r
      end
  end.

Definition strip (s : string) : string := rstrip (lstrip s).

(** [s.startswith(p)] *)
Fixpoint startswith (s p : string) : bool :=
  match p, s with
  | EmptyString, _ => true
  | String a p', String b s' => (Ascii.eqb a b && startswith s' p')%bool
  | String _ _, EmptyString => false
  end.

(** [s[n:]] and [s[:n]] for [0 <= n]. *)
Fixpoint drop (n : nat) (s : string) : string :=
  match n, s with
  | O, _ => s
  | S n', String _ s' => drop n' s'
  | S _, EmptyString => EmptyString
  end.

Fixpoint take (n : nat) (s : string) : string :=
  match n, s with
  | O, _ => EmptyString
  | S n', String c s' => String c (take n' s')
  | S _, EmptyString => EmptyString
  end.

Definition len (s : string) : nat := String.length s.

(** [s.endswith(p)] *)
Definition endswith (s p : string) : bool :=
  (Nat.leb (len p) (len s) && String.eqb (drop (len s - len p) s) p)%bool.

(** [key in s]: substring containment. *)
Fixpoint contains (s key : string) : bool :=
  (startswith s key ||
   match s with
   | EmptyString => false
   | String _ s' => contains s' key
   end)%bool.

(** [s.replace(old, new)] for a non-empty [old]: leftmost, non-overlapping. *)
Fixpoint replace_from (fuel : nat) (old new s : string) : string :=
  match fuel with
  | O => s
  | S fuel' =>
      match s with
      | EmptyString => EmptyString
      | String c s' =>
          if startswith s old
          then new +:+ replace_from fuel' old new (drop (len old) s)
          else String c (replace_from fuel' old new s')
      end
  end.
Definition replace (old new s : string) : string :=
  replace_from (len s) old new s.

(** Truthiness of a [str]. *)
Definition truthy (s : string) : bool := negb (String.eqb s "").

(** [str(n)] for an [int]. *)
Definition str_of_int (z : Z) : string := NilZero.string_of_int (Z.to_int z).

End Py.

(* ===================================================================== *)
(** ** The fragment of [re] used by the module *)
(* ===================================================================== *)

Module Re.

Inductive regex :=
| Chr (c : ascii)              (* a literal character *)
| Space                        (* \s *)
| Digit                        (* \d *)
| Seq (r1 r2 : regex)
| Star (r : regex)             (* greedy r* *)
| Opt (r : regex)              (* greedy r? *)
| Group (r : regex)            (* the capturing group \1 *)
| WordB                        (* \b *)
| EndS                         (* $ without MULTILINE *)
| Eps.                         (* the empty pattern *)

Definition Plus (r : regex) : regex := Seq r (Star r).

Fixpoint Lit (s : string) : regex :=
  match s with
  | EmptyString => Eps
  | String c EmptyString => Chr c
  | String c s' => Seq (Chr c) (Lit s')
  end.

Definition word_opt (c : option ascii) : bool :=
  match c with
  | Some a => Py.is_word a
  | None => false
  end.

Section Matcher.
Context {R : Type}.

(** A backtracking matcher in continuation-passing style: alternatives
    are tried in the priority order of the [re] engine (greedy first; a
    repetition stops at an iteration that consumes nothing).  [prev] is
    the character before the current position, [cap] the text of group 1
    when it has been closed. *)
Fixpoint rmatch (r : regex) (prev : option ascii) (s : list ascii)
    (cap : option (list ascii))
    (k : option ascii -> list ascii -> option (list ascii) -> option R)
    {struct r} : option R :=
  match r with
  | Chr c =>
      match s with
      | a :: s' => if Ascii.eqb a c then k (Some a) s' cap else None
      | [] => None
      end
  | Space =>
      match s with
      | a :: s' => if Py.is_space a then k (Some a) s' cap else None
      | [] => None
      end
  | Digit =>
      match s with
      | a :: s' => if Py.is_digit a then k (Some a) s' cap else None
      | [] => None
      end
  | Seq r1 r2 =>
      rmatch r1 prev s cap (fun p s' c => rmatch r2 p s' c k)
  | Star r1 =>
      (fix loop (n : nat) (prev : option ascii) (s : list ascii)
           (cap : option (list ascii)) {struct n} : option R :=
         match n with
         | O => k prev s cap
         | S n' =>
             match rmatch r1 prev s cap
                     (fun p s' c =>
                        if Nat.ltb (length s') (length s)
                        then loop n' p s' c else k p s' c) with
             | Some x => Some x
             | None => k prev s cap
             end
         end) (length s) prev s cap
  | Opt r1 =>
      match rmatch r1 prev s cap k with
      | Some x => Some x
      | None => k prev s cap
      end
  | Group r1 =>
      rmatch r1 prev s cap
        (fun p s' _ => k p s' (Some (firstn (length s - length s') s)))
  | WordB =>
      if xorb (word_opt prev) (word_opt (head s)) then k prev s cap else None
  | EndS =>
      match s with
      | [] => k prev s cap
      | [a] => if Ascii.eqb a "010"%char then k prev s cap else None
      | _ => None
      end
  | Eps => k prev s cap
  end.
End Matcher.

(** The match of [r] anchored at the current position, if any: the
    character before the end of the match, the text after it, group 1. *)
Definition match_here (r : regex) (prev : option ascii) (s : list ascii)
  : option (option ascii * list ascii * option (list ascii)) :=
  rmatch r prev s None (fun p s' c => Some (p, s', c)).

Definition step_char (rec : option ascii -> list ascii -> list ascii)
    (s : list ascii) : list ascii :=
  match s with
  | [] => []
  | a :: s' => a :: rec (Some a) s'
  end.

(** [re.sub]: scan left to right, replace every leftmost match and go on
    after it; an empty match is replaced and the scan moves one character
    on. *)
Fixpoint sub_from (r : regex) (repl : option (list ascii) -> list ascii)
    (fuel : nat) (prev : option ascii) (s : list ascii) : list ascii :=
  match fuel with
  | O => s
  | S fuel' =>
      match match_here r prev s with
      | Some (p, s', c) =>
          if Nat.ltb (length s') (length s)
          then repl c ++ sub_from r repl fuel' p s'
          else repl c ++ step_char (sub_from r repl fuel') s
      | None => step_char (sub_from r repl fuel') s
      end
  end.

Definition sub (r : regex) (repl : option (list ascii) -> list ascii)
    (s : string) : string :=
  Py.text (sub_from r repl (S (String.length s)) None (Py.chars s)).

(** Replacement templates: a constant, and [prefix + \1]. *)
Definition repl_const (t : string) : option (list ascii) -> list ascii :=
  fun _ => Py.chars t.
Definition repl_group (t : string) : option (list ascii) -> list ascii :=
  fun c => Py.chars t ++ default [] c.

End Re.

(* ===================================================================== *)
(** ** [float] and [int] conversions *)
(* ===================================================================== *)

Module Num.

(** A Python [float]: NaN, an infinity, or the finite value
    [(-1)^neg * m * 2^e] with [0 <= m]. *)
Inductive pyfloat :=
| FNan
| FInf (neg : bool)
| FFin (neg : bool) (m e : Z).

(** [n / d] rounded to the nearest integer, ties to even ([0 < d]). *)
Definition round_half_even (n d : Z) : Z :=
  let q := n / d in
  let r := n mod d in
  if 2 * r <? d then q
  else if d <? 2 * r then q + 1
  else if Z.even q then q else q + 1.

(** [2^e <= n / d], for positive [n], [d]. *)
Definition ge_pow2 (n d e : Z) : bool :=
  if 0 <=? e then d * 2 ^ e <=? n else d <=? n * 2 ^ (- e).

(** [floor (log2 (n / d))], for positive [n], [d]. *)
Definition floor_log2 (n d : Z) : Z :=
  let e0 := Z.log2 n - Z.log2 d in
  if ge_pow2 n d e0 then e0 else e0 - 1.

(** The IEEE-754 binary64 nearest to [n / d] (positive [n], [d]; round
    to nearest, ties to even), as mantissa and exponent; [None] when the
    rounded value leaves the finite range. *)
Definition binary64 (n d : Z) : option (Z * Z) :=
  let e := floor_log2 n d in
  if 1023 <? e then None
  else
    let u := Z.max (e - 52) (-1074) in
    let q := if 0 <=? u then round_half_even n (d * 2 ^ u)
             else round_half_even (n * 2 ^ (- u)) d in
    if ((u =? 971) && (q =? 2 ^ 53))%bool then None else Some (q, u).

(** [float(z)] for an [int]: [OverflowError] past the finite range. *)
Definition float_of_int (z : Z) : result pyfloat :=
  if z =? 0 then Ok (FFin false 0 0)
  else match binary64 (Z.abs z) 1 with
       | Some (m, e) => Ok (FFin (z <? 0) m e)
       | None => Raise OverflowError
       end.

(** The float nearest to [(-1)^neg * m * 10^e10]; decimal literals
    overflow to an infinity. *)
Definition float_of_decimal (neg : bool) (m e10 : Z) : pyfloat :=
  if m =? 0 then FFin neg 0 0
  else
    let r := if 0 <=? e10 then binary64 (m * 10 ^ e10) 1
             else binary64 m (10 ^ (- e10)) in
    match r with
    | Some (q, u) => FFin neg q u
    | None => FInf neg
    end.

(** [int(x)] for a [float]: truncation toward zero. *)
Definition int_of_float (x : pyfloat) : result Z :=
  match x with
  | FNan => Raise ValueError
  | FInf _ => Raise OverflowError
  | FFin neg m e =>
      let a := if 0 <=? e then m * 2 ^ e else m / 2 ^ (- e) in
      Ok (if neg then - a else a)
  end.

(** A run of digits with single underscores between digits
    ([digit (["_"] digit)*]); returns the digits and the remaining text. *)
Fixpoint digitpart (s : list ascii) : list ascii * list ascii :=
  match s with
  | c :: s' =>
      if Py.is_digit c then
        match s' with
        | u :: ((d :: _) as s'') =>
            if (Ascii.eqb u "_"%char && Py.is_digit d)%bool
            then let '(ds, r) := digitpart s'' in (c :: ds, r)
            else let '(ds, r) := digitpart s' in (c :: ds, r)
        | _ => let '(ds, r) := digitpart s' in (c :: ds, r)
        end
      else ([], s)
  | [] => ([], [])
  end.

Definition digit_value (c : ascii) : Z := Z.of_nat (Py.code c) - 48.

Definition digits_value (ds : list ascii) : Z :=
  fold_left (fun acc c => 10 * acc + digit_value c) ds 0.

(** The blanks that [float] and [int] skip around a number: TAB..CR and
    the space (unlike [str.strip], not FS..US). *)
Definition is_blank (c : ascii) : bool :=
  (Py.in_range 9 13 c || Ascii.eqb c " "%char)%bool.

Fixpoint lstrip (s : string) : string :=
  match s with
  | String c s' => if is_blank c then lstrip s' else s
  | EmptyString => EmptyString
  end.

Fixpoint rstrip (s : string) : string :=
  match s with
  | EmptyString => EmptyString
  | String c s' =>
      match rstrip s' with
      | EmptyString => if is_blank c then EmptyString else String c EmptyString
      | r => String c r
      end
  end.

Definition strip (s : string) : string := rstrip (lstrip s).

(** An optional sign. *)
Definition sign (s : list ascii) : bool * list ascii :=
  match s with
  | c :: s' =>
      if Ascii.eqb c "-"%char then (true, s')
      else if Ascii.eqb c "+"%char then (false, s')
      else (false, s)
  | [] => (false, [])
  end.

Definition is_e (c : ascii) : bool :=
  (Ascii.eqb c "e"%char || Ascii.eqb c "E"%char)%bool.

(** [float(s)] for a [str]; [None] is [ValueError]. *)
Definition float_of_string (s : string) : option pyfloat :=
  let '(neg, t) := sign (Py.chars (strip s)) in
  let word := Py.lower (Py.text t) in
  if (String.eqb word "inf" || String.eqb word "infinity")%bool
  then Some (FInf neg)
  else if String.eqb word "nan" then Some FNan
  else
    let '(ip, r1) := digitpart t in
    let '(fp, r2) := match r1 with
                     | c :: r =>
                         if Ascii.eqb c "."%char then digitpart r else ([], r1)
                     | [] => ([], r1)
                     end in
    match ip ++ fp with
    | [] => None
    | ds =>
        let m := digits_value ds in
        let scale := - Z.of_nat (length fp) in
        match r2 with
        | [] => Some (float_of_decimal neg m scale)
        | c :: r3 =>
            if is_e c then
              let '(eneg, r4) := sign r3 in
              match digitpart r4 with
              | ((_ :: _) as ed, []) =>
                  let x := digits_value ed in
                  Some (float_of_decimal neg m
                          ((if eneg then - x else x) + scale))
              | _ => None
              end
            else None
        end
    end.

(** The interpreter refuses to convert a [str] of more than 4300 digits
    to an [int]. *)
Definition max_str_digits : nat := 4300.

(** [int(s)] for a [str] (base 10); [None] is [ValueError]. *)
Definition int_of_string (s : string) : option Z :=
  let '(neg, t) := sign (Py.chars (strip s)) in
  match digitpart t with
  | ((_ :: _) as ds, []) =>
      if Nat.ltb max_str_digits (length ds) then None
      else let x := digits_value ds in Some (if neg then - x else x)
  | _ => None
  end.

(** [int(float(s))] for a [str]. *)
Definition int_float_str (s : string) : result Z :=
  match float_of_string s with
  | Some x => int_of_float x
  | None => Raise ValueError
  end.

(** [int(float(z))] for an [int]. *)
Definition int_float_int (z : Z) : result Z :=
  x ← float_of_int z; int_of_float x.

End Num.

(* ===================================================================== *)
(** ** The curated fragment table *)
(* ===================================================================== *)

(** [MANUAL_CTDS_MAP], in the insertion order of the dict literal (the
    order in which [.items()] yields it). *)
Definition MANUAL_CTDS_MAP : list (string * string) :=
  [
    ("ST. JOHNS UNIFIED", "4153"); ("ST JOHNS UNIFIED", "4153"); ("ST. JOHN USD", "4153");
    ("WINDOW ROCK UNIFIED", "4154"); ("WINDOW ROCK USD", "4154"); ("ROUND VALLEY UNIFIED", "4155");
    ("ROUND VALLEY USD", "4155"); ("SANDERS UNIFIED", "4156"); ("SANDERS USD", "4156");
    ("GANADO UNIFIED", "4157"); ("GANADO USD", "4157"); ("RED MESA UNIFIED", "4159");
    ("RED MESA USD", "4159"); ("CONCHO ELEMENTARY", "4160"); ("CONCHO ESD", "4160");
    ("ALPINE ELEMENTARY", "4161"); ("VERNON ELEMENTARY", "4162"); ("VERNON ESD", "4162");
    ("MCNARY ELEMENTARY", "4163"); ("MC NARY ELEMENTARY", "4163"); ("MCNARY ESD", "4163");
    ("CHINLE UNIFIED", "4158"); ("TOMBSTONE UNIFIED", "4168"); ("USD 68", "4168");
    ("BISBEE UNIFIED", "4169"); ("BISBEE USD", "4169"); ("WILLCOX UNIFIED", "4170");
    ("WILLCOX USD", "4170"); ("SAN SIMON UNIFIED", "4172"); ("SAN SIMON USD", "4172");
    ("ST. DAVID UNIFIED", "4173"); ("ST DAVID UNIFIED", "4173"); ("ST. DAVID USD", "4173");
    ("DOUGLAS UNIFIED", "4174"); ("DOUGLAS USD", "4174"); ("SIERRA VISTA UNIFIED", "4175");
    ("SIERRA VISTA USD", "4175"); ("APACHE ELEMENTARY", "4178"); ("PEARCE ELEMENTARY", "4186");
    ("BENSON UNIFIED", "79226"); ("BENSON USD", "79226"); ("FLAGSTAFF UNIFIED", "4192");
    ("FLAGSTAFF USD", "4192"); ("PAGE UNIFIED", "4196"); ("PAGE USD", "4196");
    ("TUBA CITY UNIFIED", "4197"); ("TUBA CITY USD", "4197"); ("SEDONA-OAK CREEK", "4467");
    ("SEDONA OAK CREEK", "4467"); ("WILLIAMS UNIFIED", "4193"); ("GRAND CANYON UNIFIED", "4194");
    ("FREDONIA-MOCCASIN UNIFIED", "4195"); ("GLOBE UNIFIED", "4208"); ("PAYSON UNIFIED", "4209");
    ("SAN CARLOS UNIFIED", "4210"); ("HAYDEN-WINKELMAN UNIFIED", "4212"); ("HAYDEN WINKELMAN UNIFIED", "4212");
    ("YOUNG ELEMENTARY", "4213"); ("YOUNG PUBLIC SCHOOL", "4213"); ("PINE-STRAWBERRY", "4214");
    ("PINE STRAWBERRY", "4214"); ("TONTO BASIN", "4215"); ("WHITERIVER UNIFIED", "4394");
    ("WHITERIVER USD", "4394"); ("MIAMI UNIFIED", "4211"); ("SAN CARLOS SCHOOL", "4210");
    ("SAFFORD UNIFIED", "4218"); ("SAFFORD USD", "4218"); ("THATCHER UNIFIED", "4219");
    ("THATCHER USD", "4219"); ("PIMA UNIFIED", "4220"); ("PIMA USD", "4220");
    ("FORT THOMAS UNIFIED", "4221"); ("FT. THOMAS USD", "4221"); ("FT THOMAS USD", "4221");
    ("BONITA ELEMENTARY", "4224"); ("BONITA ESD", "4224"); ("BONITA USD", "4224");
    ("SOLOMON ELEMENTARY", "4222"); ("SOLOMON ESD", "4222"); ("AGUA FRIA UNION", "4289");
    ("AGUA FRIA UHSD", "4289"); ("ALHAMBRA ESD", "4280"); ("ALHAMBRA ELEMENTARY", "4280");
    ("ARLINGTON ESD", "4274"); ("ARLINGTON ELEMENTARY", "4274"); ("AVONDALE ESD", "4272");
    ("AVONDALE ELEMENTARY", "4272"); ("BALSZ ESD", "4268"); ("BALSZ ELEMENTARY", "4268");
    ("BUCKEYE ESD", "4269"); ("BUCKEYE ELEMENTARY", "4269"); ("BUCKEYE UHSD", "4284");
    ("BUCKEYE UNION", "4284"); ("CARTWRIGHT ESD", "4282"); ("CARTWRIGHT ELEMENTARY", "4282");
    ("CAVE CREEK USD", "4244"); ("CAVE CREEK UNIFIED", "4244"); ("CHANDLER USD", "4242");
    ("CHANDLER UNIFIED", "4242"); ("CREIGHTON ESD", "4263"); ("CREIGHTON ELEMENTARY", "4263");
    ("DEER VALLEY USD", "4246"); ("DEER VALLEY UNIFIED", "4246"); ("DYSART USD", "4243");
    ("DYSART UNIFIED", "4243"); ("FOUNTAIN HILLS USD", "4247"); ("FOUNTAIN HILLS UNIFIED", "4247");
    ("FOWLER ESD", "4273"); ("FOWLER ELEMENTARY", "4273"); ("GILA BEND USD", "4238");
    ("GILA BEND UNIFIED", "4238"); ("GILBERT USD", "4239"); ("GILBERT UNIFIED", "4239");
    ("GLENDALE ESD", "4271"); ("GLENDALE ELEMENTARY", "4271"); ("GLENDALE UHSD", "4285");
    ("GLENDALE UNION HIGH", "4285"); ("HIGLEY USD", "4248"); ("HIGLEY UNIFIED", "4248");
    ("ISAAC ESD", "4259"); ("ISAAC ELEMENTARY", "4259"); ("KYRENE ESD", "4267");
    ("KYRENE ELEMENTARY", "4267"); ("LAVEEN ESD", "4276"); ("LAVEEN ELEMENTARY", "4276");
    ("LIBERTY ESD", "4266"); ("LIBERTY ELEMENTARY", "4266"); ("LITCHFIELD ESD", "4281");
    ("LITCHFIELD ELEMENTARY", "4281"); ("LITTLETON ESD", "4278"); ("LITTLETON ELEMENTARY", "4278");
    ("MADISON ESD", "4270"); ("MADISON ELEMENTARY", "4270"); ("MESA USD", "4235");
    ("MESA UNIFIED", "4235"); ("MORRISTOWN ESD", "4251"); ("MURPHY ESD", "4265");
    ("MURPHY ELEMENTARY", "4265"); ("NADABURG ESD", "4252"); ("NADABURG USD", "4252");
    ("OSBORN ESD", "4262"); ("OSBORN ELEMENTARY", "4262"); ("PALO VERDE ESD", "4275");
    ("PALOMA ESD", "4255"); ("PARADISE VALLEY USD", "4241"); ("PARADISE VALLEY UNIFIED", "4241");
    ("PARADISE VLLY USD", "4241"); ("PENDERGAST ESD", "4283"); ("PENDERGAST ELEMENTARY", "4283");
    ("PEORIA USD", "4237"); ("PEORIA UNIFIED", "4237"); ("PHOENIX ESD", "4256");
    ("PHOENIX ELEMENTARY", "4256"); ("PHOENIX UHSD", "4286"); ("PHOENIX UNION HIGH", "4286");
    ("PHOENIX UNION", "4286"); ("QUEEN CREEK USD", "4245"); ("QUEEN CREEK ESD", "4245");
    ("QUEEN CREEK UNIFIED", "4245"); ("RIVERSIDE ESD", "4257"); ("RIVERSIDE ELEMENTARY", "4257");
    ("ROOSEVELT ESD", "4279"); ("ROOSEVELT ELEMENTARY", "4279"); ("SADDLE MOUNTAIN USD", "4254");
    ("SADDLE MTN USD", "4254"); ("SCOTTSDALE USD", "4240"); ("SCOTTSDALE UNIFIED", "4240");
    ("SENTINEL ESD", "4250"); ("TEMPE ESD", "4258"); ("TEMPE SCHOOL", "4258");
    ("TEMPE UHSD", "4287"); ("TEMPE UNION HIGH", "4287"); ("TEMPE UNION", "4287");
    ("TOLLESON ESD", "4264"); ("TOLLESON ELEMENTARY", "4264"); ("TOLLESON UHSD", "4288");
    ("TOLLESON UNION HIGH", "4288"); ("UNION ESD", "4277"); ("UNION ELEMENTARY", "4277");
    ("WASHINGTON ESD", "4260"); ("WASHINGTON ELEMENTARY", "4260"); ("WICKENBURG USD", "4236");
    ("WICKENBURG UNIFIED", "4236"); ("WILSON ESD", "4261"); ("WILSON ELEMENTARY", "4261");
    ("MARICOPA UNIFIED", "4441"); ("J O COMBS UNIFIED", "4445"); ("LAKE HAVASU UNIFIED", "4368");
    ("LAKE HAVASU USD", "4368"); ("COLORADO CITY UNIFIED", "4370"); ("COLORADO CITY USD", "4370");
    ("HACKBERRY ELEMENTARY", "4371"); ("HACKBERRY ESD", "4371"); ("TOPOCK ELEMENTARY", "4376");
    ("TOPOCK ESD", "4376"); ("MOHAVE VALLEY ELEMENTARY", "4379"); ("VALENTINE ELEMENTARY", "4380");
    ("VALENTINE ESD", "4380"); ("KINGMAN UNIFIED", "79598"); ("KINGMAN USD", "79598");
    ("KUSD", "79598"); ("BULLHEAD CITY", "4378"); ("COLORADO RIVER UNION HIGH", "4381");
    ("COLORADO RIVER UHSD", "4381"); ("CO RIVER UNION HS", "4381"); ("CRUHSD", "4381");
    ("CCUSD", "4370"); ("LHUSD", "4368"); ("FMUSD", "4379");
    ("KINGMAN US DIST", "79598"); ("LAKE HAVASU US DIST", "4368"); ("BLUE RIDGE UNIFIED", "4397");
    ("BLUE RIDGE USD", "4397"); ("HEBER-OVERGAARD UNIFIED", "4392"); ("HEBER/OVERGAARD USD", "4392");
    ("HEBER OVERGAARD", "4392"); ("KAYENTA UNIFIED", "4396"); ("KAYENTA USD", "4396");
    ("PINON UNIFIED", "4390"); ("PINON USD", "4390"); ("SHOW LOW UNIFIED", "4393");
    ("SHOW LOW USD", "4393"); ("WINSLOW UNIFIED", "4387"); ("WINSLOW USD", "4387");
    ("SNOWFLAKE UNIFIED", "4391"); ("SNOWFLAKE USD", "4391"); ("HOLBROOK UNIFIED", "4389");
    ("JOSEPH CITY UNIFIED", "4388"); ("BOARD MEMBER KAYENTA", "4396"); ("BOARD MEMBER PINON", "4390");
    ("BOARD MEMBER SHOW LOW", "4393"); ("BOARD MEMBER WINSLOW", "4387"); ("BOARD MEMBER GLOBE", "4208");
    ("TUCSON UNIFIED", "4403"); ("TUCSON USD", "4403"); ("MARANA UNIFIED", "4404");
    ("MARANA USD", "4404"); ("FLOWING WELLS UNIFIED", "4405"); ("AMPHITHEATER UNIFIED", "4406");
    ("SUNNYSIDE UNIFIED", "4407"); ("TANQUE VERDE UNIFIED", "4408"); ("AJO UNIFIED", "4409");
    ("CATALINA FOOTHILLS UNIFIED", "4410"); ("CATALINA FOOTHILLS", "4410"); ("SAHUARITA UNIFIED", "4411");
    ("BABOQUIVARI", "4412"); ("BABOQUIVARI SCHOOL", "4412"); ("VAIL UNIFIED", "4413");
    ("CONTINENTAL ELEMENTARY", "4416"); ("ALTAR VALLEY", "4418"); ("ALTAR VALLEY ESD", "4418");
    ("APACHE JUNCTION UNIFIED", "4443"); ("CASA GRANDE UNION HIGH", "4453"); ("CASA GRANDE UHSD", "4453");
    ("COOLIDGE UNIFIED", "4442"); ("ELOY ELEMENTARY", "4448"); ("FLORENCE UNIFIED", "4437");
    ("SACATON ELEMENTARY", "4449"); ("SUPERIOR UNIFIED", "4440"); ("TOLTEC ELEMENTARY", "4450");
    ("TOLTEC SCHOOL", "4450"); ("SANTA CRUZ VALLEY UNION HIGH", "4454"); ("ORACLE ELEMENTARY", "4444");
    ("RAY UNIFIED", "4438"); ("STANFIELD ELEMENTARY", "4451"); ("PICACHO ELEMENTARY", "4452");
    ("NOGALES UNIFIED", "4457"); ("NUSD", "4457"); ("BOARD MEMBER USD 1", "4457");
    ("SANTA CRUZ VALLEY UNIFIED", "4458"); ("SCV", "4458"); ("SONOITA ELEMENTARY", "4461");
    ("SCE", "4461"); ("SANTA CRUZ ELEMENTARY", "4459"); ("BAGDAD UNIFIED", "4468");
    ("BAGDAD USD", "4468"); ("HUMBOLDT UNIFIED", "4469"); ("HUMBOLDT USD", "4469");
    ("SELIGMAN UNIFIED", "4472"); ("SELIGMAN USD", "4472"); ("YARNELL ELEMENTARY", "4485");
    ("YARNELL ESD", "4485"); ("PRESCOTT UNIFIED", "4466"); ("PRESCOTT USD", "4466");
    ("CHINO VALLEY UNIFIED", "4474"); ("CHINO VALLEY USD", "4474"); ("CAMP VERDE UNIFIED", "4470");
    ("CAMP VERDE USD", "4470"); ("MAYER UNIFIED", "4473"); ("MAYER USD", "4473");
    ("CONGRESS ELEMENTARY", "4479"); ("CONGRESS ESD", "4479"); ("CANON ELEMENTARY", "4484");
    ("CANON ESD", "4484"); ("KIRKLAND ELEMENTARY", "4480"); ("KIRKLAND ESD", "4480");
    ("CLARKDALE-JEROME ELEMENTARY", "4486"); ("CLARKDALE-JEROME ESD", "4486"); ("COTTONWOOD-OAK CREEK ELEMENTARY", "4487");
    ("COTTONWOOD-OAK CREEK ESD", "4487"); ("MINGUS UNION HIGH", "4488"); ("SEDONA-OAK CREEK JUSD", "4467");
    ("SEDONA-OAK CREEK JOINT USD", "4467"); ("YUMA ELEMENTARY", "4499"); ("SOMERTON ELEMENTARY", "4500");
    ("CRANE ELEMENTARY", "4501"); ("GADSDEN ELEMENTARY", "4505"); ("GADSDEN ESD", "4505");
    ("YUMA UNION HIGH", "4507"); ("YUMA UHSD", "4507"); ("MOHAWK VALLEY ELEMENTARY", "4503");
    ("ANTELOPE UNION HIGH", "4506"); ("ANTELOPE UNION HSD", "4506")
  ].

(* ===================================================================== *)
(** ** District resolver *)
(* ===================================================================== *)

Definition strip_prefix (t p : string) : string :=
  if Py.startswith t p then Py.drop (Py.len p) t else t.

Definition strip_suffix (t p : string) : string :=
  if Py.endswith t p then Py.take (Py.len t - Py.len p) t else t.

Definition seq_of (rs : list Re.regex) : Re.regex :=
  foldr Re.Seq Re.Eps rs.

Import Re.

Definition re_elect : regex :=          (* \s*\(ELECT\s+\d+\) *)
  seq_of [Star Space; Lit "(ELECT"; Plus Space; Plus Digit; Chr ")"].
Definition re_select : regex :=         (* \s*\(SELECT\s+\d+\) *)
  seq_of [Star Space; Lit "(SELECT"; Plus Space; Plus Digit; Chr ")"].
Definition re_vote : regex :=           (* \s*\(VOTE\s+(?:FOR\s+)?\d+\) *)
  seq_of [Star Space; Lit "(VOTE"; Plus Space;
          Opt (Seq (Lit "FOR") (Plus Space)); Plus Digit; Chr ")"].
Definition re_vacancy : regex :=        (* \s*VACANCY$ *)
  seq_of [Star Space; Lit "VACANCY"; EndS].
Definition re_sch_dist : regex :=       (* \bSCH\.?\s*DIST\.?\s* *)
  seq_of [WordB; Lit "SCH"; Opt (Chr "."); Star Space; Lit "DIST";
          Opt (Chr "."); Star Space].
Definition re_sd : regex :=             (* \bS\.D\.\s* *)
  seq_of [WordB; Lit "S.D."; Star Space].
Definition re_elem : regex :=           (* \bELEM\.?\s* *)
  seq_of [WordB; Lit "ELEM"; Opt (Chr "."); Star Space].
Definition re_school_district : regex := (* \bSCHOOL DISTRICT\b *)
  seq_of [WordB; Lit "SCHOOL DISTRICT"; WordB].
Definition re_hash : regex :=           (* \s*#\s*0*(\d+) *)
  seq_of [Star Space; Chr "#"; Star Space; Star (Chr "0"); Group (Plus Digit)].
Definition re_no : regex :=             (* \s*NO\.?\s*0*(\d+) *)
  seq_of [Star Space; Lit "NO"; Opt (Chr "."); Star Space; Star (Chr "0");
          Group (Plus Digit)].
Definition re_dist : regex :=           (* \s*DIST\.?\s*0*(\d+) *)
  seq_of [Star Space; Lit "DIST"; Opt (Chr "."); Star Space; Star (Chr "0");
          Group (Plus Digit)].
Definition re_trailing : regex :=       (* \s+#?\d+\s*$ *)
  seq_of [Plus Space; Opt (Chr "#"); Plus Digit; Star Space; EndS].
Definition re_spaces : regex :=         (* \s+ *)
  Plus Space.

Definition name_prefixes : list string :=
  ["GOVERNING BOARD - "; "GOVERNING BOARD, "; "GOVERNING BOARD ";
   "GOVERNING BOARD 2-YEAR TERM - "; "GOVERNING BOARD 2-YEAR TERM ";
   "BOARD MEMBER - "; "BOARD MEMBER "; "BD MEMBER "; "BRD MEMBER ";
   "SCHOOL BOARD MEMBER "; "FLORENCE BOARD MEMBER "].

Definition name_suffixes : list string :=
  [" BOARD MEMBER"; " - BOARD MEMBER";
   "-GBM-4YR"; "-GBM-2YR"; "-GBM";
   " GOV BRD - 4YR"; " GOV BRD - 2YR"; " GOV BRD";
   ": 4-YEAR TERM"; ": 2-YEAR TERM"; ": 4YR"; ": 2YR"].

(** [normalize_race_name(text)] *)
Definition normalize_race_name (text : string) : string :=
  let t := Py.strip (Py.upper text) in
  let t := fold_left strip_prefix name_prefixes t in
  let t := fold_left strip_suffix name_suffixes t in
  let t := Re.sub re_elect (repl_const "") t in
  let t := Re.sub re_select (repl_const "") t in
  let t := Re.sub re_vote (repl_const "") t in
  let t := Re.sub re_vacancy (repl_const "") t in
  let t := Re.sub re_sch_dist (repl_const "SCHOOL DISTRICT ") t in
  let t := Re.sub re_sd (repl_const "SCHOOL DISTRICT ") t in
  let t := Re.sub re_elem (repl_const "ELEMENTARY ") t in
  let t := Re.sub re_school_district (repl_const "") t in
  let t := Re.sub re_hash (repl_group " #") t in
  let t := Re.sub re_no (repl_group " #") t in
  let t := Re.sub re_dist (repl_group " #") t in
  let t := Re.sub re_trailing (repl_const "") t in
  Py.strip (Re.sub re_spaces (repl_const " ") t).

(** [for key, ctds in MANUAL_CTDS_MAP.items(): if key in text: return ctds] *)
Fixpoint first_fragment (table : list (string * string)) (text : string)
  : option string :=
  match table with
  | [] => None
  | (key, ctds) :: rest =>
      if Py.contains text key then Some ctds else first_fragment rest text
  end.

Definition lookup_fragment (text : string) : option string :=
  first_fragment MANUAL_CTDS_MAP text.

Definition nonblank (district : string) : bool :=
  (Py.truthy district && Py.truthy (Py.strip district))%bool.

Definition texts_to_try (office district : string) : list string :=
  (if nonblank district then [Py.strip district] else []) ++
  [Py.strip office] ++
  (if nonblank district
   then [Py.strip office +:+ " - " +:+ Py.strip district] else []).

(** The body of [for text in texts_to_try]: the upper-cased text first,
    its normalization second. *)
Fixpoint try_texts (texts : list string) : option string :=
  match texts with
  | [] => None
  | t :: rest =>
      match lookup_fragment (Py.strip (Py.upper t)) with
      | Some ctds => Some ctds
      | None =>
          match lookup_fragment (normalize_race_name t) with
          | Some ctds => Some ctds
          | None => try_texts rest
          end
      end
  end.

Definition combined_text (office district : string) : string :=
  Re.sub re_spaces (repl_const " ")
    (Py.strip (Py.replace "|" " " (Py.upper (office +:+ " " +:+ district)))).

(** [match_to_ctds(office, district, county)]; [None] is Python's [None]. *)
Definition match_to_ctds (office district county : string) : option string :=
  match try_texts (texts_to_try office district) with
  | Some ctds => Some ctds
  | None =>
      let combined := combined_text office district in
      match lookup_fragment combined with
      | Some ctds => Some ctds
      | None => lookup_fragment (normalize_race_name combined)
      end
  end.

(* ===================================================================== *)
(** ** Race classifier *)
(* ===================================================================== *)

(** [any(k in text for k in keys)] *)
Definition any_in (keys : list string) (text : string) : bool :=
  existsb (Py.contains text) keys.

Definition exclude_keywords : list string :=
  ["QUESTION"; "PROPOSITION"; "BOND"; "OVERRIDE"; "BUDGET";
   "SALE"; "LEASE"; "JTED"; "CAPITAL IMPROV"; "REORGANIZATION";
   "DISTRICT ADDITIONAL ASSISTANCE"; "MAIN. & OPERATIONS";
   "RECALL"; "REFERENDUM"].

Definition board_keywords : list string :=
  ["GOVERNING BOARD"; "GBM"; "GOV BRD"; "BOARD MEMBER";
   "BD MEMBER"; "BRD MEMBER"; "SCHOOL BOARD"].

Definition district_keywords : list string :=
  ["ESD"; "USD"; "UHSD"; "SCHOOL DIST"; "S.D."; "UNIFIED"].

Definition non_school_keywords : list string :=
  ["FIRE"; "WATER"; "SANITARY"; "HOSPITAL"; "COMMUNITY COLLEGE";
   "CAWCD"; "DWID"; "SANITATION"; "DOMESTIC WATER";
   "PIMA COMMUNITY"; "PINAL COUNTY COMM"; "COCHISE COLLEGE";
   "NORTHLAND PIONEER"; "EAST VALLEY INSTITUTE";
   "CENTRAL ARIZONA VALLEY INSTITUTE"; "MCCD";
   "ARIZONA CITY"; "POMERENE WATER"; "RIM TRAIL"].

Definition seat_keywords : list string :=
  ["ELECT"; "SELECT"; "VOTE FOR"; "4-YEAR"; "2-YEAR"; "4YR"; "2YR"].

(** The last rule of the classifier: the pipe-delimited layout. *)
Definition pipe_rule (office district : string) : bool :=
  let combined_pipe :=
    Py.replace "|" " " (Py.upper (office +:+ " " +:+ district)) in
  if any_in district_keywords combined_pipe then
    if bool_decide (match_to_ctds office district "" <> None) then true
    else false
  else false.

(** [is_school_board_race(office, district="")] *)
Definition is_school_board_race (office district : string) : bool :=
  let combined := Py.upper (office +:+ " " +:+ district) in
  if any_in exclude_keywords combined then false
  else if any_in board_keywords combined then
    if any_in non_school_keywords combined then false else true
  else if any_in district_keywords combined then
    if any_in seat_keywords combined then true
    else if bool_decide (match_to_ctds office district "" <> None) then true
    else pipe_rule office district
  else pipe_rule office district.

(* ===================================================================== *)
(** ** Metadata rows *)
(* ===================================================================== *)

Definition skip_values : list string :=
  ["REGISTERED VOTERS"; "BALLOTS CAST"; "BALLOTS CAST BLANK";
   "TOTAL VOTES"; "UNDER VOTE"; "OVER VOTE"; "UNDERVOTE"; "OVERVOTE";
   "WRITE-IN TOTALS"; "WRITE-INS"; "WRITE IN"; "WRITE-IN";
   "NUMBER OF PRECINCTS"; "NUMBER OF PRECINCTS FOR RACE";
   "NUMBER OF PRECINCTS REPORTING"; "TIMES COUNTED";
   "NO OFFICIAL CANDIDATE"].

(** [is_metadata_row(candidate)] *)
Definition is_metadata_row (candidate : string) : bool :=
  let upper := Py.strip (Py.upper candidate) in
  if existsb (String.eqb upper) skip_values then true
  else if (Py.startswith upper "TOTAL" || Py.startswith upper "UNDER " ||
           Py.startswith upper "OVER ")%bool then true
  else if (Py.startswith upper "WRITE-IN" ||
           Py.startswith upper "WRITE IN")%bool then true
  else if (Py.contains upper "TURNOUT" ||
           Py.contains upper "REGISTERED")%bool then true
  else false.

(* ===================================================================== *)
(** ** Data model *)
(* ===================================================================== *)

(** A value stored under a vote-method key of a record dict: the module
    stores either text (a CSV cell, or [''] for "not reported") or an
    [int]. *)
Inductive pyval :=
| VStr (s : string)
| VInt (z : Z).

(** Truthiness, as tested by [if r[field]] and [if cand['early_voting']]. *)
Definition truthy (v : pyval) : bool :=
  match v with
  | VStr s => Py.truthy s
  | VInt z => negb (z =? 0)
  end.

(** [int(float(v))] *)
Definition int_float (v : pyval) : result Z :=
  match v with
  | VStr s => Num.int_float_str s
  | VInt z => Num.int_float_int z
  end.

(** [f"{v}"] *)
Definition format_val (v : pyval) : string :=
  match v with
  | VStr s => s
  | VInt z => Py.str_of_int z
  end.

(** The dict appended by [extract_records] (a PrecinctVoteRecord). *)
Record precinct_record := {
  county : string;
  office : string;
  district : string;
  candidate : string;
  party : string;
  total_votes : Z;
  early_voting : pyval;
  election_day : pyval;
  provisional : pyval;
}.

(** The dict appended by [aggregate_to_candidates] (a CandidateAggregate);
    it has the same keys. *)
Record candidate_aggregate := {
  agg_county : string;
  agg_office : string;
  agg_district : string;
  agg_candidate : string;
  agg_party : string;
  agg_total_votes : Z;
  agg_early_voting : pyval;
  agg_election_day : pyval;
  agg_provisional : pyval;
}.

(** What [csv.DictReader] yields for a file: the header, and one dict per
    data row.  Cells are text: rows are taken to be as long as the
    header, so that no key is bound to [None]. *)
Record csv_table := {
  fieldnames : list string;
  rows : list (gmap string string);
}.

(** [row.get(key, dflt)] *)
Definition get (row : gmap string string) (key dflt : string) : string :=
  default dflt (row !! key).

(** Lines printed while a county-year file is processed. *)
Inductive log_event :=
| LogGap (county_display : string) (year : Z) (needed : nat)
| LogSkipDownload
| LogUnknownFormat (fields : list string)
| LogNoRaces
| LogCounts (n_records n_candidates : nat)
| LogMatched (districts : list (string * string * nat))
| LogUnmatched (races : list (string * string)).

(* ===================================================================== *)
(** ** Record extractor *)
(* ===================================================================== *)

(** [try: v = int(float(votes)) / except (ValueError, TypeError): v = 0] *)
Definition parse_votes (votes : string) : result Z :=
  match Num.int_float_str votes with
  | Ok v => Ok v
  | Raise ValueError | Raise TypeError => Ok 0
  | Raise e => Raise e
  end.

Definition in_list (x : string) (l : list string) : bool :=
  existsb (String.eqb x) l.

(** One iteration of the loop of the 2014 Maricopa layout; [None] is
    [continue]. *)
Definition row_contest_name (county_name : string)
    (row : gmap string string) : result (option precinct_record) :=
  let contest := get row "contest_name" "" in
  let candidate := get row "choice_name" "" in
  let votes := get row "vote_total" "0" in
  if negb (is_school_board_race contest "") then Ok None
  else if is_metadata_row candidate then Ok None
  else
    v ← parse_votes votes;
    if v <=? 0 then Ok None
    else Ok (Some {| county := county_name; office := contest; district := "";
                     candidate := candidate; party := "";
                     total_votes := v; early_voting := VStr "";
                     election_day := VStr ""; provisional := VStr "" |}).

(** The 2014 Yavapai layout. *)
Definition row_contesttitle (county_name : string)
    (row : gmap string string) : result (option precinct_record) :=
  let contest := get row "contesttitle" "" in
  let candidate := get row "candidate name" "" in
  let votes := get row "votes" "0" in
  let votetype := get row "votetype" "" in
  if negb (is_school_board_race contest "") then Ok None
  else if is_metadata_row candidate then Ok None
  else
    v ← parse_votes votes;
    if v <=? 0 then Ok None
    else Ok (Some {| county := county_name; office := contest; district := "";
                     candidate := candidate; party := get row "party name" "";
                     total_votes := v;
                     early_voting :=
                       VInt (if String.eqb votetype "C" then v else 0);
                     election_day :=
                       VInt (if in_list votetype ["E"; "P"] then v else 0);
                     provisional :=
                       VInt (if String.eqb votetype "A" then v else 0) |}).

(** The 2014 standard layout ([race], [race_id]). *)
Definition row_race (county_name : string)
    (row : gmap string string) : result (option precinct_record) :=
  let race := get row "race" "" in
  let candidate := get row "candidate" "" in
  let count := get row "count" "0" in
  let cand_id := get row "candidate_id" "" in
  if match Num.int_of_string cand_id with
     | Some n => 999990 <=? n
     | None => false
     end then Ok None
  else if negb (is_school_board_race race "") then Ok None
  else if is_metadata_row candidate then Ok None
  else
    v ← parse_votes count;
    if v <=? 0 then Ok None
    else Ok (Some {| county := county_name; office := race; district := "";
                     candidate := candidate; party := "";
                     total_votes := v; early_voting := VStr "";
                     election_day := VStr ""; provisional := VStr "" |}).

(** The 2014 Pinal layout, with the column names as spelled in the
    header. *)
Definition row_pinal (cn_field ch_field vt_field county_name : string)
    (row : gmap string string) : result (option precinct_record) :=
  let contest := get row cn_field "" in
  let candidate := get row ch_field "" in
  let votes := get row vt_field "0" in
  if negb (is_school_board_race contest "") then Ok None
  else if is_metadata_row candidate then Ok None
  else
    v ← parse_votes votes;
    if v <=? 0 then Ok None
    else Ok (Some {| county := county_name; office := contest; district := "";
                     candidate := candidate; party := get row "party_name" "";
                     total_votes := v;
                     early_voting := VStr (get row "early_votes" "");
                     election_day := VStr (get row "polling_place_votes" "");
                     provisional := VStr (get row "provisional_votes" "") |}).

(** The 2016-2024 standard layout. *)
Definition row_office (county_name : string)
    (row : gmap string string) : result (option precinct_record) :=
  let office := get row "office" "" in
  let district := get row "district" "" in
  let candidate := get row "candidate" "" in
  let party := get row "party" "" in
  let votes := get row "votes" "0" in
  if negb (is_school_board_race office district) then Ok None
  else if is_metadata_row candidate then Ok None
  else
    v ← parse_votes votes;
    if v <=? 0 then Ok None
    else Ok (Some {| county := county_name; office := office;
                     district := district;
                     candidate := candidate; party := party;
                     total_votes := v;
                     early_voting := VStr (get row "early_voting" "");
                     election_day := VStr (get row "election_day" "");
                     provisional := VStr (get row "provisional" "") |}).

(** [for row in reader: ... records.append(...)] *)
Fixpoint extract_loop (step : gmap string string -> result (option precinct_record))
    (rs : list (gmap string string)) (records : list precinct_record)
  : result (list precinct_record) :=
  match rs with
  | [] => Ok records
  | row :: rest =>
      o ← step row;
      extract_loop step rest
        (match o with
         | Some r => records ++ [r]
         | None => records
         end)
  end.

(** [[f for f in fields if f.lower() == name][0]] *)
Definition field_named (fields : list string) (name : string) : result string :=
  match filter (fun f => Py.lower f = name) fields with
  | f :: _ => Ok f
  | [] => Raise IndexError
  end.

(** [extract_records(csv_text, county_name, year, county_lower)], on the
    parsed file; the second component is what the call prints. *)
Definition extract_records (tbl : csv_table) (county_name : string)
    (year : Z) (county_lower : string)
  : result (list precinct_record * list log_event) :=
  let fields := fieldnames tbl in
  match fields with
  | [] => Ok ([], [])
  | _ =>
      let fields_lower := map Py.lower fields in
      if in_list "contest_name" fields_lower then
        records ← extract_loop (row_contest_name county_name) (rows tbl) [];
        Ok (records, [])
      else if in_list "contesttitle" fields_lower then
        records ← extract_loop (row_contesttitle county_name) (rows tbl) [];
        Ok (records, [])
      else if (in_list "race" fields_lower &&
               in_list "race_id" fields_lower)%bool then
        records ← extract_loop (row_race county_name) (rows tbl) [];
        Ok (records, [])
      else if in_list "contest_name" (map Py.lower fields) then
        cn_field ← field_named fields "contest_name";
        ch_field ← field_named fields "choice_name";
        vt_field ← field_named fields "vote_total";
        records ← extract_loop
                    (row_pinal cn_field ch_field vt_field county_name)
                    (rows tbl) [];
        Ok (records, [])
      else if in_list "office" fields_lower then
        records ← extract_loop (row_office county_name) (rows tbl) [];
        Ok (records, [])
      else Ok ([], [LogUnknownFormat fields])
  end.

(* ===================================================================== *)
(** ** Candidate aggregator *)
(* ===================================================================== *)

(** The grouping key [(county, office, district, candidate, party)]. *)
Definition agg_key : Type := string * string * string * string * string.

Definition key_of (r : precinct_record) : agg_key :=
  (county r, office r, district r, candidate r, party r).

(** The running sums kept per key. *)
Record totals := {
  sum_total : Z;
  sum_early : Z;
  sum_eday : Z;
  sum_prov : Z;
}.

(** The [defaultdict] factory. *)
Definition zero_totals : totals :=
  {| sum_total := 0; sum_early := 0; sum_eday := 0; sum_prov := 0 |}.

(** What one record adds to the running sum of a vote-method field:
    [val = int(float(r[field])) if r[field] else 0], where a [ValueError]
    or [TypeError] leaves the sum as it is. *)
Definition subtotal_add (x : pyval) : result Z :=
  if truthy x then
    match int_float x with
    | Ok v => Ok v
    | Raise ValueError | Raise TypeError => Ok 0
    | Raise e => Raise e
    end
  else Ok 0.

(** An insertion-ordered dict with a default: [d[k] = f(d[k])]. *)
Fixpoint dict_update {K V : Type} `{EqDecision K}
    (k : K) (dflt : V) (f : V -> V) (d : list (K * V)) : list (K * V) :=
  match d with
  | [] => [(k, f dflt)]
  | (k', v) :: rest =>
      if decide (k = k') then (k', f v) :: rest
      else (k', v) :: dict_update k dflt f rest
  end.

(** [d[k]] of a [defaultdict], read-only. *)
Fixpoint dict_get {K V : Type} `{EqDecision K}
    (k : K) (dflt : V) (d : list (K * V)) : V :=
  match d with
  | [] => dflt
  | (k', v) :: rest => if decide (k = k') then v else dict_get k dflt rest
  end.

Definition add_record (r : precinct_record) (e d p : Z) (t : totals) : totals :=
  {| sum_total := sum_total t + total_votes r;
     sum_early := sum_early t + e;
     sum_eday := sum_eday t + d;
     sum_prov := sum_prov t + p |}.

(** The body of [for r in precinct_records]. *)
Definition agg_step (agg : list (agg_key * totals)) (r : precinct_record)
  : result (list (agg_key * totals)) :=
  e ← subtotal_add (early_voting r);
  d ← subtotal_add (election_day r);
  p ← subtotal_add (provisional r);
  Ok (dict_update (key_of r) zero_totals (add_record r e d p) agg).

Fixpoint agg_loop (agg : list (agg_key * totals)) (rs : list precinct_record)
  : result (list (agg_key * totals)) :=
  match rs with
  | [] => Ok agg
  | r :: rest => agg' ← agg_step agg r; agg_loop agg' rest
  end.

(** The order of [str]: by character code, a proper prefix first. *)
Definition lex (c : comparison) (rest : comparison) : comparison :=
  match c with
  | Eq => rest
  | _ => c
  end.

(** The order of the key tuples. *)
Definition key_compare (a b : agg_key) : comparison :=
  let '(a1, a2, a3, a4, a5) := a in
  let '(b1, b2, b3, b4, b5) := b in
  lex (String.compare a1 b1)
   (lex (String.compare a2 b2)
     (lex (String.compare a3 b3)
       (lex (String.compare a4 b4) (String.compare a5 b5)))).

Definition item_le (a b : agg_key * totals) : Prop :=
  key_compare a.1 b.1 <> Gt.

#[global] Instance item_le_dec a b : Decision (item_le a b).
Proof. unfold item_le. apply _. Defined.

(** [v if v > 0 else ''] *)
Definition blank_unless_positive (v : Z) : pyval :=
  if 0 <? v then VInt v else VStr "".

Definition result_row (item : agg_key * totals) : candidate_aggregate :=
  let '((county, office, district, candidate, party), vals) := item in
  {| agg_county := county; agg_office := office; agg_district := district;
     agg_candidate := candidate; agg_party := party;
     agg_total_votes := sum_total vals;
     agg_early_voting := blank_unless_positive (sum_early vals);
     agg_election_day := blank_unless_positive (sum_eday vals);
     agg_provisional := blank_unless_positive (sum_prov vals) |}.

(** [aggregate_to_candidates(precinct_records)] *)
Definition aggregate_to_candidates (precinct_records : list precinct_record)
  : result (list candidate_aggregate) :=
  agg ← agg_loop [] precinct_records;
  Ok (map result_row (merge_sort item_le agg)).

(* ===================================================================== *)
(** ** Gap-fill merge engine ([main]) *)
(* ===================================================================== *)

(** A row of the authoritative table, and of the staged output, which is
    written with the same header; the header is taken to have the columns
    that [main] fills in. *)
Record master_row := {
  m_year : string;
  m_election_date : string;
  m_election_type : string;
  m_county : string;
  m_school_district : string;
  m_ctds_id : string;
  m_nces_leaid : string;
  m_ccd_lea_name : string;
  m_district : string;
  m_office : string;
  m_candidate : string;
  m_party : string;
  m_total_votes : string;
  m_early_voting : string;
  m_election_day : string;
  m_provisional : string;
  m_winner : string;
  m_num_precincts : string;
}.

(** A row of the cross-reference directory. *)
Record ccd_row := {
  FIPST : string;
  LEA_TYPE : string;
  ST_LEAID : string;
  LEA_NAME : string;
  LEAID : string;
}.

(** An entry of the match log. *)
Record match_detail := {
  md_ctds : string;
  md_year : Z;
  md_county : string;
  md_lea_name : string;
  md_n_candidates : nat;
}.

Definition YEARS : list Z := [2014; 2016; 2018; 2020; 2022; 2024].

Definition ELECTION_DATES : list (Z * string) :=
  [(2014, "2014-11-04"); (2016, "2016-11-08"); (2018, "2018-11-06");
   (2020, "2020-11-03"); (2022, "2022-11-08"); (2024, "2024-11-05")].

Definition DATE_PREFIXES : list (Z * string) :=
  [(2014, "20141104"); (2016, "20161108"); (2018, "20181106");
   (2020, "20201103"); (2022, "20221108"); (2024, "20241105")].

Definition COUNTY_DISPLAY : list (string * string) :=
  [("apache", "Apache"); ("cochise", "Cochise"); ("coconino", "Coconino");
   ("gila", "Gila"); ("graham", "Graham"); ("greenlee", "Greenlee");
   ("la_paz", "La Paz"); ("maricopa", "Maricopa"); ("mohave", "Mohave");
   ("navajo", "Navajo"); ("pima", "Pima"); ("pinal", "Pinal");
   ("santa_cruz", "Santa Cruz"); ("yavapai", "Yavapai"); ("yuma", "Yuma")].

Definition BASE_URL : string :=
  "https://raw.githubusercontent.com/openelections/openelections-data-az/master".

(** [table[key]] of a dict literal. *)
Fixpoint assoc {K V : Type} `{EqDecision K} (k : K) (table : list (K * V))
  : option V :=
  match table with
  | [] => None
  | (k', v) :: rest => if decide (k = k') then Some v else assoc k rest
  end.

Definition subscript {K V : Type} `{EqDecision K} (table : list (K * V)) (k : K)
  : result V :=
  match assoc k table with
  | Some v => Ok v
  | None => Raise KeyError
  end.

(** [get_county_url(year, county_lower)] *)
Definition get_county_url (year : Z) (county_lower : string) : result string :=
  prefix ← subscript DATE_PREFIXES year;
  let c := county_lower in
  if year =? 2024 then
    let c := if String.eqb c "la_paz" then "la%20paz"
             else if String.eqb c "santa_cruz" then "santa%20cruz" else c in
    Ok (BASE_URL +:+ "/2024/General/" +:+ prefix +:+ "__az__general__" +:+ c
        +:+ "__precinct.csv")
  else if year =? 2014 then
    Ok (BASE_URL +:+ "/2014/" +:+ prefix +:+ "__az__general__" +:+ c
        +:+ "__precinct.csv")
  else
    Ok (BASE_URL +:+ "/" +:+ Py.str_of_int year +:+ "/counties/" +:+ prefix
        +:+ "__az__general__" +:+ c +:+ "__precinct.csv").

(** [str(int(float(s)))] *)
Definition canon (s : string) : result string :=
  v ← Num.int_float_str s; Ok (Py.str_of_int v).

(** *** Load *)

(** The first pass over the authoritative table: [existing_pairs]. *)
Fixpoint load_pairs (table : list master_row) (pairs : gset (string * string))
  : result (gset (string * string)) :=
  match table with
  | [] => Ok pairs
  | r :: rest =>
      if Py.truthy (m_ctds_id r) then
        ctds ← canon (m_ctds_id r);
        year ← canon (m_year r);
        load_pairs rest ({[ (ctds, year) ]} ∪ pairs)
      else load_pairs rest pairs
  end.

(** [ccd_districts]: identifier -> (lea_name, leaid). *)
Definition load_ccd (directory : list ccd_row) : gmap string (string * string) :=
  fold_left
    (fun ccd r =>
       if (String.eqb (FIPST r) "04" && String.eqb (LEA_TYPE r) "1")%bool
       then <[ Py.replace "AZ-" "" (ST_LEAID r) := (LEA_NAME r, LEAID r) ]> ccd
       else ccd)
    directory ∅.

(** The second pass: [ctds_county] and [ctds_names]. *)
Fixpoint load_info (table : list master_row)
    (ctds_county : gmap string string) (ctds_names : gmap string (gset string))
  : result (gmap string string * gmap string (gset string)) :=
  match table with
  | [] => Ok (ctds_county, ctds_names)
  | r :: rest =>
      if (Py.truthy (m_ctds_id r) && Py.truthy (m_county r))%bool then
        ctds ← canon (m_ctds_id r);
        load_info rest
          (<[ ctds := m_county r ]> ctds_county)
          (<[ ctds := {[ m_school_district r ]} ∪ default ∅ (ctds_names !! ctds) ]>
             ctds_names)
      else load_info rest ctds_county ctds_names
  end.

(** *** Plan *)

(** [county.lower().replace(' ', '_')] *)
Definition county_key (county : string) : string :=
  Py.replace " " "_" (Py.lower county).

(** [gaps_by_county_year[key].add(ctds)] *)
Definition add_gap (gaps : gmap (string * Z) (gset string))
    (key : string * Z) (ctds : string) : gmap (string * Z) (gset string) :=
  <[ key := {[ ctds ]} ∪ default ∅ (gaps !! key) ]> gaps.

(** The body of [for ctds in all_ctds]. *)
Definition plan_ctds (existing_pairs : gset (string * string))
    (gaps : gmap (string * Z) (gset string)) (entry : string * string)
  : gmap (string * Z) (gset string) :=
  let '(ctds, county) := entry in
  if Py.truthy county then
    let county_lower := county_key county in
    fold_left
      (fun gaps year =>
         if decide ((ctds, Py.str_of_int year) ∈ existing_pairs) then gaps
         else add_gap gaps (county_lower, year) ctds)
      YEARS gaps
  else gaps.

(** [gaps_by_county_year]; the order in which the set [all_ctds] is
    traversed does not show in the resulting dict of sets. *)
Definition compute_gaps (ctds_county : gmap string string)
    (existing_pairs : gset (string * string)) : gmap (string * Z) (gset string) :=
  fold_left (plan_ctds existing_pairs) (map_to_list ctds_county) ∅.

(** *** Execute, Materialize *)

(** What a run accumulates: the staged rows, [filled_pairs], the match
    log and the printed report. *)
Record run_state := {
  new_rows : list master_row;
  filled_pairs : gset (string * string);
  match_details : list match_detail;
  report : list log_event;
}.

Definition initial_state : run_state :=
  {| new_rows := []; filled_pairs := ∅; match_details := []; report := [] |}.

Definition say (st : run_state) (events : list log_event) : run_state :=
  {| new_rows := new_rows st; filled_pairs := filled_pairs st;
     match_details := match_details st; report := report st ++ events |}.

(** Orders used by [sorted]. *)
Definition str_le (a b : string) : Prop := String.compare a b <> Gt.
Definition pair_le (a b : string * string) : Prop :=
  lex (String.compare a.1 b.1) (String.compare a.2 b.2) <> Gt.
Definition gap_le (a b : (string * Z) * gset string) : Prop :=
  lex (String.compare a.1.1 b.1.1) (Z.compare a.1.2 b.1.2) <> Gt.

#[global] Instance str_le_dec a b : Decision (str_le a b).
Proof. unfold str_le. apply _. Defined.
#[global] Instance pair_le_dec a b : Decision (pair_le a b).
Proof. unfold pair_le. apply _. Defined.
#[global] Instance gap_le_dec a b : Decision (gap_le a b).
Proof. unfold gap_le. apply _. Defined.

(** [COUNTY_DISPLAY.get(county_lower, county_lower.title())] *)
Definition county_display_of (county_lower : string) : string :=
  default (Py.title county_lower) (assoc county_lower COUNTY_DISPLAY).

(** [sorted(names, key=len)[-1]]: the last of the longest names in the
    order in which the set is traversed ([elements] stands for that
    order, which Python leaves unspecified). *)
Definition longest_name (names : gset string) : string :=
  fold_left (fun best s => if Nat.leb (Py.len best) (Py.len s) then s else best)
            (elements names) "".

Section Run.
(** The run's inputs after Load: what [download_file] and the CSV
    reader give for a URL ([None]: nothing could be downloaded), the
    pairs of the authoritative table, the directory, the known names. *)
Variable source : string -> option csv_table.
Variable existing_pairs : gset (string * string).
Variable ccd_districts : gmap string (string * string).
Variable ctds_names : gmap string (gset string).

(** The body of [for cand in candidates]. *)
Definition match_step (needed_ctds : gset string) (year : Z)
    (county_display : string)
    (st : list (string * list candidate_aggregate) * list candidate_aggregate)
    (cand : candidate_aggregate)
  : list (string * list candidate_aggregate) * list candidate_aggregate :=
  let '(matched, unmatched) := st in
  match match_to_ctds (agg_office cand) (agg_district cand) county_display with
  | Some ctds =>
      if (Py.truthy ctds && bool_decide (ctds ∈ needed_ctds))%bool then
        (dict_update ctds [] (fun l => l ++ [cand]) matched, unmatched)
      else if (Py.truthy ctds &&
               bool_decide ((ctds, Py.str_of_int year) ∈ existing_pairs))%bool
      then (matched, unmatched)
      else (matched, unmatched)
  | None => (matched, unmatched ++ [cand])
  end.

Definition match_candidates (needed_ctds : gset string) (year : Z)
    (county_display : string) (candidates : list candidate_aggregate)
  : list (string * list candidate_aggregate) * list candidate_aggregate :=
  fold_left (match_step needed_ctds year county_display) candidates ([], []).

(** The lines printed under [if matched:] and [if unmatched:]. *)
Definition matched_report (matched : list (string * list candidate_aggregate))
  : list log_event :=
  match matched with
  | [] => []
  | _ =>
      [LogMatched
         (map (fun ctds =>
                 (ctds,
                  default "?" (fst <$> ccd_districts !! ctds),
                  length (dict_get ctds [] matched)))
              (merge_sort str_le (map fst matched)))]
  end.

Definition unmatched_report (unmatched : list candidate_aggregate)
  : list log_event :=
  match unmatched with
  | [] => []
  | _ =>
      [LogUnmatched
         (merge_sort pair_le
            (remove_dups
               (map (fun u => (agg_office u, agg_district u)) unmatched)))]
  end.

(** The row synthesized for one candidate. *)
Definition make_row (year : Z) (county_display school_district ctds
                     leaid lea_name : string) (cand : candidate_aggregate)
  : result master_row :=
  date ← subscript ELECTION_DATES year;
  Ok {| m_year := Py.str_of_int year +:+ ".0";
        m_election_date := date;
        m_election_type := "general";
        m_county := county_display;
        m_school_district := school_district;
        m_ctds_id := ctds +:+ ".0";
        m_nces_leaid := if Py.truthy leaid then leaid +:+ ".0" else "";
        m_ccd_lea_name := lea_name;
        m_district := "";
        m_office := if Py.truthy (agg_district cand)
                    then agg_office cand +:+ " - " +:+ agg_district cand
                    else agg_office cand;
        m_candidate := agg_candidate cand;
        m_party := if Py.truthy (agg_party cand) then agg_party cand else "";
        m_total_votes := Py.str_of_int (agg_total_votes cand) +:+ ".0";
        m_early_voting := if truthy (agg_early_voting cand)
                          then format_val (agg_early_voting cand) +:+ ".0"
                          else "";
        m_election_day := if truthy (agg_election_day cand)
                          then format_val (agg_election_day cand) +:+ ".0"
                          else "";
        m_provisional := if truthy (agg_provisional cand)
                         then format_val (agg_provisional cand) +:+ ".0"
                         else "";
        m_winner := "";
        m_num_precincts := "" |}.

Fixpoint make_rows (mk : candidate_aggregate -> result master_row)
    (cand_list : list candidate_aggregate) : result (list master_row) :=
  match cand_list with
  | [] => Ok []
  | cand :: rest => row ← mk cand; rows ← make_rows mk rest; Ok (row :: rows)
  end.

(** The body of [for ctds, cand_list in matched.items()]. *)
Definition materialize (year : Z) (county_display : string)
    (st : run_state) (entry : string * list candidate_aggregate)
  : result run_state :=
  let '(ctds, cand_list) := entry in
  if decide ((ctds, Py.str_of_int year) ∈ existing_pairs) then Ok st
  else
    let ccd_info := ccd_districts !! ctds in
    let leaid := default "" (snd <$> ccd_info) in
    let lea_name := default "" (fst <$> ccd_info) in
    let school_district :=
      match ctds_names !! ctds with
      | Some names =>
          if decide (names = ∅) then lea_name else longest_name names
      | None => lea_name
      end in
    rows ← make_rows
             (make_row year county_display school_district ctds leaid lea_name)
             cand_list;
    Ok {| new_rows := new_rows st ++ rows;
          filled_pairs := {[ (ctds, Py.str_of_int year) ]} ∪ filled_pairs st;
          match_details :=
            match_details st ++
            [{| md_ctds := ctds; md_year := year; md_county := county_display;
                md_lea_name := lea_name;
                md_n_candidates := length cand_list |}];
          report := report st |}.

Fixpoint materialize_all (year : Z) (county_display : string)
    (st : run_state) (matched : list (string * list candidate_aggregate))
  : result run_state :=
  match matched with
  | [] => Ok st
  | entry :: rest =>
      st' ← materialize year county_display st entry;
      materialize_all year county_display st' rest
  end.

(** The body of the loop over [sorted(gaps_by_county_year.items())]. *)
Definition process_gap (st : run_state)
    (gap : (string * Z) * gset string) : result run_state :=
  let '((county_lower, year), needed_ctds) := gap in
  let county_display := county_display_of county_lower in
  url ← get_county_url year county_lower;
  let st := say st [LogGap county_display year (size needed_ctds)] in
  match source url with
  | None => Ok (say st [LogSkipDownload])
  | Some tbl =>
      '(precinct_records, warnings) ←
        extract_records tbl county_display year county_lower;
      let st := say st warnings in
      match precinct_records with
      | [] => Ok (say st [LogNoRaces])
      | _ =>
          candidates ← aggregate_to_candidates precinct_records;
          let st := say st [LogCounts (length precinct_records)
                                      (length candidates)] in
          let '(matched, unmatched) :=
            match_candidates needed_ctds year county_display candidates in
          let st := say st (matched_report matched ++
                            unmatched_report unmatched) in
          materialize_all year county_display st matched
      end
  end.

Fixpoint process_gaps (st : run_state)
    (gaps : list ((string * Z) * gset string)) : result run_state :=
  match gaps with
  | [] => Ok st
  | gap :: rest => st' ← process_gap st gap; process_gaps st' rest
  end.
End Run.

(** [main()]: Load, Plan, Execute/Materialize.  The staging file holds
    [new_rows], the JSON log [match_details]; the banner and the summary
    that [main] prints besides [report] only repeat counts of these. *)
Definition main (table : list master_row) (directory : list ccd_row)
    (source : string -> option csv_table) : result run_state :=
  existing_pairs ← load_pairs table ∅;
  let ccd_districts := load_ccd directory in
  '(ctds_county, ctds_names) ← load_info table ∅ ∅;
  let gaps := compute_gaps ctds_county existing_pairs in
  process_gaps source existing_pairs ccd_districts ctds_names initial_state
    (merge_sort gap_le (map_to_list gaps)).


(* ===================================================================== *)
(** ** Download *)
(* ===================================================================== *)

(** [download_file(url)], given what [urlopen(...).read().decode(...)]
    produced for the URL ([None]: an exception was raised on the way):
    the decoded text with its line endings normalized, or [None]. *)
Definition download_file (response : option string) : option string :=
  match response with
  | Some text =>
      Some (Py.replace (String "013" "") (String "010" "")
              (Py.replace (String "013" (String "010" "")) (String "010" "")
                 text))
  | None => None
  end.


(* ===================================================================== *)
(** ** Reference definitions and fixtures used by the statements *)
(* ===================================================================== *)

(** The identifiers the table can answer with. *)
Definition ctds_values : list string := map snd MANUAL_CTDS_MAP.

(** The first text of a list for which [f] answers. *)
Fixpoint first_some {A B : Type} (f : A -> option B) (l : list A) : option B :=
  match l with
  | [] => None
  | x :: rest =>
      match f x with
      | Some y => Some y
      | None => first_some f rest
      end
  end.

(** The trial order as the specification words it: the district text,
    the office text and their concatenation first, and only then each of
    the three after normalization. *)
Definition spec_trial_texts (office district : string) : list string :=
  let texts := texts_to_try office district in
  map (fun t => Py.strip (Py.upper t)) texts ++ map normalize_race_name texts.

Definition match_to_ctds_spec_order (office district : string) : option string :=
  first_some lookup_fragment (spec_trial_texts office district).

(** The texts [match_to_ctds] tries, in the order in which it tries them. *)
Definition trial_texts (office district : string) : list string :=
  let o := Py.strip office in
  let d := Py.strip district in
  let od := o +:+ " - " +:+ d in
  let c := combined_text office district in
  if nonblank district then
    [Py.strip (Py.upper d); normalize_race_name d;
     Py.strip (Py.upper o); normalize_race_name o;
     Py.strip (Py.upper od); normalize_race_name od;
     c; normalize_race_name c]
  else
    [Py.strip (Py.upper o); normalize_race_name o; c; normalize_race_name c].

(** Sums over lists of integers. *)
Fixpoint sum_Z (l : list Z) : Z :=
  match l with
  | [] => 0
  | x :: rest => x + sum_Z rest
  end.

(** The grouping key of an aggregate. *)
Definition key_of_agg (a : candidate_aggregate) : agg_key :=
  (agg_county a, agg_office a, agg_district a, agg_candidate a, agg_party a).

(** The member records of a group. *)
Definition group (k : agg_key) (recs : list precinct_record)
  : list precinct_record :=
  filter (fun r => key_of r = k) recs.

(** What a member adds to a vote-method sum when [subtotal_add] returns. *)
Definition contribution (v : pyval) : Z :=
  match subtotal_add v with
  | Ok z => z
  | Raise _ => 0
  end.

(** An aggregate field [v] reporting the sum [s]: blank unless positive. *)
Definition reports (v : pyval) (s : Z) : Prop :=
  (s <= 0 -> v = VStr "") /\ (0 < s -> v = VInt s).

(** Three precincts reporting for one candidate. *)
Definition jane (votes : Z) (early : pyval) : precinct_record :=
  {| county := "Yavapai"; office := "Governing Board"; district := "";
     candidate := "Jane Doe"; party := ""; total_votes := votes;
     early_voting := early; election_day := VStr ""; provisional := VStr "" |}.

Definition three_precincts : list precinct_record :=
  [jane 120 (VStr "0"); jane 85 (VStr "0"); jane 40 (VStr "")].

(** What Execute obtains for a county-year before it matches: the lines
    printed after the heading, and the candidates ([None] when the file
    is skipped). *)
Definition gap_candidates (source : string -> option csv_table)
    (county_lower : string) (year : Z)
  : result (list log_event * option (list candidate_aggregate)) :=
  let county_display := county_display_of county_lower in
  url ← get_county_url year county_lower;
  match source url with
  | None => Ok ([LogSkipDownload], None)
  | Some tbl =>
      '(precinct_records, warnings) ←
        extract_records tbl county_display year county_lower;
      match precinct_records with
      | [] => Ok (warnings ++ [LogNoRaces], None)
      | _ =>
          candidates ← aggregate_to_candidates precinct_records;
          Ok (warnings ++ [LogCounts (length precinct_records)
                                     (length candidates)],
              Some candidates)
      end
  end.

(** [cand] is listed under [ctds] in the dict [matched]. *)
Definition holds (matched : list (string * list candidate_aggregate))
    (ctds : string) (cand : candidate_aggregate) : Prop :=
  exists cand_list, (ctds, cand_list) ∈ matched /\ cand ∈ cand_list.

(** The columns that tie a staged row to an identifier, a year and a
    county. *)
Definition row_for (year : Z) (county_display ctds : string)
    (row : master_row) : Prop :=
  m_ctds_id row = ctds +:+ ".0" /\
  m_year row = Py.str_of_int year +:+ ".0" /\
  m_county row = county_display.

(** The (identifier, year) pair of a row, read the way Load reads it. *)
Definition row_pair (r : master_row) : result (string * string) :=
  ctds ← canon (m_ctds_id r);
  year ← canon (m_year r);
  Ok (ctds, year).

(** What every appended record satisfies: the candidate label is not a
    metadata label and the vote count is positive. *)
Definition kept (r : precinct_record) : Prop :=
  is_metadata_row (candidate r) = false /\ 0 < total_votes r.

(** The sums kept under a key after the loop: what was there plus what
    the members of the group add. *)
Definition totals_after (t : totals) (members : list precinct_record) : totals :=
  {| sum_total := sum_total t + sum_Z (map total_votes members);
     sum_early := sum_early t
                  + sum_Z (map (fun r => contribution (early_voting r)) members);
     sum_eday := sum_eday t
                 + sum_Z (map (fun r => contribution (election_day r)) members);
     sum_prov := sum_prov t
                 + sum_Z (map (fun r => contribution (provisional r)) members) |}.

(** Whether [str(int(float(v + '.0')))] gives a non-empty [v] back. *)
Definition canon_roundtrip (v : string) : bool :=
  match canon (v +:+ ".0") with
  | Ok s => (String.eqb s v && Py.truthy v)%bool
  | Raise _ => false
  end.

(** A row staged for [ctds] while the gap of [county_lower] and [year]
    was processed. *)
Definition staged_for (existing_pairs : gset (string * string))
    (county_lower : string) (year : Z) (needed : gset string)
    (ctds : string) (row : master_row) : Prop :=
  ctds ∈ needed /\ ctds ∈ ctds_values /\ year ∈ YEARS /\
  ((ctds, Py.str_of_int year) ∉ existing_pairs) /\
  row_for year (county_display_of county_lower) ctds row.

(** A candidate of the file that resolves to a needed identifier. *)
Definition resolves_to (disp : string) (needed : gset string)
    (cand : candidate_aggregate) (ctds : string) : Prop :=
  match_to_ctds (agg_office cand) (agg_district cand) disp = Some ctds /\
  Py.truthy ctds = true /\ ctds ∈ needed.

(** A county-year file in the 2016-2024 layout. *)
Definition office_header : list string :=
  ["county"; "precinct"; "office"; "district"; "party"; "candidate"; "votes";
   "early_voting"].

Definition office_row (precinct office district candidate votes early : string)
  : gmap string string :=
  list_to_map
    [("county", "Yavapai"); ("precinct", precinct); ("office", office);
     ("district", district); ("party", ""); ("candidate", candidate);
     ("votes", votes); ("early_voting", early)].

(** The end-to-end scenario: the authoritative table knows Camp Verde
    (4470) for 2016 only and Mayer (4473) for 2018; the Yavapai file of
    2018 holds both races, a metadata row and a race nobody knows. *)
Definition table_row (year county school_district ctds_id : string) : master_row :=
  {| m_year := year; m_election_date := "2016-11-08";
     m_election_type := "general"; m_county := county;
     m_school_district := school_district; m_ctds_id := ctds_id;
     m_nces_leaid := ""; m_ccd_lea_name := ""; m_district := "";
     m_office := "Governing Board"; m_candidate := "Pat Poe"; m_party := "";
     m_total_votes := "100.0"; m_early_voting := ""; m_election_day := "";
     m_provisional := ""; m_winner := ""; m_num_precincts := "" |}.

Definition scenario_table : list master_row :=
  [table_row "2016.0" "Yavapai" "Camp Verde Unified District" "4470.0";
   table_row "2018.0" "Yavapai" "Mayer Unified School District" "4473.0"].

Definition scenario_directory : list ccd_row :=
  [{| FIPST := "04"; LEA_TYPE := "1"; ST_LEAID := "AZ-4470";
      LEA_NAME := "Camp Verde Unified District (4470)"; LEAID := "0401600" |}].

Definition yavapai_2018 : csv_table :=
  {| fieldnames := office_header;
     rows :=
       [office_row "P1" "Camp Verde USD Governing Board" "" "Jane Doe" "120" "";
        office_row "P2" "Camp Verde USD Governing Board" "" "Jane Doe" "85" "";
        office_row "P3" "Camp Verde USD Governing Board" "" "Jane Doe" "40" "";
        office_row "P1" "Camp Verde USD Governing Board" "" "John Roe" "10" "";
        office_row "P1" "Camp Verde USD Governing Board" "" "Write-in" "3" "";
        office_row "P1" "Mayer USD Governing Board" "" "Al Moe" "7" "";
        office_row "P1" "Zzz USD Governing Board" "" "Bo Coe" "7" "";
        office_row "P2" "Camp Verde USD Governing Board" "" "John Roe" "x" ""] |}.

Definition yavapai_2018_url : string :=
  "https://raw.githubusercontent.com/openelections/openelections-data-az/master/2018/counties/20181106__az__general__yavapai__precinct.csv".

Definition scenario_source (url : string) : option csv_table :=
  if String.eqb url yavapai_2018_url then Some yavapai_2018 else None.

(** The pairs of the scenario's table, and the Mayer aggregate of the
    Yavapai file, whose pair the table holds already. *)
Definition scenario_pairs : gset (string * string) :=
  {[ ("4470", "2016"); ("4473", "2018") ]}.

Definition mayer_aggregate : candidate_aggregate :=
  {| agg_county := "Yavapai"; agg_office := "Mayer USD Governing Board";
     agg_district := ""; agg_candidate := "Al Moe"; agg_party := "";
     agg_total_votes := 7; agg_early_voting := VStr "";
     agg_election_day := VStr ""; agg_provisional := VStr "" |}.

(** Two runs in a row against the same authoritative table and the
    same source data: [main] only reads the table, so the second run
    starts from what the first run started from. *)
Definition run_twice (table : list master_row) (directory : list ccd_row)
    (source : string -> option csv_table) : result (run_state * run_state) :=
  st1 ← main table directory source;
  st2 ← main table directory source;
  Ok (st1, st2).

(** The character-wise reading of [county.lower().replace(' ', '_')]. *)
Definition key_char (a : ascii) : ascii :=
  let b := Py.lower_char a in
  if Ascii.eqb b " "%char then "_"%char else b.

(** The set planned for a county-year ([set()] when the key is absent). *)
Definition needed_at (gaps : gmap (string * Z) (gset string))
    (key : string * Z) : gset string :=
  default ∅ (gaps !! key).

(** Every county known after the promotion has the key of the county
    known before. *)
Definition same_counties (before after : gmap string string) : Prop :=
  forall ctds county',
    after !! ctds = Some county' -> Py.truthy county' = true ->
    exists county,
      before !! ctds = Some county /\ Py.truthy county = true /\
      county_key county = county_key county'.

(** Whether a printed line names the identifier or the race. *)
Definition event_mentions (ctds office district : string) (e : log_event) : bool :=
  match e with
  | LogMatched districts =>
      existsb (fun d => String.eqb d.1.1 ctds) districts
  | LogUnmatched races =>
      existsb (fun r => (String.eqb r.1 office && String.eqb r.2 district)%bool)
              races
  | _ => false
  end.

(** One row whose vote count spells minus infinity. *)
Definition infinite_votes_file : csv_table :=
  {| fieldnames := office_header;
     rows := [office_row "P1" "GOVERNING BOARD MEMBER" "CAMP VERDE USD #28"
                "Jane Doe" "-inf" ""] |}.


(** What the extractor guarantees about a record besides [kept]: it
    carries the county name of the call and its office and district
    texts pass the classifier. *)
Definition classified (county_name : string) (r : precinct_record) : Prop :=
  county r = county_name /\
  is_school_board_race (office r) (district r) = true.

(** A row that has none of the columns from which the layouts read the
    contest. *)
Definition lacks_contest_columns (row : gmap string string) : Prop :=
  row !! "contest_name" = None /\ row !! "contesttitle" = None /\
  row !! "race" = None /\ row !! "office" = None /\ row !! "district" = None.

(** A record one of whose vote-method fields makes [int(float(...))]
    raise [OverflowError] in the aggregator. *)
Definition overflows (r : precinct_record) : Prop :=
  subtotal_add (early_voting r) = Raise OverflowError \/
  subtotal_add (election_day r) = Raise OverflowError \/
  subtotal_add (provisional r) = Raise OverflowError.

(** What makes a three-way comparison a strict total order. *)
Definition strict_order {A : Type} (cmp : A -> A -> comparison) : Prop :=
  (forall a b, cmp a b = Eq <-> a = b) /\
  (forall a b, cmp b a = CompOpp (cmp a b)) /\
  (forall a b c, cmp a b = Lt -> cmp b c = Lt -> cmp a c = Lt).

(** Tuples compare component by component. *)
Definition pair_compare {A B : Type} (cA : A -> A -> comparison)
    (cB : B -> B -> comparison) (x y : A * B) : comparison :=
  lex (cA x.1 y.1) (cB x.2 y.2).

(** An aggregate that comes strictly before another in key order. *)
Definition key_lt (a b : candidate_aggregate) : Prop :=
  key_compare (key_of_agg a) (key_of_agg b) = Lt.

(** The records of the Yavapai file of the scenario. *)
Definition yavapai_records : list precinct_record :=
  match extract_records yavapai_2018 "Yavapai" 2018 "yavapai" with
  | Ok (recs, _) => recs
  | Raise _ => []
  end.

(** The (identifier, year) of an entry of the match log, and the pair
    under which the run marks it as filled. *)
Definition md_pair (md : match_detail) : string * Z := (md_ctds md, md_year md).

Definition md_filled (md : match_detail) : string * string :=
  (md_ctds md, Py.str_of_int (md_year md)).

(** Two listed county-years of the same year need different identifiers. *)
Definition gaps_apart (g1 g2 : (string * Z) * gset string) : Prop :=
  g1.1.2 = g2.1.2 -> g1.2 ## g2.2.

(** A text in which every blank is a single space that no blank
    follows. *)
Definition head_nonspace (s : string) : bool :=
  match s with
  | String b _ => negb (Py.is_space b)
  | EmptyString => true
  end.

Fixpoint single_spaced (s : string) : bool :=
  match s with
  | EmptyString => true
  | String a s' =>
      ((if Py.is_space a then (Ascii.eqb a " " && head_nonspace s')%bool
        else true) && single_spaced s')%bool
  end.

(** A file of the 2014 Pinal kind: the header spells the contest
    columns with capitals. *)
Definition mixed_case_file : csv_table :=
  {| fieldnames := ["Contest_Name"; "Choice_Name"; "Vote_Total"];
     rows :=
       [list_to_map
          [("Contest_Name", "Florence USD Governing Board");
           ("Choice_Name", "Jane Doe"); ("Vote_Total", "12")]] |}.

(** The rows of the directory that speak for an identifier: regular
    districts ([LEA_TYPE] 1) of Arizona ([FIPST] 04) whose state
    identifier, without its [AZ-], is the identifier. *)
Definition ccd_rows_for (ctds : string) (directory : list ccd_row)
  : list ccd_row :=
  filter (fun r => FIPST r = "04" /\ LEA_TYPE r = "1" /\
                   Py.replace "AZ-" "" (ST_LEAID r) = ctds) directory.


(* ===================================================================== *)
(** * Properties *)
(* ===================================================================== *)

#[global] Arguments lookup_fragment : simpl never.
#[global] Arguments ctds_values : simpl never.
#[global] Arguments normalize_race_name : simpl never.
#[global] Arguments combined_text : simpl never.
#[global] Arguments match_to_ctds : simpl never.
#[global] Arguments is_school_board_race : simpl never.
#[global] Arguments is_metadata_row : simpl never.
#[global] Arguments Py.strip : simpl never.
#[global] Arguments Py.upper : simpl never.
#[global] Arguments Py.str_of_int : simpl never.

(** ** Sequencing *)

Lemma bind_Ok {A B : Type} (c : result A) (f : A -> result B) (b : B) :
  c ≫= f = Ok b -> exists a, c = Ok a /\ f a = Ok b.
Proof. destruct c as [a|e]; simpl; [eauto | discriminate]. Qed.

Ltac inv_bind H :=
  let a := fresh "a" in
  let Ha := fresh "Ha" in
  apply bind_Ok in H; destruct H as (a & Ha & H).

(** ** Resolver and classifier *)

Lemma first_fragment_value table text ctds :
  first_fragment table text = Some ctds -> ctds ∈ map snd table.
Proof.
  induction table as [|[key v] rest IH]; simpl; [discriminate|].
  destruct (Py.contains text key).
  - intros [= ->]. left.
  - intros H. right. auto.
Qed.

Lemma lookup_fragment_value text ctds :
  lookup_fragment text = Some ctds -> ctds ∈ ctds_values.
Proof. apply first_fragment_value. Qed.

Lemma try_texts_value texts ctds :
  try_texts texts = Some ctds -> ctds ∈ ctds_values.
Proof.
  induction texts as [|t rest IH]; cbn [try_texts]; [discriminate|].
  destruct (lookup_fragment (Py.strip (Py.upper t))) eqn:E1.
  { intros [= ->]. eapply lookup_fragment_value, E1. }
  destruct (lookup_fragment (normalize_race_name t)) eqn:E2.
  { intros [= ->]. eapply lookup_fragment_value, E2. }
  exact IH.
Qed.

(** Every identifier the resolver returns is a value of the table. *)
Lemma match_to_ctds_value office district county ctds :
  match_to_ctds office district county = Some ctds ->
  ctds ∈ ctds_values.
Proof.
  unfold match_to_ctds.
  destruct (try_texts _) eqn:E.
  { intros [= ->]. eapply try_texts_value, E. }
  destruct (lookup_fragment (combined_text office district)) eqn:E1.
  { intros [= ->]. eapply lookup_fragment_value, E1. }
  apply lookup_fragment_value.
Qed.

Lemma try_texts_first_some texts :
  try_texts texts =
  first_some lookup_fragment
    (flat_map (fun t => [Py.strip (Py.upper t); normalize_race_name t]) texts).
Proof.
  induction texts as [|t rest IH]; cbn [try_texts flat_map app first_some];
    [reflexivity|].
  destruct (lookup_fragment (Py.strip (Py.upper t))); [reflexivity|].
  destruct (lookup_fragment (normalize_race_name t)); [reflexivity|].
  exact IH.
Qed.

Lemma first_some_app {A B : Type} (f : A -> option B) (l1 l2 : list A) :
  first_some f (l1 ++ l2) =
  match first_some f l1 with
  | Some y => Some y
  | None => first_some f l2
  end.
Proof.
  induction l1 as [|x l1 IH]; simpl; [reflexivity|].
  destruct (f x); [reflexivity | exact IH].
Qed.

(** C5. Classifier fixtures: a governing-board office is accepted, a bond
    question and a fire-district board are rejected, and the bare district
    name "CAMP VERDE USD #28" is accepted although it carries neither a
    board keyword nor a seat-count marker, because the resolver maps it to
    the canonical district 4470. *)
Theorem classifier_fixtures :
  is_school_board_race "GOVERNING BOARD MEMBER" "CAMP VERDE USD #28" = true /\
  is_school_board_race "BOND QUESTION" "CAMP VERDE USD #28" = false /\
  is_school_board_race "FIRE DISTRICT BOARD" "" = false /\
  is_school_board_race "CAMP VERDE USD #28" "" = true /\
  any_in board_keywords (Py.upper ("CAMP VERDE USD #28" +:+ " " +:+ "")) = false /\
  any_in seat_keywords (Py.upper ("CAMP VERDE USD #28" +:+ " " +:+ "")) = false /\
  match_to_ctds "CAMP VERDE USD #28" "" "" = Some "4470".
Proof. vm_compute. repeat split. Qed.

(** C10. The resolver's answer does not depend on its county argument. *)
Theorem match_to_ctds_county_independent (office district c1 c2 : string) :
  match_to_ctds office district c1 = match_to_ctds office district c2.
Proof. unfold match_to_ctds. reflexivity. Qed.

(** C7, as stated, fails: with office "MESA USD" and district
    "CONCHO ELEM" the resolver answers 4160, found in the normalized
    district text, before it ever looks at the office text, where the
    order of the specification finds 4235 first. *)
Lemma trial_order_counterexample :
  match_to_ctds "MESA USD" "CONCHO ELEM" "Apache" = Some "4160" /\
  match_to_ctds_spec_order "MESA USD" "CONCHO ELEM" = Some "4235" /\
  lookup_fragment (Py.strip (Py.upper "CONCHO ELEM")) = None /\
  lookup_fragment (normalize_race_name "CONCHO ELEM") = Some "4160" /\
  lookup_fragment (Py.strip (Py.upper "MESA USD")) = Some "4235".
Proof. vm_compute. repeat split. Qed.

(** C7, amended. The resolver tries each candidate text upper-cased and
    then normalized before it moves to the next text: district, office,
    office - district, and last the blank-joined office and district; it
    answers with the first fragment of the table contained in the first
    text that contains one. *)
Theorem match_to_ctds_trial_order (office district county : string) :
  match_to_ctds office district county =
  first_some lookup_fragment (trial_texts office district).
Proof.
  unfold match_to_ctds, trial_texts, texts_to_try.
  rewrite try_texts_first_some.
  destruct (nonblank district); cbn [flat_map app first_some];
    repeat (match goal with
            | |- context [lookup_fragment ?t] =>
                destruct (lookup_fragment t); [reflexivity|]
            end); reflexivity.
Qed.

(** ** Extractor *)

#[global] Arguments Num.int_float_str : simpl never.
#[global] Arguments Num.int_of_string : simpl never.

Lemma extract_loop_inv (P : precinct_record -> Prop) step rs :
  (forall row r, step row = Ok (Some r) -> P r) ->
  forall acc recs,
    Forall P acc -> extract_loop step rs acc = Ok recs -> Forall P recs.
Proof.
  intros Hstep. induction rs as [|row rest IH]; simpl; intros acc recs Hacc H.
  - injection H as <-. exact Hacc.
  - inv_bind H. destruct a as [r|].
    + eapply IH; [|exact H]. apply Forall_app. split; [exact Hacc|].
      constructor; [eauto | constructor].
    + eapply IH; [exact Hacc | exact H].
Qed.

Ltac row_kept H :=
  repeat match type of H with
         | (if ?b then _ else _) = _ =>
             let E := fresh "E" in destruct b eqn:E; try discriminate H
         end;
  inv_bind H;
  match type of H with
  | (if ?b then _ else _) = _ =>
      let E := fresh "E" in destruct b eqn:E; try discriminate H
  end;
  injection H as <-; split; simpl; [assumption | lia].

Lemma row_contest_name_kept county_name row r :
  row_contest_name county_name row = Ok (Some r) -> kept r.
Proof. unfold row_contest_name. intros H. row_kept H. Qed.

Lemma row_contesttitle_kept county_name row r :
  row_contesttitle county_name row = Ok (Some r) -> kept r.
Proof. unfold row_contesttitle. intros H. row_kept H. Qed.

Lemma row_race_kept county_name row r :
  row_race county_name row = Ok (Some r) -> kept r.
Proof. unfold row_race. intros H. row_kept H. Qed.

Lemma row_pinal_kept cn ch vt county_name row r :
  row_pinal cn ch vt county_name row = Ok (Some r) -> kept r.
Proof. unfold row_pinal. intros H. row_kept H. Qed.

Lemma row_office_kept county_name row r :
  row_office county_name row = Ok (Some r) -> kept r.
Proof. unfold row_office. intros H. row_kept H. Qed.

(** Every record the extractor returns was kept by both filters. *)
Lemma extract_records_kept tbl county_name year county_lower recs log :
  extract_records tbl county_name year county_lower = Ok (recs, log) ->
  Forall kept recs.
Proof.
  unfold extract_records. intros H.
  destruct (fieldnames tbl) as [|f fs] eqn:Ef.
  { injection H as <- <-. constructor. }
  repeat match type of H with
         | (if ?b then _ else _) = _ => destruct b
         end;
    try (injection H as <- <-; constructor);
    repeat match type of H with
           | _ ≫= _ = Ok _ => inv_bind H
           end;
    injection H as <- <-;
    match goal with
    | Hl : extract_loop _ _ [] = Ok _ |- _ =>
        eapply extract_loop_inv; [| constructor | exact Hl]
    end;
    eauto using row_contest_name_kept, row_contesttitle_kept, row_race_kept,
      row_pinal_kept, row_office_kept.
Qed.

(** Every record the extractor returns has a positive vote count. *)
Lemma extract_records_positive tbl county_name year county_lower recs log r :
  extract_records tbl county_name year county_lower = Ok (recs, log) ->
  r ∈ recs -> 0 < total_votes r.
Proof.
  intros H Hr. apply extract_records_kept in H.
  rewrite Forall_forall in H. apply H in Hr. apply Hr.
Qed.

(** C8. The extractor does not survive every malformed vote count: on a
    school-board row whose vote count is the text "-inf", [float] answers
    minus infinity, [int] raises [OverflowError], which the handler for
    [(ValueError, TypeError)] does not catch, and the exception leaves
    [extract_records]. *)
Theorem extract_records_infinite_votes :
  Num.float_of_string "-inf" = Some (Num.FInf true) /\
  parse_votes "-inf" = Raise OverflowError /\
  extract_records infinite_votes_file "Yavapai" 2018 "yavapai"
    = Raise OverflowError.
Proof. vm_compute. repeat split. Qed.

(** ** Aggregator *)

Section Dict.
Context {K V : Type} `{EqDecision K}.
Implicit Types (d : list (K * V)) (k : K) (f : V -> V).

Lemma dict_get_update k k' dflt f d :
  dict_get k dflt (dict_update k' dflt f d) =
  if decide (k = k') then f (dict_get k dflt d) else dict_get k dflt d.
Proof.
  induction d as [|[k0 v0] d IH]; cbn [dict_update dict_get].
  - repeat case_decide; congruence.
  - destruct (decide (k' = k0)) as [->|Hne]; cbn [dict_get];
      repeat case_decide; congruence.
Qed.

Lemma dict_update_keys k dflt f d :
  map fst (dict_update k dflt f d) =
  if decide (k ∈ map fst d) then map fst d else map fst d ++ [k].
Proof.
  induction d as [|[k0 v0] d IH]; cbn [dict_update map fst app].
  - case_decide as H; [inversion H | reflexivity].
  - destruct (decide (k = k0)) as [->|Hne]; cbn [map fst].
    + rewrite decide_True by left. reflexivity.
    + rewrite IH. destruct (decide (k ∈ map fst d)) as [Hin|Hin].
      * rewrite decide_True by (right; exact Hin). reflexivity.
      * rewrite decide_False; [reflexivity|].
        intros Hin'. apply elem_of_cons in Hin' as [?|?]; congruence.
Qed.

Lemma dict_update_NoDup k dflt f d :
  NoDup (map fst d) -> NoDup (map fst (dict_update k dflt f d)).
Proof.
  intros Hd. rewrite dict_update_keys. case_decide as Hin; [exact Hd|].
  apply NoDup_app. repeat split; [exact Hd | | apply NoDup_singleton].
  intros x Hx Hx'. apply list_elem_of_singleton in Hx'. congruence.
Qed.

Lemma dict_get_elem k v dflt d :
  NoDup (map fst d) -> (k, v) ∈ d -> dict_get k dflt d = v.
Proof.
  induction d as [|[k0 v0] d IH]; cbn [dict_get map fst]; intros Hnd Hin.
  - inversion Hin.
  - apply NoDup_cons in Hnd as [Hk0 Hnd].
    apply elem_of_cons in Hin as [Heq|Hin].
    + injection Heq as -> ->. rewrite decide_True; reflexivity.
    + rewrite decide_False; [auto|].
      intros ->. apply Hk0. apply list_elem_of_fmap. exists (k0, v). auto.
Qed.
End Dict.

Lemma sum_Z_app l1 l2 : sum_Z (l1 ++ l2) = sum_Z l1 + sum_Z l2.
Proof. induction l1 as [|x l1 IH]; cbn [sum_Z app] in *; lia. Qed.

Lemma sum_Z_Permutation l1 l2 : l1 ≡ₚ l2 -> sum_Z l1 = sum_Z l2.
Proof.
  induction 1; cbn [sum_Z] in *; lia.
Qed.

Lemma subtotal_add_contribution v z : subtotal_add v = Ok z -> contribution v = z.
Proof. unfold contribution. intros ->. reflexivity. Qed.

Lemma dict_update_sum_total k r e d p (agg : list (agg_key * totals)) :
  sum_Z (map (fun it => sum_total it.2)
           (dict_update k zero_totals (add_record r e d p) agg)) =
  sum_Z (map (fun it => sum_total it.2) agg) + total_votes r.
Proof.
  induction agg as [|[k0 v0] agg IH]; cbn [dict_update].
  - cbn. lia.
  - case_decide; cbn [map sum_Z snd] in *; [cbn; lia | rewrite IH; lia].
Qed.

Lemma totals_eq (t1 t2 : totals) :
  sum_total t1 = sum_total t2 -> sum_early t1 = sum_early t2 ->
  sum_eday t1 = sum_eday t2 -> sum_prov t1 = sum_prov t2 -> t1 = t2.
Proof. destruct t1, t2; cbn; congruence. Qed.

Lemma agg_step_Ok agg r agg' :
  agg_step agg r = Ok agg' ->
  agg' = dict_update (key_of r) zero_totals
           (add_record r (contribution (early_voting r))
              (contribution (election_day r)) (contribution (provisional r)))
           agg.
Proof.
  unfold agg_step. intros H.
  inv_bind H. inv_bind H. inv_bind H. injection H as <-.
  repeat match goal with
         | Hc : subtotal_add _ = Ok _ |- _ =>
             apply subtotal_add_contribution in Hc; rewrite Hc
         end.
  reflexivity.
Qed.

Lemma agg_loop_spec rs : forall agg agg',
  agg_loop agg rs = Ok agg' ->
  (NoDup (map fst agg) -> NoDup (map fst agg')) /\
  (forall k, dict_get k zero_totals agg' =
             totals_after (dict_get k zero_totals agg) (group k rs)) /\
  sum_Z (map (fun it => sum_total it.2) agg') =
    sum_Z (map (fun it => sum_total it.2) agg) + sum_Z (map total_votes rs) /\
  (forall k, k ∈ map fst agg' <->
             k ∈ map fst agg \/ exists r, r ∈ rs /\ key_of r = k).
Proof.
  induction rs as [|r rs IH]; cbn [agg_loop]; intros agg agg' H.
  - injection H as <-. repeat split; auto.
    + intros k. unfold group. cbn. apply totals_eq; cbn; lia.
    + cbn. lia.
    + intros [?|(r & Hr & _)]; [assumption | inversion Hr].
  - inv_bind H. apply agg_step_Ok in Ha. subst a.
    apply IH in H as (Hnd & Hget & Hsum & Hkeys).
    repeat split.
    + intros H0. apply Hnd, dict_update_NoDup, H0.
    + intros k. rewrite Hget, dict_get_update. unfold group.
      cbn [filter list_filter]. fold (group k rs).
      destruct (decide (k = key_of r)) as [->|Hne].
      * rewrite ?decide_True by reflexivity. unfold group.
        apply totals_eq;
          cbn [totals_after add_record sum_total sum_early sum_eday sum_prov
               map sum_Z]; rewrite <- Z.add_assoc; reflexivity.
      * rewrite decide_False by congruence. reflexivity.
    + rewrite Hsum, dict_update_sum_total. cbn [map sum_Z]. lia.
    + rewrite Hkeys, dict_update_keys. intros [Hin|(r' & Hr' & Hk)].
      * case_decide; [left; exact Hin|].
        apply elem_of_app in Hin as [Hin|Hin]; [left; exact Hin|].
        apply list_elem_of_singleton in Hin. right. exists r. split; [left | auto].
      * right. exists r'. split; [right; exact Hr' | exact Hk].
    + rewrite Hkeys, dict_update_keys. intros [Hin|(r' & Hr' & Hk)].
      * left. case_decide; [exact Hin | apply elem_of_app; left; exact Hin].
      * apply elem_of_cons in Hr' as [->|Hr'].
        -- left. case_decide as Hin; [rewrite <- Hk; exact Hin|].
           apply elem_of_app. right. rewrite Hk. left.
        -- right. exists r'. auto.
Qed.

Lemma key_of_result_row item : key_of_agg (result_row item) = item.1.
Proof. destruct item as [[[[[c o] d] n] p] vals]. reflexivity. Qed.

Lemma total_of_result_row item : agg_total_votes (result_row item) = sum_total item.2.
Proof. destruct item as [[[[[c o] d] n] p] vals]. reflexivity. Qed.

(** What [aggregate_to_candidates] returns, in terms of the records: one
    aggregate per key that occurs, carrying the sums over its group. *)
Lemma aggregate_spec recs aggs :
  aggregate_to_candidates recs = Ok aggs ->
  exists agg,
    aggs = map result_row (merge_sort item_le agg) /\
    NoDup (map fst agg) /\
    (forall k vals, (k, vals) ∈ agg -> vals = totals_after zero_totals (group k recs)) /\
    sum_Z (map (fun it => sum_total it.2) agg) = sum_Z (map total_votes recs) /\
    (forall k, k ∈ map fst agg <-> exists r, r ∈ recs /\ key_of r = k).
Proof.
  unfold aggregate_to_candidates. intros H. inv_bind H. injection H as <-.
  apply agg_loop_spec in Ha as (Hnd & Hget & Hsum & Hkeys).
  exists a. repeat split.
  - apply Hnd. constructor.
  - intros k vals Hin. specialize (Hget k). cbn [dict_get] in Hget.
    rewrite <- Hget. symmetry.
    apply dict_get_elem; [apply Hnd; constructor | exact Hin].
  - rewrite Hsum. cbn. lia.
  - intros Hk. apply Hkeys in Hk as [Hk|Hk]; [inversion Hk | exact Hk].
  - intros Hk. apply Hkeys. right. exact Hk.
Qed.

Lemma elem_of_aggregates agg a :
  a ∈ map result_row (merge_sort item_le agg) ->
  exists k vals, (k, vals) ∈ agg /\ a = result_row (k, vals).
Proof.
  intros Ha. apply list_elem_of_fmap in Ha as ([k vals] & -> & Hin).
  rewrite merge_sort_Permutation in Hin. eauto.
Qed.

(** C2. Aggregation correctness: when the aggregator returns, the
    aggregates' vote totals add up to the records' vote totals, each
    aggregate carries exactly the sum of the votes of the records that
    share its key (county, office, district, candidate, party), no two
    aggregates share a key and every record's key has its aggregate. *)
Theorem aggregation_correct (recs : list precinct_record)
    (aggs : list candidate_aggregate) :
  aggregate_to_candidates recs = Ok aggs ->
  sum_Z (map agg_total_votes aggs) = sum_Z (map total_votes recs) /\
  (forall a, a ∈ aggs ->
     agg_total_votes a = sum_Z (map total_votes (group (key_of_agg a) recs))) /\
  NoDup (map key_of_agg aggs) /\
  (forall r, r ∈ recs -> exists a, a ∈ aggs /\ key_of_agg a = key_of r).
Proof.
  intros H. apply aggregate_spec in H as (agg & -> & Hnd & Hvals & Hsum & Hkeys).
  repeat split.
  - rewrite <- Hsum. rewrite map_map.
    erewrite map_ext; [|intros it; apply total_of_result_row].
    apply sum_Z_Permutation, Permutation_map, merge_sort_Permutation.
  - intros a Ha. apply elem_of_aggregates in Ha as (k & vals & Hin & ->).
    rewrite key_of_result_row, total_of_result_row. cbn [fst snd].
    rewrite (Hvals _ _ Hin). cbn. lia.
  - rewrite map_map. erewrite map_ext; [|intros it; apply key_of_result_row].
    rewrite merge_sort_Permutation. exact Hnd.
  - intros r Hr.
    assert (Hk : key_of r ∈ map fst agg) by (apply Hkeys; eauto).
    apply list_elem_of_fmap in Hk as ([k vals] & Hk & Hin). cbn in Hk. subst k.
    exists (result_row (key_of r, vals)). split.
    + apply list_elem_of_fmap. exists (key_of r, vals). split; [reflexivity|].
      rewrite merge_sort_Permutation. exact Hin.
    + apply key_of_result_row.
Qed.

(** The example of the specification: 120, 85 and 40 votes in three
    precincts give one aggregate of 245. *)
Lemma aggregation_correct_witness :
  exists a,
    aggregate_to_candidates three_precincts = Ok [a] /\
    agg_total_votes a = 245 /\
    sum_Z (map agg_total_votes [a]) = sum_Z (map total_votes three_precincts).
Proof.
  eexists. split; [vm_compute; reflexivity|]. split; [reflexivity|].
  apply (aggregation_correct three_precincts). vm_compute. reflexivity.
Defined.

(** C4, as stated, fails: two members report the early-voting sub-total
    as zero, and the aggregate reports it as absent. *)
Lemma subtotal_absence_counterexample :
  exists a,
    aggregate_to_candidates three_precincts = Ok [a] /\
    agg_early_voting a = VStr "" /\
    exists r, r ∈ group (key_of_agg a) three_precincts /\
              early_voting r = VStr "0".
Proof.
  eexists. split; [vm_compute; reflexivity|]. split; [reflexivity|].
  exists (jane 120 (VStr "0")). split; [|reflexivity].
  apply list_elem_of_filter. split; [reflexivity | left].
Qed.

Lemma blank_unless_positive_reports s : reports (blank_unless_positive s) s.
Proof.
  unfold reports, blank_unless_positive.
  destruct (0 <? s) eqn:E; [apply Z.ltb_lt in E | apply Z.ltb_ge in E];
    split; intros; (reflexivity || lia).
Qed.

Lemma contribution_blank : contribution (VStr "") = 0.
Proof. reflexivity. Qed.

Lemma sum_Z_zero {A : Type} (f : A -> Z) (l : list A) :
  (forall x, x ∈ l -> f x = 0) -> sum_Z (map f l) = 0.
Proof.
  induction l as [|x l IH]; cbn [map sum_Z]; intros H; [reflexivity|].
  rewrite H by left. rewrite IH; [reflexivity|].
  intros y Hy. apply H. right. exact Hy.
Qed.

(** C4, amended. For every aggregate and every vote-method sub-total, the
    aggregate reports the sum of what its members add (the parsed value of
    a non-blank, non-zero field; nothing for a blank, zero or unparsable
    one) when that sum is positive, and reports the sub-total as absent
    otherwise; in particular it is absent when no member reported it. *)
Theorem subtotal_absence (recs : list precinct_record)
    (aggs : list candidate_aggregate) (a : candidate_aggregate) :
  aggregate_to_candidates recs = Ok aggs ->
  a ∈ aggs ->
  let members := group (key_of_agg a) recs in
  let sum_of (field : precinct_record -> pyval) :=
    sum_Z (map (fun r => contribution (field r)) members) in
  reports (agg_early_voting a) (sum_of early_voting) /\
  reports (agg_election_day a) (sum_of election_day) /\
  reports (agg_provisional a) (sum_of provisional) /\
  ((forall r, r ∈ members -> early_voting r = VStr "") ->
   agg_early_voting a = VStr "") /\
  ((forall r, r ∈ members -> election_day r = VStr "") ->
   agg_election_day a = VStr "") /\
  ((forall r, r ∈ members -> provisional r = VStr "") ->
   agg_provisional a = VStr "").
Proof.
  intros H Ha members sum_of.
  apply aggregate_spec in H as (agg & -> & Hnd & Hvals & _ & _).
  apply elem_of_aggregates in Ha as (k & vals & Hin & ->).
  assert (Hk : members = group k recs).
  { unfold members. rewrite key_of_result_row. reflexivity. }
  pose proof (Hvals _ _ Hin) as Hv.
  assert (He : sum_early vals = sum_of early_voting)
    by (unfold sum_of; rewrite Hk, Hv; cbn; lia).
  assert (Hd : sum_eday vals = sum_of election_day)
    by (unfold sum_of; rewrite Hk, Hv; cbn; lia).
  assert (Hp : sum_prov vals = sum_of provisional)
    by (unfold sum_of; rewrite Hk, Hv; cbn; lia).
  destruct k as [[[[c o] d] n] p]. cbn [result_row agg_early_voting
    agg_election_day agg_provisional].
  rewrite He, Hd, Hp.
  repeat split; try apply blank_unless_positive_reports.
  all: intros Hblank;
    apply (blank_unless_positive_reports _); unfold sum_of;
    rewrite sum_Z_zero; [lia|];
    intros r Hr; rewrite (Hblank r Hr); reflexivity.
Qed.

(** With one member reporting 12 early votes and the others blank or
    zero, the aggregate reports 12. *)
Lemma subtotal_absence_witness :
  exists a,
    aggregate_to_candidates [jane 120 (VStr "12"); jane 85 (VStr "0")] = Ok [a] /\
    reports (agg_early_voting a) 12.
Proof.
  eexists. split; [vm_compute; reflexivity|].
  apply (subtotal_absence [jane 120 (VStr "12"); jane 85 (VStr "0")] _ _
           ltac:(vm_compute; reflexivity) ltac:(left)).
Defined.

(** Every aggregate stems from a record with the same key. *)
Lemma aggregate_has_member recs aggs a :
  aggregate_to_candidates recs = Ok aggs -> a ∈ aggs ->
  exists r, r ∈ recs /\ key_of r = key_of_agg a.
Proof.
  intros H Ha. apply aggregate_spec in H as (agg & -> & _ & _ & _ & Hkeys).
  apply elem_of_aggregates in Ha as (k & vals & Hin & ->).
  rewrite key_of_result_row. apply Hkeys.
  apply list_elem_of_fmap. exists (k, vals). auto.
Qed.

(** ** Metadata labels *)


Lemma metadata_label_named label :
  (let u := Py.strip (Py.upper label) in
   u = "REGISTERED VOTERS" \/ u = "WRITE-IN" \/
   Py.startswith u "WRITE-IN" = true \/ Py.startswith u "WRITE IN" = true) ->
  is_metadata_row label = true.
Proof.
  unfold is_metadata_row. cbv zeta.
  intros [H|[H|[H|H]]]; try (rewrite H; vm_compute; reflexivity).
  - destruct (existsb _ _); [reflexivity|].
    destruct (_ || _ || _)%bool; [reflexivity|].
    rewrite H. reflexivity.
  - destruct (existsb _ _); [reflexivity|].
    destruct (_ || _ || _)%bool; [reflexivity|].
    rewrite H, orb_true_r. reflexivity.
Qed.

(** C9. Metadata-row exclusion: a label that [is_metadata_row] recognizes
    - among them every spelling of "REGISTERED VOTERS" and "WRITE-IN" up
    to letter case and surrounding blanks, and every label that starts
    with "WRITE-IN" or "WRITE IN" - is the candidate of no record the
    extractor returns, and of no aggregate built from those records. *)
Theorem metadata_rows_excluded (tbl : csv_table) (county_name : string)
    (year : Z) (county_lower : string) (recs : list precinct_record)
    (log : list log_event) (aggs : list candidate_aggregate) (label : string) :
  extract_records tbl county_name year county_lower = Ok (recs, log) ->
  aggregate_to_candidates recs = Ok aggs ->
  (let u := Py.strip (Py.upper label) in
   u = "REGISTERED VOTERS" \/ u = "WRITE-IN" \/
   Py.startswith u "WRITE-IN" = true \/ Py.startswith u "WRITE IN" = true \/
   is_metadata_row label = true) ->
  (forall r, r ∈ recs -> candidate r <> label) /\
  (forall a, a ∈ aggs -> agg_candidate a <> label).
Proof.
  intros Hext Hagg Hlabel.
  assert (Hmeta : is_metadata_row label = true).
  { cbv zeta in Hlabel.
    destruct Hlabel as [H|[H|[H|[H|H]]]]; [..|exact H];
      apply metadata_label_named; cbv zeta; auto. }
  apply extract_records_kept in Hext. rewrite Forall_forall in Hext.
  assert (Hrecs : forall r, r ∈ recs -> candidate r <> label).
  { intros r Hr Heq. destruct (Hext r Hr) as [Hk _]. congruence. }
  split; [exact Hrecs|].
  intros a Ha Heq.
  destruct (aggregate_has_member _ _ _ Hagg Ha) as (r & Hr & Hk).
  apply (Hrecs r Hr). rewrite <- Heq.
  unfold key_of, key_of_agg in Hk. congruence.
Qed.

(** The Yavapai file of the scenario: its write-in row reaches no
    aggregate. *)
Lemma metadata_rows_excluded_witness :
  exists recs aggs,
    extract_records yavapai_2018 "Yavapai" 2018 "yavapai" = Ok (recs, []) /\
    aggregate_to_candidates recs = Ok aggs /\
    length aggs = 4%nat /\
    forall a, a ∈ aggs -> agg_candidate a <> "Write-in".
Proof.
  eexists _, _. split; [vm_compute; reflexivity|].
  split; [vm_compute; reflexivity|]. split; [reflexivity|].
  eapply (metadata_rows_excluded yavapai_2018 "Yavapai" 2018 "yavapai" _ [] _
            "Write-in").
  - vm_compute. reflexivity.
  - vm_compute. reflexivity.
  - cbv zeta. right. left. vm_compute. reflexivity.
Defined.

(** ** Merge engine: one county-year *)

Lemma say_say st a b : say (say st a) b = say st (a ++ b).
Proof. unfold say. cbn. rewrite app_assoc. reflexivity. Qed.


Section RunFacts.
Variable source : string -> option csv_table.
Variable existing_pairs : gset (string * string).
Variable ccd_districts : gmap string (string * string).
Variable ctds_names : gmap string (gset string).

(** [process_gap] is the heading, what [gap_candidates] obtains, the
    matching and the materialization. *)
Lemma process_gap_eq st county_lower year needed :
  process_gap source existing_pairs ccd_districts ctds_names st
    ((county_lower, year), needed) =
  r ← gap_candidates source county_lower year;
  let disp := county_display_of county_lower in
  let st1 := say st (LogGap disp year (size needed) :: r.1) in
  match r.2 with
  | None => Ok st1
  | Some cands =>
      let m := match_candidates existing_pairs needed year disp cands in
      materialize_all existing_pairs ccd_districts ctds_names year disp
        (say st1 (matched_report ccd_districts m.1 ++ unmatched_report m.2))
        m.1
  end.
Proof.
  unfold process_gap, gap_candidates.
  destruct (get_county_url year county_lower) as [url|e]; cbn [mbind result_bind];
    [|reflexivity].
  destruct (source url) as [tbl|]; cbn [mbind result_bind fst snd].
  2: { rewrite say_say. reflexivity. }
  destruct (extract_records tbl _ year county_lower) as [[recs warnings]|e];
    cbn [mbind result_bind]; [|reflexivity].
  destruct recs as [|r0 recs]; cbn [fst snd].
  { rewrite !say_say. cbn [app]. rewrite <- ?app_assoc. reflexivity. }
  destruct (aggregate_to_candidates (r0 :: recs)) as [cands|e];
    cbn [mbind result_bind fst snd]; [|reflexivity].
  destruct (match_candidates existing_pairs needed year _ cands)
    as [matched unmatched] eqn:Em.
  cbn [fst snd]. rewrite !say_say. cbn [app]. rewrite <- ?app_assoc. reflexivity.
Qed.

(** *** Matching *)

Lemma holds_update_new matched ctds cand :
  holds (dict_update ctds [] (fun l => l ++ [cand]) matched) ctds cand.
Proof.
  induction matched as [|[k l] m IH]; cbn [dict_update].
  - exists [cand]. split; left.
  - case_decide as Hk.
    + subst k. exists (l ++ [cand]). split; [left|].
      apply elem_of_app. right. left.
    + destruct IH as (cl & Hin & Hc). exists cl. split; [right|]; assumption.
Qed.

Lemma holds_update_old matched k0 c0 k c :
  holds matched k c ->
  holds (dict_update k0 [] (fun l => l ++ [c0]) matched) k c.
Proof.
  intros (cl & Hin & Hc).
  induction matched as [|[k1 l1] m IH]; cbn [dict_update]; [inversion Hin|].
  apply elem_of_cons in Hin as [Heq|Hin].
  - injection Heq as <- <-. case_decide as Hk.
    + exists (cl ++ [c0]). split; [left|]. apply elem_of_app. left. exact Hc.
    + exists cl. split; [left | exact Hc].
  - case_decide as Hk.
    + exists cl. split; [right|]; assumption.
    + destruct (IH Hin) as (cl' & Hin' & Hc'). exists cl'.
      split; [right|]; assumption.
Qed.

Lemma holds_update_inv matched k0 c0 k c :
  holds (dict_update k0 [] (fun l => l ++ [c0]) matched) k c ->
  holds matched k c \/ (k = k0 /\ c = c0).
Proof.
  intros (cl & Hin & Hc).
  induction matched as [|[k1 l1] m IH]; cbn [dict_update] in Hin.
  - apply list_elem_of_singleton in Hin. injection Hin as -> ->.
    apply list_elem_of_singleton in Hc. auto.
  - case_decide as Hk.
    + apply elem_of_cons in Hin as [Heq|Hin].
      * injection Heq as -> ->. apply elem_of_app in Hc as [Hc|Hc].
        -- left. exists l1. split; [left | exact Hc].
        -- apply list_elem_of_singleton in Hc. auto.
      * left. exists cl. split; [right|]; assumption.
    + apply elem_of_cons in Hin as [Heq|Hin].
      * injection Heq as -> ->. left. exists l1. split; [left | exact Hc].
      * destruct (IH Hin) as [(cl' & Hin' & Hc')|?]; [|auto].
        left. exists cl'. split; [right|]; assumption.
Qed.

Lemma update_entries_nonempty (matched : list (string * list candidate_aggregate))
    k0 c0 :
  (forall k cl, (k, cl) ∈ matched -> cl <> []) ->
  forall k cl, (k, cl) ∈ dict_update k0 [] (fun l => l ++ [c0]) matched -> cl <> [].
Proof.
  intros Hne. induction matched as [|[k1 l1] m IH]; cbn [dict_update];
    intros k cl Hin.
  - apply list_elem_of_singleton in Hin. injection Hin as -> ->. discriminate.
  - case_decide as Hk; apply elem_of_cons in Hin as [Heq|Hin].
    + injection Heq as -> ->. destruct l1; discriminate.
    + apply (Hne k). right. exact Hin.
    + injection Heq as -> ->. apply (Hne k1). left.
    + apply (IH (fun k cl H => Hne k cl (list_elem_of_further _ _ _ H)) k cl Hin).
Qed.

(** What the matching loop leaves in [matched] and [unmatched]. *)
Lemma match_candidates_from needed year disp cands : forall m0 u0 matched unmatched,
  fold_left (match_step existing_pairs needed year disp) cands (m0, u0)
    = (matched, unmatched) ->
  (forall k c, holds matched k c <->
     holds m0 k c \/
     (c ∈ cands /\ match_to_ctds (agg_office c) (agg_district c) disp = Some k /\
      Py.truthy k = true /\ k ∈ needed)) /\
  (forall u, u ∈ unmatched <->
     u ∈ u0 \/
     (u ∈ cands /\ match_to_ctds (agg_office u) (agg_district u) disp = None)) /\
  ((forall k cl, (k, cl) ∈ m0 -> cl <> []) ->
   forall k cl, (k, cl) ∈ matched -> cl <> []).
Proof.
  induction cands as [|cand cands IH]; cbn [fold_left]; intros m0 u0 matched unmatched H.
  - injection H as <- <-. repeat split; auto.
    + intros [?|(Hc & _)]; [assumption | inversion Hc].
    + intros [?|(Hc & _)]; [assumption | inversion Hc].
  - unfold match_step at 2 in H.
    destruct (match_to_ctds (agg_office cand) (agg_district cand) disp)
      as [ctds|] eqn:Em.
    + destruct (Py.truthy ctds && bool_decide (ctds ∈ needed))%bool eqn:Eb.
      * apply andb_true_iff in Eb as [Et Hn]. apply bool_decide_eq_true in Hn.
        apply IH in H as (Hm & Hu & Hne). repeat split.
        -- intros Hh. apply Hm in Hh as [Hh|(Hc & Hk & Ht & Hin)].
           ++ apply holds_update_inv in Hh as [Hh|[-> ->]]; [auto|].
              right. repeat split; auto. left.
           ++ right. repeat split; auto. right. exact Hc.
        -- intros [Hh|(Hc & Hk & Ht & Hin)]; apply Hm.
           ++ left. apply holds_update_old, Hh.
           ++ apply elem_of_cons in Hc as [->|Hc].
              ** left. assert (k = ctds) as -> by congruence.
                 apply holds_update_new.
              ** right. auto.
        -- intros Hx. apply Hu in Hx as [?|(Hc & Hk)]; [auto|].
           right. split; [right|]; assumption.
        -- intros [Hx|(Hc & Hk)]; apply Hu; [auto|].
           apply elem_of_cons in Hc as [->|Hc]; [congruence | auto].
        -- intros H0. apply Hne. apply update_entries_nonempty, H0.
      * assert (Hsame :
          (if (Py.truthy ctds &&
               bool_decide ((ctds, Py.str_of_int year) ∈ existing_pairs))%bool
           then (m0, u0) else (m0, u0)) = (m0, u0))
          by (match goal with |- (if ?b then _ else _) = _ => destruct b end;
              reflexivity).
        rewrite Hsame in H. clear Hsame.
        apply IH in H as (Hm & Hu & Hne). repeat split; auto.
        -- intros Hh. apply Hm in Hh as [Hh|(Hc & Hk & Ht & Hin)]; [auto|].
           right. repeat split; auto. right. exact Hc.
        -- intros [Hh|(Hc & Hk & Ht & Hin)]; apply Hm; [auto|].
           apply elem_of_cons in Hc as [->|Hc]; [|auto].
           assert (k = ctds) as -> by congruence.
           rewrite Ht in Eb. cbn in Eb. apply bool_decide_eq_false in Eb.
           contradiction.
        -- intros Hx. apply Hu in Hx as [?|(Hc & Hk)]; [auto|].
           right. split; [right|]; assumption.
        -- intros [Hx|(Hc & Hk)]; apply Hu; [auto|].
           apply elem_of_cons in Hc as [->|Hc]; [congruence | auto].
    + apply IH in H as (Hm & Hu & Hne). repeat split; auto.
      * intros Hh. apply Hm in Hh as [Hh|(Hc & Hk & Ht & Hin)]; [auto|].
        right. repeat split; auto. right. exact Hc.
      * intros [Hh|(Hc & Hk & Ht & Hin)]; apply Hm; [auto|].
        apply elem_of_cons in Hc as [->|Hc]; [congruence | auto].
      * intros Hx. apply Hu in Hx as [Hx|(Hc & Hk)].
        -- apply elem_of_app in Hx as [Hx|Hx]; [auto|].
           apply list_elem_of_singleton in Hx. subst u.
           right. split; [left | exact Em].
        -- right. split; [right|]; assumption.
      * intros [Hx|(Hc & Hk)]; apply Hu.
        -- left. apply elem_of_app. auto.
        -- apply elem_of_cons in Hc as [->|Hc]; [|auto].
           left. apply elem_of_app. right. left.
Qed.

(** *** Materialization *)

Lemma make_row_for year disp sd ctds leaid lea cand row :
  make_row year disp sd ctds leaid lea cand = Ok row ->
  row_for year disp ctds row /\ is_Some (assoc year ELECTION_DATES).
Proof.
  unfold make_row, subscript. intros H. inv_bind H.
  destruct (assoc year ELECTION_DATES) as [date|]; [|discriminate Ha].
  injection H as <-. split; [repeat split | eauto].
Qed.

Lemma make_rows_for year disp sd ctds leaid lea cl rows :
  make_rows (make_row year disp sd ctds leaid lea) cl = Ok rows ->
  length rows = length cl /\
  Forall (fun row => row_for year disp ctds row /\
                     is_Some (assoc year ELECTION_DATES)) rows.
Proof.
  revert rows. induction cl as [|cand cl IH]; cbn [make_rows]; intros rows H.
  - injection H as <-. split; [reflexivity | constructor].
  - inv_bind H. inv_bind H. injection H as <-.
    apply make_row_for in Ha. apply IH in Ha0 as [Hlen Hall].
    split; [cbn; lia | constructor; assumption].
Qed.

(** The effect of one entry of [matched]: nothing when the pair exists
    already, otherwise one row per candidate, the pair marked as filled
    and one entry of the match log. *)
Lemma materialize_spec year disp st ctds cl st' :
  materialize existing_pairs ccd_districts ctds_names year disp st (ctds, cl)
    = Ok st' ->
  report st' = report st /\
  if decide ((ctds, Py.str_of_int year) ∈ existing_pairs) then st' = st
  else
    exists rows md,
      new_rows st' = new_rows st ++ rows /\
      length rows = length cl /\
      Forall (fun row => row_for year disp ctds row /\
                         is_Some (assoc year ELECTION_DATES)) rows /\
      filled_pairs st' = {[ (ctds, Py.str_of_int year) ]} ∪ filled_pairs st /\
      match_details st' = match_details st ++ [md] /\
      md_ctds md = ctds /\ md_year md = year.
Proof.
  unfold materialize. case_decide as Hex.
  - intros [= <-]. auto.
  - intros H. inv_bind H. injection H as <-. cbn.
    apply make_rows_for in Ha as [Hlen Hall].
    split; [reflexivity|]. eexists _, _. repeat split; eauto.
Qed.

Lemma materialize_all_spec year disp matched : forall st st',
  materialize_all existing_pairs ccd_districts ctds_names year disp st matched
    = Ok st' ->
  report st' = report st /\
  (exists rows,
     new_rows st' = new_rows st ++ rows /\
     (forall row, row ∈ rows ->
        exists ctds cl, (ctds, cl) ∈ matched /\
          ((ctds, Py.str_of_int year) ∉ existing_pairs) /\
          row_for year disp ctds row /\ is_Some (assoc year ELECTION_DATES)) /\
     (forall ctds cl, (ctds, cl) ∈ matched -> cl <> [] ->
        (ctds, Py.str_of_int year) ∉ existing_pairs ->
        exists row, row ∈ rows /\ row_for year disp ctds row)) /\
  (forall p, p ∈ filled_pairs st' <->
     p ∈ filled_pairs st \/
     exists ctds cl, (ctds, cl) ∈ matched /\ p = (ctds, Py.str_of_int year) /\
                     p ∉ existing_pairs) /\
  (exists mds,
     match_details st' = match_details st ++ mds /\
     forall md, md ∈ mds ->
       exists ctds cl, (ctds, cl) ∈ matched /\
         ((ctds, Py.str_of_int year) ∉ existing_pairs) /\
         md_ctds md = ctds /\ md_year md = year).
Proof.
  induction matched as [|[ctds cl] matched IH]; cbn [materialize_all];
    intros st st' H.
  - injection H as <-. split; [reflexivity|]. split; [|split].
    + exists []. rewrite app_nil_r. split; [reflexivity|].
      split; [intros row Hr; inversion Hr | intros c l Hin; inversion Hin].
    + intros p. split; [auto|]. intros [?|(c & l & Hin & _)]; [auto | inversion Hin].
    + exists []. rewrite app_nil_r. split; [reflexivity|].
      intros md Hmd; inversion Hmd.
  - inv_bind H. apply materialize_spec in Ha as [Hrep Ha].
    apply IH in H as (Hrep' & (rows' & Hrows' & Hfrom' & Hto') & Hfill' & (mds' & Hmds' & Hmd')).
    split; [congruence|].
    case_decide as Hex.
    + subst a. split; [|split].
      * exists rows'. split; [exact Hrows'|]. split.
        -- intros row Hr. destruct (Hfrom' row Hr) as (c & l & Hin & Hrest).
           exists c, l. split; [right; exact Hin | exact Hrest].
        -- intros c l Hin Hne Hnex. apply elem_of_cons in Hin as [Heq|Hin].
           ++ injection Heq as -> ->. contradiction.
           ++ eauto.
      * intros p. rewrite Hfill'. split.
        -- intros [?|(c & l & Hin & Hp)]; [auto|].
           right. exists c, l. split; [right; exact Hin | exact Hp].
        -- intros [?|(c & l & Hin & Hp & Hnex)]; [auto|].
           apply elem_of_cons in Hin as [Heq|Hin].
           ++ injection Heq as -> ->. subst p. contradiction.
           ++ right. eauto.
      * exists mds'. split; [exact Hmds'|].
        intros md Hmd. destruct (Hmd' md Hmd) as (c & l & Hin & Hrest).
        exists c, l. split; [right; exact Hin | exact Hrest].
    + destruct Ha as (rows & md & Hrows & Hlen & Hall & Hfill & Hmds & Hmc & Hmy).
      rewrite Forall_forall in Hall. split; [|split].
      * exists (rows ++ rows'). split; [rewrite Hrows', Hrows, app_assoc; reflexivity|].
        split.
        -- intros row Hr. apply elem_of_app in Hr as [Hr|Hr].
           ++ exists ctds, cl. split; [left|]. split; [exact Hex|]. apply Hall, Hr.
           ++ destruct (Hfrom' row Hr) as (c & l & Hin & Hrest).
              exists c, l. split; [right; exact Hin | exact Hrest].
        -- intros c l Hin Hne Hnex. apply elem_of_cons in Hin as [Heq|Hin].
           ++ injection Heq as -> ->.
              destruct rows as [|row rows]; [destruct cl; [congruence | discriminate Hlen]|].
              exists row. split; [left|]. apply (Hall row). left.
           ++ destruct (Hto' c l Hin Hne Hnex) as (row & Hr & Hfor).
              exists row. split; [apply elem_of_app; right; exact Hr | exact Hfor].
      * intros p. rewrite Hfill', Hfill. split.
        -- intros [Hp|(c & l & Hin & Hp)].
           ++ apply elem_of_union in Hp as [Hp|Hp]; [|auto].
              apply elem_of_singleton in Hp. right. exists ctds, cl.
              split; [left|]. split; [exact Hp | subst p; exact Hex].
           ++ right. exists c, l. split; [right; exact Hin | exact Hp].
        -- intros [?|(c & l & Hin & Hp & Hnex)].
           ++ left. apply elem_of_union. auto.
           ++ apply elem_of_cons in Hin as [Heq|Hin].
              ** injection Heq as -> ->. left. apply elem_of_union. left.
                 apply elem_of_singleton. exact Hp.
              ** right. eauto.
      * exists (md :: mds'). split; [rewrite Hmds', Hmds, <- app_assoc; reflexivity|].
        intros md0 Hmd0. apply elem_of_cons in Hmd0 as [->|Hmd0].
        -- exists ctds, cl. split; [left|]. auto.
        -- destruct (Hmd' md0 Hmd0) as (c & l & Hin & Hrest).
           exists c, l. split; [right; exact Hin | exact Hrest].
Qed.

(** *** One county-year, end to end *)

Lemma process_gap_spec st county_lower year needed st' :
  process_gap source existing_pairs ccd_districts ctds_names st
    ((county_lower, year), needed) = Ok st' ->
  exists log oc,
    gap_candidates source county_lower year = Ok (log, oc) /\
    let disp := county_display_of county_lower in
    let m := match_candidates existing_pairs needed year disp (default [] oc) in
    (exists rows,
       new_rows st' = new_rows st ++ rows /\
       (forall row, row ∈ rows ->
          exists ctds cl, (ctds, cl) ∈ m.1 /\
            ((ctds, Py.str_of_int year) ∉ existing_pairs) /\
            row_for year disp ctds row /\ is_Some (assoc year ELECTION_DATES)) /\
       (forall ctds cl, (ctds, cl) ∈ m.1 -> cl <> [] ->
          (ctds, Py.str_of_int year) ∉ existing_pairs ->
          exists row, row ∈ rows /\ row_for year disp ctds row)) /\
    (forall p, p ∈ filled_pairs st' <->
       p ∈ filled_pairs st \/
       exists ctds cl, (ctds, cl) ∈ m.1 /\ p = (ctds, Py.str_of_int year) /\
                       p ∉ existing_pairs) /\
    (exists mds,
       match_details st' = match_details st ++ mds /\
       forall md, md ∈ mds ->
         exists ctds cl, (ctds, cl) ∈ m.1 /\
           ((ctds, Py.str_of_int year) ∉ existing_pairs) /\
           md_ctds md = ctds /\ md_year md = year) /\
    report st' =
      report st ++
      LogGap disp year (size needed) :: log ++
      match oc with
      | None => []
      | Some _ => matched_report ccd_districts m.1 ++ unmatched_report m.2
      end.
Proof.
  rewrite process_gap_eq. intros H. inv_bind H. destruct a as [log oc].
  exists log, oc. split; [exact Ha|]. cbn [fst snd] in H. cbv zeta in H.
  intros disp m.
  assert (Hall : exists st0,
    materialize_all existing_pairs ccd_districts ctds_names year disp st0 m.1
      = Ok st' /\
    new_rows st0 = new_rows st /\ filled_pairs st0 = filled_pairs st /\
    match_details st0 = match_details st /\
    report st0 = report st ++
      LogGap disp year (size needed) :: log ++
      match oc with
      | None => []
      | Some _ => matched_report ccd_districts m.1 ++ unmatched_report m.2
      end).
  { destruct oc as [cands|]; cbn [default] in m.
    - eexists. split; [exact H|]. cbn. rewrite <- app_assoc. auto.
    - injection H as <-. eexists. split; [reflexivity|]. cbn.
      rewrite app_nil_r. auto. }
  destruct Hall as (st0 & Hmat & Hr0 & Hf0 & Hd0 & Hrep0).
  apply materialize_all_spec in Hmat as (Hrep & Hrows & Hfill & Hmds).
  rewrite Hr0 in Hrows. rewrite Hd0 in Hmds. rewrite Hrep0 in Hrep.
  repeat split; try assumption.
  - intros Hp. apply Hfill in Hp. rewrite Hf0 in Hp. exact Hp.
  - intros Hp. apply Hfill. rewrite Hf0. exact Hp.
Qed.
End RunFacts.

(** ** Canonical identifiers and years *)

Lemma truthy_append s t : Py.truthy t = true -> Py.truthy (s +:+ t) = true.
Proof.
  unfold Py.truthy. destruct s as [|a s]; cbn; [auto | reflexivity].
Qed.

Lemma canon_roundtrip_values : forallb canon_roundtrip ctds_values = true.
Proof. vm_compute. reflexivity. Qed.

(** Every identifier of the table is its own canonical form, also when
    written with the suffix [.0] that the staged rows carry. *)
Lemma canon_ctds_value v :
  v ∈ ctds_values -> canon (v +:+ ".0") = Ok v /\ Py.truthy v = true.
Proof.
  intros Hv. pose proof canon_roundtrip_values as H.
  rewrite forallb_forall in H. apply list_elem_of_In in Hv.
  specialize (H v Hv). unfold canon_roundtrip in H.
  destruct (canon (v +:+ ".0")) as [s|e]; [|discriminate].
  apply andb_true_iff in H as [Hs Ht]. apply String.eqb_eq in Hs. subst s. auto.
Qed.

Lemma assoc_keys {V : Type} (k : Z) (table : list (Z * V)) :
  is_Some (assoc k table) -> k ∈ map fst table.
Proof.
  induction table as [|[k' v] table IH]; cbn [assoc map fst]; intros [x Hx].
  - discriminate.
  - case_decide as Hk; [subst; left | right; apply IH; eauto].
Qed.

Lemma canon_year year :
  year ∈ YEARS ->
  canon (Py.str_of_int year +:+ ".0") = Ok (Py.str_of_int year).
Proof.
  intros H. unfold YEARS in H.
  repeat (apply elem_of_cons in H as [->|H]; [vm_compute; reflexivity|]).
  inversion H.
Qed.

Lemma election_year_known year :
  is_Some (assoc year ELECTION_DATES) -> year ∈ YEARS.
Proof. apply assoc_keys. Qed.

Lemma row_for_pair year disp ctds row :
  row_for year disp ctds row -> ctds ∈ ctds_values -> year ∈ YEARS ->
  row_pair row = Ok (ctds, Py.str_of_int year) /\
  Py.truthy (m_ctds_id row) = true.
Proof.
  intros (Hc & Hy & _) Hv Hyear. unfold row_pair. rewrite Hc, Hy.
  destruct (canon_ctds_value _ Hv) as [-> _]. cbn [mbind result_bind].
  rewrite (canon_year _ Hyear). cbn [mbind result_bind].
  split; [reflexivity | apply truthy_append; reflexivity].
Qed.

(** ** Merge engine: the whole run *)

Section RunInvariants.
Variable source : string -> option csv_table.
Variable existing_pairs : gset (string * string).
Variable ccd_districts : gmap string (string * string).
Variable ctds_names : gmap string (gset string).

Lemma process_gap_summary st county_lower year needed st' :
  process_gap source existing_pairs ccd_districts ctds_names st
    ((county_lower, year), needed) = Ok st' ->
  exists log oc rows,
    gap_candidates source county_lower year = Ok (log, oc) /\
    new_rows st' = new_rows st ++ rows /\
    (forall row, row ∈ rows ->
       exists ctds, staged_for existing_pairs county_lower year needed ctds row) /\
    (forall cand ctds,
       cand ∈ default [] oc ->
       resolves_to (county_display_of county_lower) needed cand ctds ->
       (ctds, Py.str_of_int year) ∉ existing_pairs ->
       exists row, row ∈ rows /\
                   row_for year (county_display_of county_lower) ctds row) /\
    (forall p, p ∈ filled_pairs st' ->
       p ∈ filled_pairs st \/
       ((p ∉ existing_pairs) /\
        exists ctds, p = (ctds, Py.str_of_int year) /\ ctds ∈ needed)).
Proof.
  intros H. apply process_gap_spec in H as (log & oc & Hgc & H).
  cbv zeta in H.
  destruct (match_candidates existing_pairs needed year
              (county_display_of county_lower) (default [] oc))
    as [matched unmatched] eqn:Em.
  cbn [fst snd] in H.
  destruct H as ((rows & Hrows & Hfrom & Hto) & Hfill & _ & _).
  unfold match_candidates in Em.
  apply match_candidates_from in Em as (Hm & _ & Hne).
  assert (Hne' : forall k cl, (k, cl) ∈ matched -> cl <> []).
  { apply Hne. intros k cl Hin. inversion Hin. }
  assert (Hkey : forall k cl, (k, cl) ∈ matched -> k ∈ needed /\ k ∈ ctds_values).
  { intros k cl Hin. pose proof (Hne' k cl Hin) as Hcl.
    destruct cl as [|cand cl]; [congruence|].
    assert (Hh : holds matched k cand) by (exists (cand :: cl); split; [exact Hin | left]).
    apply Hm in Hh as [(cl0 & Hin0 & _)|(_ & Hk & _ & Hn)]; [inversion Hin0|].
    split; [exact Hn | eapply match_to_ctds_value, Hk]. }
  exists log, oc, rows. repeat split; try assumption.
  - intros row Hr. destruct (Hfrom row Hr) as (ctds & cl & Hin & Hnex & Hfor & Hy).
    exists ctds. destruct (Hkey _ _ Hin) as [Hn Hv].
    repeat split; try assumption; try apply Hfor.
    apply election_year_known, Hy.
  - intros cand ctds Hc (Hk & Ht & Hn) Hnex.
    assert (Hh : holds matched ctds cand) by (apply Hm; right; auto).
    destruct Hh as (cl & Hin & Hcl).
    apply (Hto ctds cl Hin); [|exact Hnex].
    intros ->. inversion Hcl.
  - intros p Hp. apply Hfill in Hp as [Hp|(ctds & cl & Hin & -> & Hnex)]; [auto|].
    right. split; [exact Hnex|]. exists ctds. split; [reflexivity|].
    apply (Hkey _ _ Hin).
Qed.

(** What a run leaves, gap by gap. *)
Lemma process_gaps_summary gaps : forall st st',
  process_gaps source existing_pairs ccd_districts ctds_names st gaps = Ok st' ->
  (exists rows,
     new_rows st' = new_rows st ++ rows /\
     forall row, row ∈ rows ->
       exists county_lower year needed ctds,
         ((county_lower, year), needed) ∈ gaps /\
         staged_for existing_pairs county_lower year needed ctds row) /\
  (forall county_lower year needed,
     ((county_lower, year), needed) ∈ gaps ->
     exists log oc,
       gap_candidates source county_lower year = Ok (log, oc) /\
       forall cand ctds,
         cand ∈ default [] oc ->
         resolves_to (county_display_of county_lower) needed cand ctds ->
         (ctds, Py.str_of_int year) ∉ existing_pairs ->
         exists row, row ∈ new_rows st' /\
                     row_for year (county_display_of county_lower) ctds row) /\
  (forall p, p ∈ filled_pairs st' -> p ∈ filled_pairs st \/ p ∉ existing_pairs).
Proof.
  induction gaps as [|[[c y] needed] gaps IH]; cbn [process_gaps]; intros st st' H.
  - injection H as <-. split; [|split].
    + exists []. rewrite app_nil_r. split; [reflexivity|].
      intros row Hr. inversion Hr.
    + intros c y needed Hin. inversion Hin.
    + auto.
  - inv_bind H.
    apply process_gap_summary in Ha
      as (log & oc & rows & Hgc & Hrows & Hfrom & Hto & Hfill).
    apply IH in H as ((rows' & Hrows' & Hfrom') & Hcov' & Hfill').
    split; [|split].
    + exists (rows ++ rows'). split; [rewrite Hrows', Hrows, app_assoc; reflexivity|].
      intros row Hr. apply elem_of_app in Hr as [Hr|Hr].
      * destruct (Hfrom row Hr) as (ctds & Hst).
        exists c, y, needed, ctds. split; [left | exact Hst].
      * destruct (Hfrom' row Hr) as (c' & y' & n' & ctds & Hin & Hst).
        exists c', y', n', ctds. split; [right; exact Hin | exact Hst].
    + intros c' y' n' Hin. apply elem_of_cons in Hin as [Heq|Hin].
      * injection Heq as -> -> ->. exists log, oc. split; [exact Hgc|].
        intros cand ctds Hc Hres Hnex.
        destruct (Hto cand ctds Hc Hres Hnex) as (row & Hr & Hfor).
        exists row. split; [|exact Hfor].
        rewrite Hrows', Hrows. apply elem_of_app. left.
        apply elem_of_app. right. exact Hr.
      * apply (Hcov' c' y' n' Hin).
    + intros p Hp. apply Hfill' in Hp as [Hp|Hp]; [|auto].
      apply Hfill in Hp as [Hp|[Hp _]]; auto.
Qed.
End RunInvariants.

(** The pairs marked as filled are the pairs of the staged rows. *)
Lemma process_gap_filled (source : string -> option csv_table)
    (existing_pairs : gset (string * string))
    (ccd_districts : gmap string (string * string))
    (ctds_names : gmap string (gset string))
    st county_lower year needed st' :
  process_gap source existing_pairs ccd_districts ctds_names st
    ((county_lower, year), needed) = Ok st' ->
  (forall p, p ∈ filled_pairs st <->
             exists row, row ∈ new_rows st /\ row_pair row = Ok p) ->
  forall p, p ∈ filled_pairs st' <->
            exists row, row ∈ new_rows st' /\ row_pair row = Ok p.
Proof.
  intros H Hinv. apply process_gap_spec in H as (log & oc & Hgc & H).
  cbv zeta in H.
  destruct (match_candidates existing_pairs needed year
              (county_display_of county_lower) (default [] oc))
    as [matched unmatched] eqn:Em.
  cbn [fst snd] in H.
  destruct H as ((rows & Hrows & Hfrom & Hto) & Hfill & _ & _).
  unfold match_candidates in Em.
  apply match_candidates_from in Em as (Hm & _ & Hne).
  assert (Hkey : forall k cl, (k, cl) ∈ matched -> cl <> [] /\ k ∈ ctds_values).
  { intros k cl Hin.
    assert (Hcl : cl <> [])
      by (eapply Hne; [intros k0 cl0 H0; inversion H0 | exact Hin]).
    split; [exact Hcl|]. destruct cl as [|cand cl]; [congruence|].
    assert (Hh : holds matched k cand) by (exists (cand :: cl); split; [exact Hin | left]).
    apply Hm in Hh as [(cl0 & Hin0 & _)|(_ & Hk & _)]; [inversion Hin0|].
    eapply match_to_ctds_value, Hk. }
  assert (Hpair : forall row ctds cl, row ∈ rows -> (ctds, cl) ∈ matched ->
            row_for year (county_display_of county_lower) ctds row ->
            row_pair row = Ok (ctds, Py.str_of_int year)).
  { intros row ctds cl Hr Hin Hfor.
    destruct (Hfrom row Hr) as (_ & _ & _ & _ & _ & Hy).
    apply (row_for_pair _ _ _ _ Hfor); [apply (Hkey _ _ Hin)|].
    apply election_year_known, Hy. }
  intros p. rewrite Hfill, Hinv, Hrows. split.
  - intros [(row & Hr & Hp)|(ctds & cl & Hin & -> & Hnex)].
    + exists row. split; [apply elem_of_app; left; exact Hr | exact Hp].
    + destruct (Hto ctds cl Hin (proj1 (Hkey _ _ Hin)) Hnex) as (row & Hr & Hfor).
      exists row. split; [apply elem_of_app; right; exact Hr|].
      apply (Hpair row ctds cl Hr Hin Hfor).
  - intros (row & Hr & Hp). apply elem_of_app in Hr as [Hr|Hr].
    + left. eauto.
    + right. destruct (Hfrom row Hr) as (ctds & cl & Hin & Hnex & Hfor & _).
      exists ctds, cl. rewrite (Hpair row ctds cl Hr Hin Hfor) in Hp.
      injection Hp as <-. auto.
Qed.

Lemma process_gaps_filled (source : string -> option csv_table)
    (existing_pairs : gset (string * string))
    (ccd_districts : gmap string (string * string))
    (ctds_names : gmap string (gset string)) gaps : forall st st',
  process_gaps source existing_pairs ccd_districts ctds_names st gaps = Ok st' ->
  (forall p, p ∈ filled_pairs st <->
             exists row, row ∈ new_rows st /\ row_pair row = Ok p) ->
  forall p, p ∈ filled_pairs st' <->
            exists row, row ∈ new_rows st' /\ row_pair row = Ok p.
Proof.
  induction gaps as [|[[c y] needed] gaps IH]; cbn [process_gaps]; intros st st' H Hinv.
  - injection H as <-. exact Hinv.
  - inv_bind H. apply (IH _ _ H). eapply process_gap_filled; eassumption.
Qed.

(** ** Load *)

Lemma load_pairs_spec table : forall acc pairs,
  load_pairs table acc = Ok pairs ->
  forall p, p ∈ pairs <->
    p ∈ acc \/
    exists r, r ∈ table /\ Py.truthy (m_ctds_id r) = true /\ row_pair r = Ok p.
Proof.
  induction table as [|r table IH]; cbn [load_pairs]; intros acc pairs H p.
  - injection H as <-. split; [auto|].
    intros [?|(r & Hr & _)]; [assumption | inversion Hr].
  - destruct (Py.truthy (m_ctds_id r)) eqn:Et.
    + inv_bind H. inv_bind H. rewrite (IH _ _ H p). split.
      * intros [Hp|(r' & Hr' & Hrest)].
        -- apply elem_of_union in Hp as [Hp|Hp]; [|auto].
           apply elem_of_singleton in Hp. subst p. right. exists r.
           split; [left|]. split; [exact Et|].
           unfold row_pair. rewrite Ha, Ha0. reflexivity.
        -- right. exists r'. split; [right; exact Hr' | exact Hrest].
      * intros [Hp|(r' & Hr' & Ht' & Hp)].
        -- left. apply elem_of_union. auto.
        -- apply elem_of_cons in Hr' as [->|Hr'].
           ++ left. apply elem_of_union. left. apply elem_of_singleton.
              unfold row_pair in Hp. rewrite Ha, Ha0 in Hp.
              cbn in Hp. congruence.
           ++ right. exists r'. auto.
    + rewrite (IH _ _ H p). split.
      * intros [?|(r' & Hr' & Hrest)]; [auto|].
        right. exists r'. split; [right; exact Hr' | exact Hrest].
      * intros [?|(r' & Hr' & Ht' & Hp)]; [auto|].
        apply elem_of_cons in Hr' as [->|Hr']; [congruence|].
        right. exists r'. auto.
Qed.

(** The phases of a run that returns. *)
Lemma main_Ok table directory source st :
  main table directory source = Ok st ->
  exists existing_pairs ctds_county ctds_names,
    load_pairs table ∅ = Ok existing_pairs /\
    load_info table ∅ ∅ = Ok (ctds_county, ctds_names) /\
    process_gaps source existing_pairs (load_ccd directory) ctds_names
      initial_state
      (merge_sort gap_le (map_to_list (compute_gaps ctds_county existing_pairs)))
    = Ok st.
Proof.
  unfold main. intros H. inv_bind H. inv_bind H. destruct a0 as [cc names].
  eauto 6.
Qed.

(** C1. No-overwrite invariant: no row staged by a run carries an
    (identifier, year) pair - read from the row the way Load reads the
    authoritative table - that some row of the authoritative table
    carries; the set of pairs the run marks as filled is the set of the
    pairs of the staged rows, and it is disjoint from the set of existing
    pairs. *)
Theorem no_overwrite (table : list master_row) (directory : list ccd_row)
    (source : string -> option csv_table) (st : run_state) :
  main table directory source = Ok st ->
  exists existing_pairs,
    load_pairs table ∅ = Ok existing_pairs /\
    (forall p, p ∈ existing_pairs <->
       exists r, r ∈ table /\ Py.truthy (m_ctds_id r) = true /\
                 row_pair r = Ok p) /\
    (forall row, row ∈ new_rows st ->
       exists p, row_pair row = Ok p /\ p ∉ existing_pairs) /\
    (forall p, p ∈ filled_pairs st <->
       exists row, row ∈ new_rows st /\ row_pair row = Ok p) /\
    filled_pairs st ∩ existing_pairs = ∅.
Proof.
  intros H. apply main_Ok in H as (existing & cc & names & Hload & _ & Hrun).
  exists existing. split; [exact Hload|]. split; [|split; [|split]].
  - intros p. rewrite (load_pairs_spec _ _ _ Hload p). split.
    + intros [Hp|?]; [|assumption]. apply not_elem_of_empty in Hp. destruct Hp.
    + auto.
  - apply process_gaps_summary in Hrun as ((rows & Hrows & Hfrom) & _ & _).
    cbn [new_rows initial_state app] in Hrows. rewrite Hrows.
    intros row Hr.
    destruct (Hfrom row Hr) as (c & y & needed & ctds & _ & Hst).
    destruct Hst as (_ & Hv & Hy & Hnex & Hfor).
    exists (ctds, Py.str_of_int y). split; [|exact Hnex].
    apply (row_for_pair _ _ _ _ Hfor Hv Hy).
  - apply (process_gaps_filled _ _ _ _ _ _ _ Hrun).
    intros p. cbn [filled_pairs new_rows initial_state]. split.
    + intros Hp. apply not_elem_of_empty in Hp. destruct Hp.
    + intros (row & Hr & _). inversion Hr.
  - apply process_gaps_summary in Hrun as (_ & _ & Hfill).
    apply set_eq. intros p. split; [|intros Hp; apply not_elem_of_empty in Hp; destruct Hp].
    intros Hp. apply elem_of_intersection in Hp as [Hp Hex].
    apply Hfill in Hp as [Hp|Hp]; [|contradiction].
    cbn in Hp. apply not_elem_of_empty in Hp. destruct Hp.
Qed.

(** The scenario: two rows are staged for (4470, 2018), none of them on
    a pair of the table. *)
Lemma no_overwrite_witness :
  exists st,
    main scenario_table scenario_directory scenario_source = Ok st /\
    length (new_rows st) = 2%nat /\
    exists existing_pairs,
      load_pairs scenario_table ∅ = Ok existing_pairs /\
      (forall row, row ∈ new_rows st ->
         exists p, row_pair row = Ok p /\ p ∉ existing_pairs).
Proof.
  eexists. split; [vm_compute; reflexivity|]. split; [reflexivity|].
  destruct (no_overwrite scenario_table scenario_directory scenario_source _
              ltac:(vm_compute; reflexivity))
    as (existing & Hload & _ & Hrows & _ & _).
  exists existing. split; [exact Hload | exact Hrows].
Defined.

(** ** Conflicting resolutions *)

Lemma extract_records_log tbl county_name year county_lower recs log :
  extract_records tbl county_name year county_lower = Ok (recs, log) ->
  log = [] \/ log = [LogUnknownFormat (fieldnames tbl)].
Proof.
  unfold extract_records. intros H.
  destruct (fieldnames tbl) as [|f fs] eqn:Ef.
  { injection H as <- <-. auto. }
  repeat match type of H with
         | (if ?b then _ else _) = _ => destruct b
         end;
    try (injection H as <- <-; auto);
    repeat match type of H with
           | _ ≫= _ = Ok _ => inv_bind H
           end;
    injection H as <- <-; auto.
Qed.

Lemma gap_candidates_log source county_lower year log oc ctds office district :
  gap_candidates source county_lower year = Ok (log, oc) ->
  forall e, e ∈ log -> event_mentions ctds office district e = false.
Proof.
  unfold gap_candidates. intros H. inv_bind H.
  destruct (source a) as [tbl|].
  2: { injection H as <- <-. intros e He.
       apply list_elem_of_singleton in He. subst e. reflexivity. }
  inv_bind H. destruct a0 as [recs warnings].
  apply extract_records_log in Ha0.
  assert (Hw : forall e, e ∈ warnings -> event_mentions ctds office district e = false).
  { intros e He. destruct Ha0 as [->| ->]; [inversion He|].
    apply list_elem_of_singleton in He. subst e. reflexivity. }
  destruct recs as [|r0 recs].
  - injection H as <- <-. intros e He. apply elem_of_app in He as [He|He]; [auto|].
    apply list_elem_of_singleton in He. subst e. reflexivity.
  - inv_bind H. injection H as <- <-. intros e He.
    apply elem_of_app in He as [He|He]; [auto|].
    apply list_elem_of_singleton in He. subst e. reflexivity.
Qed.

Lemma matched_report_mentions ccd matched ctds office district e :
  e ∈ matched_report ccd matched ->
  event_mentions ctds office district e = true -> ctds ∈ map fst matched.
Proof.
  unfold matched_report. destruct matched as [|m0 matched]; [intros H; inversion H|].
  intros He. apply list_elem_of_singleton in He. subst e.
  cbn [event_mentions]. intros H. apply existsb_exists in H as (d & Hd & Heq).
  apply String.eqb_eq in Heq. apply list_elem_of_In in Hd.
  apply list_elem_of_fmap in Hd as (k & -> & Hk). cbn in Heq. subst k.
  rewrite merge_sort_Permutation in Hk. exact Hk.
Qed.

Lemma unmatched_report_mentions unmatched ctds office district e :
  e ∈ unmatched_report unmatched ->
  event_mentions ctds office district e = true ->
  exists u, u ∈ unmatched /\ agg_office u = office /\ agg_district u = district.
Proof.
  unfold unmatched_report. destruct unmatched as [|u0 unmatched]; [intros H; inversion H|].
  intros He. apply list_elem_of_singleton in He. subst e.
  cbn [event_mentions]. intros H. apply existsb_exists in H as (r & Hr & Heq).
  apply andb_true_iff in Heq as [H1 H2].
  apply String.eqb_eq in H1, H2. apply list_elem_of_In in Hr.
  rewrite merge_sort_Permutation, elem_of_remove_dups in Hr.
  apply list_elem_of_fmap in Hr as (u & -> & Hu). eauto.
Qed.

(** C6, as stated, fails: in the scenario the Mayer aggregate resolves
    to 4473, whose pair for 2018 the table holds; the run drops it and
    neither the printed report nor the match log says so. *)
Lemma safety_hit_not_logged :
  exists st,
    main scenario_table scenario_directory scenario_source = Ok st /\
    load_pairs scenario_table ∅ = Ok scenario_pairs /\
    (exists cands,
       gap_candidates scenario_source "yavapai" 2018
         = Ok ([LogCounts 6 4], Some cands) /\
       mayer_aggregate ∈ cands) /\
    match_to_ctds (agg_office mayer_aggregate) (agg_district mayer_aggregate)
      "Yavapai" = Some "4473" /\
    (("4473", "2018") ∈ scenario_pairs) /\
    report st =
      [LogGap "Yavapai" 2014 2; LogSkipDownload;
       LogGap "Yavapai" 2016 1; LogSkipDownload;
       LogGap "Yavapai" 2018 1; LogCounts 6 4;
       LogMatched [("4470", "Camp Verde Unified District (4470)", 2%nat)];
       LogUnmatched [("Zzz USD Governing Board", "")];
       LogGap "Yavapai" 2020 2; LogSkipDownload;
       LogGap "Yavapai" 2022 2; LogSkipDownload;
       LogGap "Yavapai" 2024 2; LogSkipDownload] /\
    existsb (event_mentions "4473" (agg_office mayer_aggregate)
               (agg_district mayer_aggregate)) (report st) = false /\
    map md_ctds (match_details st) = ["4470"].
Proof.
  eexists. split; [vm_compute; reflexivity|].
  split; [vm_compute; reflexivity|]. split.
  { eexists. split; [vm_compute; reflexivity|]. do 2 right. left. }
  repeat split; vm_compute; reflexivity.
Qed.

(** C6, amended. When a candidate aggregate of a county-year file
    resolves to an identifier whose (identifier, year) pair the
    authoritative table holds, the step stages no row with that pair,
    does not mark the pair as filled and adds no match-log entry for the
    identifier; the discard is silent: no printed line lists the race as
    unmatched, and none lists the identifier as matched unless the
    identifier was planned as missing for this county-year. *)
Theorem conflicting_resolution_discarded
    (source : string -> option csv_table)
    (existing_pairs : gset (string * string))
    (ccd_districts : gmap string (string * string))
    (ctds_names : gmap string (gset string))
    (st st' : run_state) (county_lower : string) (year : Z)
    (needed : gset string) (log : list log_event)
    (cands : list candidate_aggregate) (cand : candidate_aggregate)
    (ctds : string) :
  process_gap source existing_pairs ccd_districts ctds_names st
    ((county_lower, year), needed) = Ok st' ->
  gap_candidates source county_lower year = Ok (log, Some cands) ->
  cand ∈ cands ->
  match_to_ctds (agg_office cand) (agg_district cand)
    (county_display_of county_lower) = Some ctds ->
  (ctds, Py.str_of_int year) ∈ existing_pairs ->
  (exists rows,
     new_rows st' = new_rows st ++ rows /\
     forall row, row ∈ rows -> row_pair row <> Ok (ctds, Py.str_of_int year)) /\
  ((ctds, Py.str_of_int year) ∈ filled_pairs st' ->
   (ctds, Py.str_of_int year) ∈ filled_pairs st) /\
  (exists mds,
     match_details st' = match_details st ++ mds /\
     forall md, md ∈ mds -> md_year md = year /\ md_ctds md <> ctds) /\
  (exists events,
     report st' = report st ++ events /\
     forall e, e ∈ events ->
       event_mentions ctds (agg_office cand) (agg_district cand) e = true ->
       exists districts, e = LogMatched districts /\ ctds ∈ needed).
Proof.
  intros Hgap Hgc Hcand Hres Hex.
  pose proof (process_gap_summary _ _ _ _ _ _ _ _ _ Hgap)
    as (log1 & oc1 & rows1 & Hgc1 & Hrows1 & Hfrom1 & _ & Hfill1).
  apply process_gap_spec in Hgap as (log' & oc & Hgc' & Hspec).
  rewrite Hgc in Hgc'. injection Hgc' as <- <-. cbv zeta in Hspec.
  change (default [] (Some cands)) with cands in Hspec.
  destruct (match_candidates existing_pairs needed year
              (county_display_of county_lower) cands)
    as [matched unmatched] eqn:Em.
  cbn [fst snd] in Hspec.
  destruct Hspec as ((rows & Hrows & _ & _) & _ & (mds & Hmds & Hmd) & Hrep).
  unfold match_candidates in Em.
  apply match_candidates_from in Em as (Hm & Hu & Hne).
  repeat split.
  - exists rows1. split; [exact Hrows1|].
    intros row Hr Hpair. destruct (Hfrom1 row Hr) as (c' & Hst).
    destruct Hst as (_ & Hv & Hy & Hnex & Hfor).
    destruct (row_for_pair _ _ _ _ Hfor Hv Hy) as [Hp _].
    rewrite Hp in Hpair. injection Hpair as ->. contradiction.
  - intros Hp. apply Hfill1 in Hp as [Hp|[Hnex _]]; [exact Hp | contradiction].
  - exists mds. split; [exact Hmds|].
    intros md Hin. destruct (Hmd md Hin) as (c' & cl & _ & Hnex & Hc & Hy).
    split; [exact Hy|]. intros Heq. subst c'. rewrite Heq in Hnex. contradiction.
  - eexists. split; [exact Hrep|].
    intros e He Hmention. apply elem_of_cons in He as [->|He]; [discriminate|].
    apply elem_of_app in He as [He|He].
    { rewrite (gap_candidates_log _ _ _ _ _ _ _ _ Hgc e He) in Hmention.
      discriminate. }
    apply elem_of_app in He as [He|He].
    + pose proof (matched_report_mentions _ _ _ _ _ _ He Hmention) as Hk.
      assert (exists districts, e = LogMatched districts) as [districts ->].
      { unfold matched_report in He. destruct matched; [inversion He|].
        apply list_elem_of_singleton in He. eauto. }
      exists districts. split; [reflexivity|].
      apply list_elem_of_fmap in Hk as ([k cl] & -> & Hin). cbn [fst].
      assert (Hcl : cl <> []).
      { eapply Hne; [intros k0 cl0 H0; inversion H0 | exact Hin]. }
      destruct cl as [|c0 cl]; [congruence|].
      assert (Hh : holds matched k c0)
        by (exists (c0 :: cl); split; [exact Hin | left]).
      apply Hm in Hh as [(cl0 & Hin0 & _)|(_ & _ & _ & Hn)];
        [inversion Hin0 | exact Hn].
    + destruct (unmatched_report_mentions _ _ _ _ _ He Hmention)
        as (u & Hin & Ho & Hd).
      apply Hu in Hin as [Hin|[_ Hnone]]; [inversion Hin|].
      rewrite Ho, Hd, Hres in Hnone. discriminate.
Qed.

(** The Yavapai gap of the scenario: the Mayer aggregate resolves to
    4473, whose pair for 2018 exists; the step stages the two Camp Verde
    rows only and does not mark the Mayer pair as filled. *)
Lemma conflicting_resolution_discarded_witness :
  exists st',
    process_gap scenario_source scenario_pairs (load_ccd scenario_directory) ∅
      initial_state (("yavapai", 2018), {[ "4470" ]}) = Ok st' /\
    map m_candidate (new_rows st') = ["Jane Doe"; "John Roe"] /\
    (("4473", Py.str_of_int 2018) ∈ filled_pairs st' ->
     ("4473", Py.str_of_int 2018) ∈ filled_pairs initial_state).
Proof.
  eexists. split; [vm_compute; reflexivity|]. split; [reflexivity|].
  eapply (conflicting_resolution_discarded scenario_source scenario_pairs
            (load_ccd scenario_directory) ∅ initial_state _ "yavapai" 2018
            {[ "4470" ]} _ _ mayer_aggregate "4473").
  - vm_compute. reflexivity.
  - vm_compute. reflexivity.
  - do 2 right. left.
  - vm_compute. reflexivity.
  - vm_compute. reflexivity.
Defined.

(** ** County keys *)

Lemma replace_char a b s : forall fuel,
  (String.length s <= fuel)%nat ->
  Py.replace_from fuel (String a "") (String b "") s =
  Py.map_chars (fun x => if Ascii.eqb x a then b else x) s.
Proof.
  induction s as [|c s IH]; intros fuel Hf.
  - destruct fuel; reflexivity.
  - destruct fuel as [|fuel]; [cbn in Hf; lia|].
    cbn [Py.replace_from Py.startswith Py.map_chars Py.len String.length Py.drop].
    rewrite Ascii.eqb_sym.
    destruct (Ascii.eqb c a) eqn:E.
    + destruct s; cbn [Py.startswith andb String.append];
        rewrite IH by (cbn in Hf |- *; lia); reflexivity.
    + cbn [andb]. rewrite IH by (cbn in Hf; lia). reflexivity.
Qed.

Lemma map_chars_map_chars f g s :
  Py.map_chars f (Py.map_chars g s) = Py.map_chars (fun a => f (g a)) s.
Proof. induction s as [|c s IH]; cbn; [reflexivity | rewrite IH; reflexivity]. Qed.

Lemma map_chars_ext f g s :
  (forall a, f a = g a) -> Py.map_chars f s = Py.map_chars g s.
Proof.
  intros H. induction s as [|c s IH]; cbn; [reflexivity | rewrite H, IH; reflexivity].
Qed.

Lemma county_key_chars county : county_key county = Py.map_chars key_char county.
Proof.
  unfold county_key, Py.replace, Py.lower.
  rewrite replace_char by reflexivity. rewrite map_chars_map_chars. reflexivity.
Qed.

Lemma forall_ascii (P : ascii -> bool) :
  forallb P (map ascii_of_nat (seq 0 256)) = true -> forall a, P a = true.
Proof.
  intros H a. rewrite forallb_forall in H. apply H.
  apply in_map_iff. exists (nat_of_ascii a). split; [apply ascii_nat_embedding|].
  apply in_seq. pose proof (nat_ascii_bounded a). lia.
Qed.

Lemma key_char_idem a : key_char (key_char a) = key_char a.
Proof.
  apply Ascii.eqb_eq. revert a.
  apply (forall_ascii (fun a => Ascii.eqb (key_char (key_char a)) (key_char a))).
  vm_compute. reflexivity.
Qed.

Lemma key_char_lower a : key_char (Py.lower_char a) = key_char a.
Proof.
  apply Ascii.eqb_eq. revert a.
  apply (forall_ascii (fun a => Ascii.eqb (key_char (Py.lower_char a)) (key_char a))).
  vm_compute. reflexivity.
Qed.

Lemma key_char_upper a : key_char (Py.upper_char a) = key_char a.
Proof.
  apply Ascii.eqb_eq. revert a.
  apply (forall_ascii (fun a => Ascii.eqb (key_char (Py.upper_char a)) (key_char a))).
  vm_compute. reflexivity.
Qed.

Lemma county_key_idem county : county_key (county_key county) = county_key county.
Proof.
  rewrite !county_key_chars, map_chars_map_chars.
  apply map_chars_ext, key_char_idem.
Qed.

Lemma county_key_title_from b s :
  Py.map_chars key_char (Py.title_from b s) = Py.map_chars key_char s.
Proof.
  revert b. induction s as [|c s IH]; intros b; cbn; [reflexivity|].
  rewrite IH. destruct b; rewrite ?key_char_lower, ?key_char_upper; reflexivity.
Qed.

Lemma county_key_title county : county_key (Py.title county) = county_key county.
Proof. rewrite !county_key_chars. apply county_key_title_from. Qed.

Lemma truthy_map_chars f s : Py.truthy (Py.map_chars f s) = Py.truthy s.
Proof. destruct s; reflexivity. Qed.

Lemma truthy_title s : Py.truthy (Py.title s) = Py.truthy s.
Proof. destruct s; reflexivity. Qed.

Lemma assoc_elem {K V : Type} `{EqDecision K} (k : K) (v : V) table :
  assoc k table = Some v -> (k, v) ∈ table.
Proof.
  induction table as [|[k' v'] table IH]; cbn [assoc]; [discriminate|].
  case_decide as Hk.
  - intros [= ->]. subst. left.
  - intros H. right. auto.
Qed.

Lemma county_display_checked :
  forallb (fun e => (String.eqb (county_key e.2) e.1 && Py.truthy e.2)%bool)
          COUNTY_DISPLAY = true.
Proof. vm_compute. reflexivity. Qed.

(** The display name of a county key leads back to the key. *)
Lemma county_key_display county :
  Py.truthy county = true ->
  county_key (county_display_of (county_key county)) = county_key county /\
  Py.truthy (county_display_of (county_key county)) = true.
Proof.
  intros Ht. unfold county_display_of.
  destruct (assoc (county_key county) COUNTY_DISPLAY) as [d|] eqn:E; cbn [default].
  - apply assoc_elem in E. pose proof county_display_checked as H.
    rewrite forallb_forall in H. apply list_elem_of_In in E.
    specialize (H _ E). cbn [fst snd] in H.
    apply andb_true_iff in H as [H1 H2]. apply String.eqb_eq in H1. auto.
  - rewrite county_key_title, county_key_idem. split; [reflexivity|].
    rewrite truthy_title, county_key_chars, truthy_map_chars. exact Ht.
Qed.

(** ** Plan *)

Lemma needed_at_add_gap gaps key ctds key' k :
  k ∈ needed_at (add_gap gaps key ctds) key' <->
  k ∈ needed_at gaps key' \/ (key' = key /\ k = ctds).
Proof.
  unfold needed_at, add_gap.
  destruct (decide (key = key')) as [->|Hne].
  - rewrite lookup_insert_eq. cbn [default from_option id].
    rewrite elem_of_union, elem_of_singleton. split.
    + intros [->|?]; auto.
    + intros [?|[_ ->]]; auto.
  - rewrite lookup_insert_ne by exact Hne. split; [auto|].
    intros [?|[Heq _]]; [assumption | congruence].
Qed.

Lemma add_gap_nonempty gaps key ctds :
  (forall key' s, gaps !! key' = Some s -> s <> ∅) ->
  forall key' s, add_gap gaps key ctds !! key' = Some s -> s <> ∅.
Proof.
  intros H key' s. unfold add_gap.
  destruct (decide (key = key')) as [->|Hne].
  - rewrite lookup_insert_eq. intros [= <-]. set_solver.
  - rewrite lookup_insert_ne by exact Hne. apply H.
Qed.

(** The gaps planned for one identifier over a list of years. *)
Lemma plan_years (existing : gset (string * string)) ctds county_lower years :
  forall gaps,
  let gaps' :=
    fold_left
      (fun gaps year =>
         if decide ((ctds, Py.str_of_int year) ∈ existing) then gaps
         else add_gap gaps (county_lower, year) ctds)
      years gaps in
  (forall c y k,
     k ∈ needed_at gaps' (c, y) <->
     k ∈ needed_at gaps (c, y) \/
     (k = ctds /\ c = county_lower /\ y ∈ years /\
      (ctds, Py.str_of_int y) ∉ existing)) /\
  ((forall key s, gaps !! key = Some s -> s <> ∅) ->
   forall key s, gaps' !! key = Some s -> s <> ∅).
Proof.
  induction years as [|year years IH]; intros gaps; cbn [fold_left].
  - split; [|auto]. intros c y k. split; [auto|].
    intros [?|(_ & _ & Hy & _)]; [assumption | inversion Hy].
  - cbv zeta in IH.
    destruct (decide ((ctds, Py.str_of_int year) ∈ existing)) as [Hex|Hex].
    + destruct (IH gaps) as [Hk Hne]. split; [|exact Hne].
      intros c y k. rewrite Hk. split.
      * intros [?|(-> & -> & Hy & Hn)]; [auto|].
        right. repeat split; [right; exact Hy | exact Hn].
      * intros [?|(-> & -> & Hy & Hn)]; [auto|].
        apply elem_of_cons in Hy as [->|Hy]; [contradiction|]. right. auto.
    + destruct (IH (add_gap gaps (county_lower, year) ctds)) as [Hk Hne].
      split.
      * intros c y k. rewrite Hk, needed_at_add_gap. split.
        -- intros [[?|[Heq ->]]|(-> & -> & Hy & Hn)]; [auto| |].
           ++ injection Heq as -> ->. right. repeat split; [left | exact Hex].
           ++ right. repeat split; [right; exact Hy | exact Hn].
        -- intros [?|(-> & -> & Hy & Hn)]; [auto|].
           apply elem_of_cons in Hy as [->|Hy]; [left; right; auto|].
           right. auto.
      * intros H0. apply Hne. apply add_gap_nonempty, H0.
Qed.

Lemma plan_entries (existing : gset (string * string)) entries : forall gaps,
  let gaps' := fold_left (plan_ctds existing) entries gaps in
  (forall c y k,
     k ∈ needed_at gaps' (c, y) <->
     k ∈ needed_at gaps (c, y) \/
     exists county,
       (k, county) ∈ entries /\ Py.truthy county = true /\
       c = county_key county /\ y ∈ YEARS /\ (k, Py.str_of_int y) ∉ existing) /\
  ((forall key s, gaps !! key = Some s -> s <> ∅) ->
   forall key s, gaps' !! key = Some s -> s <> ∅).
Proof.
  induction entries as [|[ctds county] entries IH]; intros gaps; cbn [fold_left].
  - split; [|auto]. intros c y k. split; [auto|].
    intros [?|(county & Hin & _)]; [assumption | inversion Hin].
  - cbv zeta in IH.
    assert (Hstep : plan_ctds existing gaps (ctds, county) =
      if Py.truthy county then
        fold_left
          (fun gaps year =>
             if decide ((ctds, Py.str_of_int year) ∈ existing) then gaps
             else add_gap gaps (county_key county, year) ctds)
          YEARS gaps
      else gaps) by reflexivity.
    rewrite Hstep. clear Hstep.
    destruct (Py.truthy county) eqn:Et.
    + pose proof (plan_years existing ctds (county_key county) YEARS gaps) as Hp.
      cbv zeta in Hp. destruct Hp as [Hk0 Hne0].
      match goal with
      | |- context [fold_left (plan_ctds existing) entries ?g] =>
          destruct (IH g) as [Hk Hne]
      end.
      split.
      * intros c y k. rewrite Hk, Hk0. split.
        -- intros [[?|(-> & -> & Hy & Hn)]|(county' & Hin & Hrest)]; [auto| |].
           ++ right. exists county. split; [left | auto].
           ++ right. exists county'. split; [right; exact Hin | exact Hrest].
        -- intros [?|(county' & Hin & Ht & -> & Hy & Hn)]; [auto|].
           apply elem_of_cons in Hin as [Heq|Hin].
           ++ injection Heq as -> ->. left. right. auto.
           ++ right. exists county'. auto.
      * intros H0. apply Hne, Hne0, H0.
    + destruct (IH gaps) as [Hk Hne]. split; [|exact Hne].
      intros c y k. rewrite Hk. split.
      * intros [?|(county' & Hin & Hrest)]; [auto|].
        right. exists county'. split; [right; exact Hin | exact Hrest].
      * intros [?|(county' & Hin & Ht & Hrest)]; [auto|].
        apply elem_of_cons in Hin as [Heq|Hin].
        -- injection Heq as -> ->. congruence.
        -- right. exists county'. auto.
Qed.

(** Plan: an identifier is missing for a county-year exactly when it is
    known with that county, the year is an election year and the pair is
    not in the table.  No planned set is empty. *)
Lemma compute_gaps_spec (ctds_county : gmap string string)
    (existing : gset (string * string)) :
  (forall c y k,
     k ∈ needed_at (compute_gaps ctds_county existing) (c, y) <->
     exists county,
       ctds_county !! k = Some county /\ Py.truthy county = true /\
       c = county_key county /\ y ∈ YEARS /\ (k, Py.str_of_int y) ∉ existing) /\
  (forall key s, compute_gaps ctds_county existing !! key = Some s -> s <> ∅).
Proof.
  unfold compute_gaps.
  pose proof (plan_entries existing (map_to_list ctds_county) ∅) as H.
  cbv zeta in H. destruct H as [Hk Hne]. split.
  - intros c y k. rewrite Hk. split.
    + intros [H|(county & Hin & Hrest)].
      * unfold needed_at in H. rewrite lookup_empty in H. set_solver.
      * exists county. split; [|exact Hrest]. apply elem_of_map_to_list, Hin.
    + intros (county & Hin & Hrest). right. exists county.
      split; [|exact Hrest]. apply elem_of_map_to_list, Hin.
  - apply Hne. intros key s H. rewrite lookup_empty in H. discriminate.
Qed.

(** ** A second run, after the staged rows were promoted *)

Lemma load_pairs_app t1 t2 : forall acc,
  load_pairs (t1 ++ t2) acc = acc' ← load_pairs t1 acc; load_pairs t2 acc'.
Proof.
  induction t1 as [|r t1 IH]; intros acc; cbn [app load_pairs]; [reflexivity|].
  destruct (Py.truthy (m_ctds_id r)); [|apply IH].
  destruct (canon (m_ctds_id r)); cbn [mbind result_bind]; [|reflexivity].
  destruct (canon (m_year r)); cbn [mbind result_bind]; [|reflexivity].
  apply IH.
Qed.

Lemma load_pairs_total rows : forall acc,
  (forall r, r ∈ rows -> exists p, row_pair r = Ok p) ->
  exists pairs, load_pairs rows acc = Ok pairs.
Proof.
  induction rows as [|r rows IH]; intros acc H; cbn [load_pairs]; [eauto|].
  assert (Hrest : forall r', r' ∈ rows -> exists p, row_pair r' = Ok p)
    by (intros r' Hr'; apply H; right; exact Hr').
  destruct (Py.truthy (m_ctds_id r)); [|apply IH, Hrest].
  destruct (H r) as [p Hp]; [left|]. unfold row_pair in Hp.
  destruct (canon (m_ctds_id r)); cbn [mbind result_bind] in *; [|discriminate].
  destruct (canon (m_year r)); cbn [mbind result_bind] in *; [|discriminate].
  apply IH, Hrest.
Qed.

Lemma load_info_app t1 t2 : forall cc names,
  load_info (t1 ++ t2) cc names =
  r ← load_info t1 cc names; load_info t2 r.1 r.2.
Proof.
  induction t1 as [|r t1 IH]; intros cc names; cbn [app load_info]; [reflexivity|].
  destruct (Py.truthy (m_ctds_id r) && Py.truthy (m_county r))%bool; [|apply IH].
  destruct (canon (m_ctds_id r)); cbn [mbind result_bind]; [|reflexivity].
  apply IH.
Qed.

Lemma load_info_staged before rows : forall cc names,
  (forall row, row ∈ rows ->
     exists ctds county,
       canon (m_ctds_id row) = Ok ctds /\ before !! ctds = Some county /\
       Py.truthy county = true /\ county_key (m_county row) = county_key county) ->
  same_counties before cc ->
  exists cc' names',
    load_info rows cc names = Ok (cc', names') /\ same_counties before cc'.
Proof.
  induction rows as [|r rows IH]; intros cc names H Hk; cbn [load_info]; [eauto|].
  assert (Hrest : forall row, row ∈ rows ->
     exists ctds county,
       canon (m_ctds_id row) = Ok ctds /\ before !! ctds = Some county /\
       Py.truthy county = true /\ county_key (m_county row) = county_key county)
    by (intros r' Hr'; apply H; right; exact Hr').
  destruct (Py.truthy (m_ctds_id r) && Py.truthy (m_county r))%bool;
    [|apply IH; assumption].
  destruct (H r) as (ctds & county & Hc & Hb & Ht & Hkey); [left|].
  rewrite Hc. cbn [mbind result_bind]. apply IH; [exact Hrest|].
  intros k county' Hlook Ht'.
  destruct (decide (ctds = k)) as [->|Hne].
  - rewrite lookup_insert_eq in Hlook. injection Hlook as <-.
    exists county. auto.
  - rewrite lookup_insert_ne in Hlook by exact Hne. apply (Hk k county' Hlook Ht').
Qed.

(** After the promotion Plan asks for no more than it asked for before,
    and for nothing whose pair the extended table holds. *)
Lemma gaps_shrink (before after : gmap string string)
    (existing existing' : gset (string * string)) c y k :
  same_counties before after -> existing ⊆ existing' ->
  k ∈ needed_at (compute_gaps after existing') (c, y) ->
  k ∈ needed_at (compute_gaps before existing) (c, y) /\
  y ∈ YEARS /\ (k, Py.str_of_int y) ∉ existing'.
Proof.
  intros Hk Hsub Hin.
  apply (proj1 (compute_gaps_spec after existing')) in Hin
    as (county' & Hlook & Ht & -> & Hy & Hnex).
  destruct (Hk k county' Hlook Ht) as (county & Hb & Htb & Hkey).
  split; [|auto].
  apply (proj1 (compute_gaps_spec before existing)).
  exists county. repeat split; auto; set_solver.
Qed.

Lemma gaps_listed (gaps : gmap (string * Z) (gset string)) key needed :
  (key, needed) ∈ merge_sort gap_le (map_to_list gaps) <->
  gaps !! key = Some needed.
Proof. rewrite merge_sort_Permutation. apply elem_of_map_to_list. Qed.

(** A list of gaps for which no candidate resolves to a needed
    identifier is processed without a row, a filled pair or a match-log
    entry. *)
Lemma process_gaps_nothing source existing ccd names gaps : forall st,
  (forall county_lower year needed,
     ((county_lower, year), needed) ∈ gaps ->
     exists log oc,
       gap_candidates source county_lower year = Ok (log, oc) /\
       forall cand ctds,
         cand ∈ default [] oc ->
         ~ resolves_to (county_display_of county_lower) needed cand ctds) ->
  exists st',
    process_gaps source existing ccd names st gaps = Ok st' /\
    new_rows st' = new_rows st /\ filled_pairs st' = filled_pairs st /\
    match_details st' = match_details st.
Proof.
  induction gaps as [|[[c y] needed] gaps IH]; intros st H; cbn [process_gaps].
  - eauto.
  - destruct (H c y needed) as (log & oc & Hgc & Hno); [left|].
    assert (Hnil : (match_candidates existing needed y (county_display_of c)
                      (default [] oc)).1 = []).
    { destruct (match_candidates existing needed y (county_display_of c)
                  (default [] oc)) as [matched unmatched] eqn:Em.
      unfold match_candidates in Em.
      apply match_candidates_from in Em as (Hm & _ & Hne).
      destruct matched as [|[k cl] matched]; [reflexivity|]. exfalso.
      assert (Hcl : cl <> []).
      { eapply Hne; [intros k0 cl0 H0; inversion H0 | left]. }
      destruct cl as [|c0 cl]; [congruence|].
      assert (Hh : holds ((k, c0 :: cl) :: matched) k c0)
        by (exists (c0 :: cl); split; left).
      apply Hm in Hh as [(cl0 & Hin0 & _)|(Hc & Hres)]; [inversion Hin0|].
      apply (Hno c0 k Hc Hres). }
    assert (Hrest : forall c' y' n', ((c', y'), n') ∈ gaps ->
      exists log oc,
        gap_candidates source c' y' = Ok (log, oc) /\
        forall cand ctds, cand ∈ default [] oc ->
          ~ resolves_to (county_display_of c') n' cand ctds)
      by (intros c' y' n' Hin; apply (H c' y' n'); right; exact Hin).
    rewrite process_gap_eq, Hgc. cbn [mbind result_bind fst snd]. cbv zeta.
    destruct oc as [cands|].
    + change (default [] (Some cands)) with cands in *.
      rewrite Hnil. cbn [materialize_all mbind result_bind].
      destruct (IH (say (say st (LogGap (county_display_of c) y (size needed) :: log))
                      (matched_report ccd [] ++
                       unmatched_report
                         (match_candidates existing needed y
                            (county_display_of c) cands).2)) Hrest)
        as (st' & Hrun & Hr & Hf & Hd).
      exists st'. split; [exact Hrun|]. auto.
    + cbn [mbind result_bind].
      destruct (IH (say st (LogGap (county_display_of c) y (size needed) :: log))
                  Hrest) as (st' & Hrun & Hr & Hf & Hd).
      exists st'. split; [exact Hrun|]. auto.
Qed.

Lemma needed_at_lookup (gaps : gmap (string * Z) (gset string)) key k :
  k ∈ needed_at gaps key ->
  exists needed, gaps !! key = Some needed /\ k ∈ needed.
Proof.
  unfold needed_at. destruct (gaps !! key) as [needed|]; cbn; [eauto|].
  intros H. apply not_elem_of_empty in H. destruct H.
Qed.

Lemma needed_at_Some (gaps : gmap (string * Z) (gset string)) key needed :
  gaps !! key = Some needed -> needed_at gaps key = needed.
Proof. unfold needed_at. intros ->. reflexivity. Qed.

(** C3, as stated, fails: [main] never writes to the authoritative
    table, so a second run against the same table and the same source
    stages the same two rows again. *)
Lemma second_run_same_table_not_empty :
  exists st1 st2,
    run_twice scenario_table scenario_directory scenario_source
      = Ok (st1, st2) /\
    map m_candidate (new_rows st1) = ["Jane Doe"; "John Roe"] /\
    map m_candidate (new_rows st2) = ["Jane Doe"; "John Roe"] /\
    new_rows st2 <> [].
Proof.
  eexists _, _. split; [vm_compute; reflexivity|].
  repeat split; discriminate.
Qed.

(** C3, amended. Once the rows staged by a run have been appended to
    the authoritative table, a second run on the same source data
    returns and stages nothing: no row, no filled pair, no match-log
    entry. *)
Theorem second_run_after_promotion (table : list master_row)
    (directory : list ccd_row) (source : string -> option csv_table)
    (st1 : run_state) :
  main table directory source = Ok st1 ->
  exists st2,
    main (table ++ new_rows st1) directory source = Ok st2 /\
    new_rows st2 = [] /\ filled_pairs st2 = ∅ /\ match_details st2 = [].
Proof.
  intros H. apply main_Ok in H as (existing & cc & names & Hload & Hinfo & Hrun).
  apply process_gaps_summary in Hrun as ((rows & Hrows & Hfrom) & Hcov & _).
  cbn [new_rows initial_state app] in Hrows. rewrite Hrows in *. clear Hrows.
  (* what every staged row is *)
  assert (Hrow : forall row, row ∈ rows ->
    exists ctds y county,
      row_pair row = Ok (ctds, Py.str_of_int y) /\
      Py.truthy (m_ctds_id row) = true /\
      canon (m_ctds_id row) = Ok ctds /\
      cc !! ctds = Some county /\ Py.truthy county = true /\
      county_key (m_county row) = county_key county).
  { intros row Hr.
    destruct (Hfrom row Hr) as (c & y & needed & ctds & Hin & Hst).
    destruct Hst as (Hn & Hv & Hy & Hnex & Hfor).
    apply gaps_listed in Hin.
    assert (Hk : ctds ∈ needed_at (compute_gaps cc existing) (c, y))
      by (rewrite (needed_at_Some _ _ _ Hin); exact Hn).
    apply (proj1 (compute_gaps_spec cc existing)) in Hk
      as (county & Hlook & Ht & -> & _ & _).
    destruct (row_for_pair _ _ _ _ Hfor Hv Hy) as [Hp Htr].
    exists ctds, y, county. repeat split; try assumption.
    - destruct Hfor as (-> & _ & _). apply canon_ctds_value, Hv.
    - destruct Hfor as (_ & _ & ->). apply county_key_display, Ht. }
  (* Load of the extended table *)
  destruct (load_pairs_total rows existing) as [existing2 Hload2].
  { intros r Hr. destruct (Hrow r Hr) as (ctds & y & _ & Hp & _). eauto. }
  pose proof (load_pairs_spec _ _ _ Hload2) as Hpairs2.
  destruct (load_info_staged cc rows cc names) as (cc2 & names2 & Hinfo2 & Hsame).
  { intros row Hr. destruct (Hrow row Hr) as (ctds & y & county & _ & _ & Hc & Hrest).
    exists ctds, county. auto. }
  { intros k county' Hlook Ht. exists county'. auto. }
  assert (Hsub : existing ⊆ existing2).
  { intros p Hp. apply Hpairs2. left. exact Hp. }
  (* no candidate resolves to an identifier that is still needed *)
  destruct (process_gaps_nothing source existing2 (load_ccd directory) names2
              (merge_sort gap_le (map_to_list (compute_gaps cc2 existing2)))
              initial_state) as (st2 & Hrun2 & Hr2 & Hf2 & Hd2).
  { intros c y needed2 Hin. apply gaps_listed in Hin.
    pose proof (needed_at_Some _ _ _ Hin) as Hat.
    assert (Hne : needed2 <> ∅)
      by (apply (proj2 (compute_gaps_spec cc2 existing2) _ _ Hin)).
    apply set_choose_L in Hne as [k0 Hk0]. rewrite <- Hat in Hk0.
    destruct (gaps_shrink cc cc2 existing existing2 c y k0 Hsame Hsub Hk0)
      as (Hk1 & _ & _).
    apply needed_at_lookup in Hk1 as (needed & Hlook & _).
    destruct (Hcov c y needed) as (log & oc & Hgc & Hcover).
    { apply gaps_listed. exact Hlook. }
    exists log, oc. split; [exact Hgc|].
    intros cand ctds Hc (Hres & Ht & Hn2).
    rewrite <- Hat in Hn2.
    destruct (gaps_shrink cc cc2 existing existing2 c y ctds Hsame Hsub Hn2)
      as (Hn1 & Hy & Hnex2).
    rewrite (needed_at_Some _ _ _ Hlook) in Hn1.
    destruct (Hcover cand ctds Hc) as (row & Hr & Hfor).
    { repeat split; assumption. }
    { intros Hex. apply Hnex2, Hsub, Hex. }
    destruct (row_for_pair _ _ _ _ Hfor (match_to_ctds_value _ _ _ _ Hres) Hy)
      as [Hp Htr].
    apply Hnex2. apply Hpairs2. right. exists row. auto. }
  exists st2. split; [|auto].
  unfold main. rewrite load_pairs_app, Hload. cbn [mbind result_bind].
  rewrite Hload2. cbn [mbind result_bind].
  rewrite load_info_app, Hinfo. cbn [mbind result_bind fst snd].
  rewrite Hinfo2. cbn [mbind result_bind]. exact Hrun2.
Qed.

(** The scenario, run again after its two staged rows were promoted. *)
Lemma second_run_after_promotion_witness :
  exists st1 st2,
    main scenario_table scenario_directory scenario_source = Ok st1 /\
    length (new_rows st1) = 2%nat /\
    main (scenario_table ++ new_rows st1) scenario_directory scenario_source
      = Ok st2 /\
    new_rows st2 = [].
Proof.
  eexists. 
  destruct (second_run_after_promotion scenario_table scenario_directory
              scenario_source _ ltac:(vm_compute; reflexivity))
    as (st2 & Hrun & Hrows & _).
  exists st2. split; [vm_compute; reflexivity|]. split; [reflexivity|].
  split; [exact Hrun | exact Hrows].
Defined.

(** ** When the extractor and the aggregator return *)

(** A row of the 2016-2024 layout whose vote count [float] rejects, or
    whose count is not positive, is skipped without an exception. *)
Lemma row_office_skips county_name row :
  Num.int_float_str (get row "votes" "0") = Raise ValueError \/
  (exists v, Num.int_float_str (get row "votes" "0") = Ok v /\ v <= 0) ->
  row_office county_name row = Ok None.
Proof.
  intros H. unfold row_office.
  destruct (negb (is_school_board_race _ _)); [reflexivity|].
  destruct (is_metadata_row _); [reflexivity|].
  unfold parse_votes. destruct H as [->|(v & -> & Hv)]; cbn [mbind result_bind].
  - reflexivity.
  - destruct (v <=? 0) eqn:E; [reflexivity|]. apply Z.leb_gt in E. lia.
Qed.

Lemma int_of_float_raises x e :
  Num.int_of_float x = Raise e -> e = ValueError \/ e = OverflowError.
Proof. destruct x; cbn; intros [= <-]; auto. Qed.

Lemma int_float_raises v e :
  int_float v = Raise e -> e = ValueError \/ e = OverflowError.
Proof.
  destruct v as [s|z]; cbn [int_float].
  - unfold Num.int_float_str. destruct (Num.float_of_string s).
    + apply int_of_float_raises.
    + intros [= <-]. auto.
  - unfold Num.int_float_int, Num.float_of_int.
    destruct (z =? 0); cbn [mbind result_bind]; [discriminate|].
    destruct (Num.binary64 _ _) as [[m e0]|]; cbn [mbind result_bind].
    + apply int_of_float_raises.
    + intros [= <-]. auto.
Qed.

(** The aggregator returns whenever no vote-method field of a record
    makes [int(float(...))] overflow. *)
Lemma aggregate_returns recs :
  (forall r, r ∈ recs ->
     subtotal_add (early_voting r) <> Raise OverflowError /\
     subtotal_add (election_day r) <> Raise OverflowError /\
     subtotal_add (provisional r) <> Raise OverflowError) ->
  exists aggs, aggregate_to_candidates recs = Ok aggs.
Proof.
  assert (Hsub : forall v, subtotal_add v <> Raise OverflowError ->
                           exists z, subtotal_add v = Ok z).
  { intros v Hv. unfold subtotal_add in *. destruct (truthy v); [|eauto].
    destruct (int_float v) as [z|e] eqn:E; [eauto|].
    destruct (int_float_raises _ _ E) as [-> | ->]; [eauto | congruence]. }
  intros H. unfold aggregate_to_candidates.
  assert (Hloop : forall agg, exists agg', agg_loop agg recs = Ok agg').
  { induction recs as [|r recs IH]; intros agg; cbn [agg_loop]; [eauto|].
    destruct (H r) as (He & Hd & Hp); [left|].
    apply Hsub in He as [e He]. apply Hsub in Hd as [d Hd].
    apply Hsub in Hp as [p Hp].
    unfold agg_step. rewrite He, Hd, Hp. cbn [mbind result_bind].
    apply IH. intros r' Hr'. apply H. right. exact Hr'. }
  destruct (Hloop []) as [agg ->]. cbn [mbind result_bind]. eauto.
Qed.


(* ===================================================================== *)
(** * Further properties of the pipeline *)
(* ===================================================================== *)

(** ** Letter case and surrounding blanks *)

Lemma upper_char_idem a : Py.upper_char (Py.upper_char a) = Py.upper_char a.
Proof.
  apply Ascii.eqb_eq. revert a.
  apply (forall_ascii
           (fun a => Ascii.eqb (Py.upper_char (Py.upper_char a)) (Py.upper_char a))).
  vm_compute. reflexivity.
Qed.

Lemma upper_lower_char a : Py.upper_char (Py.lower_char a) = Py.upper_char a.
Proof.
  apply Ascii.eqb_eq. revert a.
  apply (forall_ascii
           (fun a => Ascii.eqb (Py.upper_char (Py.lower_char a)) (Py.upper_char a))).
  vm_compute. reflexivity.
Qed.

Lemma is_space_upper_char a : Py.is_space (Py.upper_char a) = Py.is_space a.
Proof.
  apply Bool.eqb_prop. revert a.
  apply (forall_ascii
           (fun a => Bool.eqb (Py.is_space (Py.upper_char a)) (Py.is_space a))).
  vm_compute. reflexivity.
Qed.

Lemma upper_idem s : Py.upper (Py.upper s) = Py.upper s.
Proof.
  unfold Py.upper. rewrite map_chars_map_chars.
  apply map_chars_ext, upper_char_idem.
Qed.

Lemma upper_lower s : Py.upper (Py.lower s) = Py.upper s.
Proof.
  unfold Py.upper, Py.lower. rewrite map_chars_map_chars.
  apply map_chars_ext, upper_lower_char.
Qed.

Lemma map_chars_app f s t :
  Py.map_chars f (s +:+ t) = Py.map_chars f s +:+ Py.map_chars f t.
Proof.
  induction s as [|c s IH]; simpl; [reflexivity | rewrite IH; reflexivity].
Qed.

Lemma upper_app s t : Py.upper (s +:+ t) = Py.upper s +:+ Py.upper t.
Proof. apply map_chars_app. Qed.

Lemma lstrip_upper s : Py.lstrip (Py.upper s) = Py.upper (Py.lstrip s).
Proof.
  unfold Py.upper. induction s as [|c s IH]; cbn [Py.map_chars Py.lstrip];
    [reflexivity|].
  rewrite is_space_upper_char. destruct (Py.is_space c); [exact IH | reflexivity].
Qed.

Lemma rstrip_upper s : Py.rstrip (Py.upper s) = Py.upper (Py.rstrip s).
Proof.
  unfold Py.upper. induction s as [|c s IH]; cbn [Py.map_chars Py.rstrip];
    [reflexivity|].
  rewrite IH, is_space_upper_char.
  destruct (Py.rstrip s); cbn [Py.map_chars];
    [destruct (Py.is_space c)|]; reflexivity.
Qed.

Lemma strip_upper s : Py.strip (Py.upper s) = Py.upper (Py.strip s).
Proof. unfold Py.strip. rewrite lstrip_upper, rstrip_upper. reflexivity. Qed.

(** A text that does not start with a blank. *)
Lemma lstrip_fixed s :
  match s with String c _ => Py.is_space c = false | EmptyString => True end ->
  Py.lstrip s = s.
Proof. destruct s as [|c s]; cbn; [reflexivity | intros ->; reflexivity]. Qed.

Lemma lstrip_head s :
  match Py.lstrip s with
  | String c _ => Py.is_space c = false
  | EmptyString => True
  end.
Proof.
  induction s as [|c s IH]; cbn; [exact I|].
  destruct (Py.is_space c) eqn:E; [exact IH | exact E].
Qed.

Lemma rstrip_head s :
  match s with String c _ => Py.is_space c = false | EmptyString => True end ->
  match Py.rstrip s with
  | String c _ => Py.is_space c = false
  | EmptyString => True
  end.
Proof.
  destruct s as [|c s]; cbn; [auto|]. intros Hc.
  destruct (Py.rstrip s); [rewrite Hc|]; exact Hc.
Qed.

Lemma rstrip_idem s : Py.rstrip (Py.rstrip s) = Py.rstrip s.
Proof.
  induction s as [|c s IH]; [reflexivity|]. cbn [Py.rstrip].
  destruct (Py.rstrip s) as [|d r] eqn:E.
  - destruct (Py.is_space c) eqn:Ec; cbn; [reflexivity | rewrite Ec; reflexivity].
  - cbn [Py.rstrip]. cbn [Py.rstrip] in IH. rewrite IH. reflexivity.
Qed.

Lemma strip_idem s : Py.strip (Py.strip s) = Py.strip s.
Proof.
  unfold Py.strip.
  rewrite (lstrip_fixed (Py.rstrip (Py.lstrip s)))
    by (apply rstrip_head, lstrip_head).
  apply rstrip_idem.
Qed.

Lemma normalize_race_name_key t1 t2 :
  Py.strip (Py.upper t1) = Py.strip (Py.upper t2) ->
  normalize_race_name t1 = normalize_race_name t2.
Proof. unfold normalize_race_name. intros ->. reflexivity. Qed.

Lemma is_metadata_row_key c1 c2 :
  Py.strip (Py.upper c1) = Py.strip (Py.upper c2) ->
  is_metadata_row c1 = is_metadata_row c2.
Proof. unfold is_metadata_row. intros ->. reflexivity. Qed.

(** X1. [is_metadata_row] does not look at letter case or at blanks around
    the label. *)
Theorem is_metadata_row_insensitive (candidate : string) :
  is_metadata_row (Py.upper candidate) = is_metadata_row candidate /\
  is_metadata_row (Py.lower candidate) = is_metadata_row candidate /\
  is_metadata_row (Py.strip candidate) = is_metadata_row candidate.
Proof.
  repeat split; apply is_metadata_row_key.
  - rewrite upper_idem. reflexivity.
  - rewrite upper_lower. reflexivity.
  - rewrite <- strip_upper, strip_idem. reflexivity.
Qed.

Lemma try_texts_key l1 l2 :
  Forall2 (fun a b => Py.strip (Py.upper a) = Py.strip (Py.upper b)) l1 l2 ->
  try_texts l1 = try_texts l2.
Proof.
  induction 1 as [|a b l1 l2 Hab _ IH]; [reflexivity|]. cbn [try_texts].
  rewrite Hab, (normalize_race_name_key a b Hab), IH. reflexivity.
Qed.

Lemma truthy_upper s : Py.truthy (Py.upper s) = Py.truthy s.
Proof. apply truthy_map_chars. Qed.

Lemma nonblank_upper d : nonblank (Py.upper d) = nonblank d.
Proof. unfold nonblank. rewrite strip_upper, !truthy_upper. reflexivity. Qed.

Lemma match_to_ctds_upper office district county :
  match_to_ctds (Py.upper office) (Py.upper district) county =
  match_to_ctds office district county.
Proof.
  unfold match_to_ctds.
  assert (Hc : combined_text (Py.upper office) (Py.upper district) =
               combined_text office district).
  { unfold combined_text. rewrite !upper_app, !upper_idem. reflexivity. }
  rewrite Hc.
  assert (Ht : try_texts (texts_to_try (Py.upper office) (Py.upper district)) =
               try_texts (texts_to_try office district)).
  { apply try_texts_key. unfold texts_to_try. rewrite nonblank_upper.
    destruct (nonblank district); cbn [app];
      repeat constructor;
      rewrite ?upper_app, <- ?strip_upper, ?upper_idem, ?strip_idem;
      reflexivity. }
  rewrite Ht. reflexivity.
Qed.

(** X2. Resolution and classification do not look at letter case: two
    office texts and two district texts that agree once upper-cased get
    the same answer from the resolver (whatever the county) and from the
    classifier. *)
Theorem resolution_case_insensitive (office1 district1 county1
    office2 district2 county2 : string) :
  Py.upper office1 = Py.upper office2 ->
  Py.upper district1 = Py.upper district2 ->
  match_to_ctds office1 district1 county1 = match_to_ctds office2 district2 county2 /\
  is_school_board_race office1 district1 = is_school_board_race office2 district2.
Proof.
  intros Ho Hd.
  assert (Hm : forall c1 c2,
            match_to_ctds office1 district1 c1 = match_to_ctds office2 district2 c2).
  { intros c1 c2.
    rewrite <- (match_to_ctds_upper office1 district1 c1).
    rewrite <- (match_to_ctds_upper office2 district2 c2).
    rewrite Ho, Hd. reflexivity. }
  split; [apply Hm|].
  assert (Hc : Py.upper (office1 +:+ " " +:+ district1) =
               Py.upper (office2 +:+ " " +:+ district2)).
  { rewrite !upper_app, Ho, Hd. reflexivity. }
  unfold is_school_board_race, pipe_rule. rewrite Hc, (Hm "" ""). reflexivity.
Qed.

Lemma resolution_case_insensitive_witness :
  match_to_ctds "Camp Verde usd #28" "" "Yavapai" = Some "4470" /\
  match_to_ctds "Camp Verde usd #28" "" "Yavapai"
    = match_to_ctds "CAMP VERDE USD #28" "" "".
Proof.
  split; [vm_compute; reflexivity|].
  apply (resolution_case_insensitive "Camp Verde usd #28" "" "Yavapai"
           "CAMP VERDE USD #28" "" ""); vm_compute; reflexivity.
Defined.

(** ** What the resolver answers *)

Lemma first_fragment_Some table text ctds :
  first_fragment table text = Some ctds ->
  exists key, (key, ctds) ∈ table /\ Py.contains text key = true.
Proof.
  induction table as [|[key v] rest IH]; cbn [first_fragment]; [discriminate|].
  destruct (Py.contains text key) eqn:E.
  - intros [= ->]. exists key. split; [left | exact E].
  - intros H. destruct (IH H) as (k & Hin & Hk). exists k. split; [right|]; assumption.
Qed.

Lemma first_fragment_None table text :
  first_fragment table text = None <->
  forall key ctds, (key, ctds) ∈ table -> Py.contains text key = false.
Proof.
  induction table as [|[key v] rest IH]; cbn [first_fragment].
  - split; [|reflexivity]. intros _ k c Hin. inversion Hin.
  - destruct (Py.contains text key) eqn:E.
    + split; [discriminate|]. intros H. rewrite (H key v) in E by left. discriminate.
    + rewrite IH. split.
      * intros H k c Hin. apply elem_of_cons in Hin as [Heq|Hin]; [|eauto].
        injection Heq as -> ->. exact E.
      * intros H k c Hin. apply (H k c). right. exact Hin.
Qed.

Lemma first_some_Some {A B : Type} (f : A -> option B) l y :
  first_some f l = Some y -> exists x, x ∈ l /\ f x = Some y.
Proof.
  induction l as [|x l IH]; cbn [first_some]; [discriminate|].
  destruct (f x) eqn:E.
  - intros [= ->]. exists x. split; [left | exact E].
  - intros H. destruct (IH H) as (x' & Hin & Hx). exists x'. split; [right|]; assumption.
Qed.

Lemma first_some_None {A B : Type} (f : A -> option B) l :
  first_some f l = None <-> forall x, x ∈ l -> f x = None.
Proof.
  induction l as [|x l IH]; cbn [first_some].
  - split; [|reflexivity]. intros _ x Hin. inversion Hin.
  - destruct (f x) eqn:E.
    + split; [discriminate|]. intros H. rewrite (H x) in E by left. discriminate.
    + rewrite IH. split.
      * intros H x' Hin. apply elem_of_cons in Hin as [->|Hin]; auto.
      * intros H x' Hin. apply H. right. exact Hin.
Qed.

Lemma match_to_ctds_texts office district county :
  match_to_ctds office district county =
  first_some lookup_fragment (trial_texts office district).
Proof.
  unfold match_to_ctds, trial_texts, texts_to_try.
  rewrite try_texts_first_some.
  destruct (nonblank district); cbn [flat_map app first_some];
    repeat (match goal with
            | |- context [lookup_fragment ?t] =>
                destruct (lookup_fragment t); [reflexivity|]
            end); reflexivity.
Qed.

(** X3. The resolver never guesses: an identifier it returns is the value
    of a fragment of the table that one of the texts it tries contains,
    and it returns [None] exactly when no text it tries contains any
    fragment of the table. *)
Theorem match_to_ctds_only_contained_fragments (office district county : string) :
  (forall ctds,
     match_to_ctds office district county = Some ctds ->
     exists key text,
       (key, ctds) ∈ MANUAL_CTDS_MAP /\ text ∈ trial_texts office district /\
       Py.contains text key = true) /\
  (match_to_ctds office district county = None <->
   forall key ctds text,
     (key, ctds) ∈ MANUAL_CTDS_MAP -> text ∈ trial_texts office district ->
     Py.contains text key = false).
Proof.
  rewrite match_to_ctds_texts. split.
  - intros ctds H. apply first_some_Some in H as (text & Hin & H).
    apply first_fragment_Some in H as (key & Hk & Hc). eauto.
  - rewrite first_some_None. split.
    + intros H key ctds text Hk Hin.
      apply (proj1 (first_fragment_None MANUAL_CTDS_MAP text) (H text Hin) key ctds Hk).
    + intros H text Hin. apply first_fragment_None.
      intros key ctds Hk. apply (H key ctds text Hk Hin).
Qed.

(** ** More on the extractor *)

Ltac row_classified H :=
  repeat match type of H with
         | (if ?b then _ else _) = _ =>
             let E := fresh "E" in destruct b eqn:E; try discriminate H
         end;
  inv_bind H;
  match type of H with
  | (if ?b then _ else _) = _ =>
      let E := fresh "E" in destruct b eqn:E; try discriminate H
  end;
  injection H as <-; split; cbn [county office district]; [reflexivity|];
  match goal with
  | E : negb ?b = false |- ?b = true => apply negb_false_iff in E; exact E
  end.

Lemma row_contest_name_classified county_name row r :
  row_contest_name county_name row = Ok (Some r) -> classified county_name r.
Proof. unfold row_contest_name. intros H. row_classified H. Qed.

Lemma row_contesttitle_classified county_name row r :
  row_contesttitle county_name row = Ok (Some r) -> classified county_name r.
Proof. unfold row_contesttitle. intros H. row_classified H. Qed.

Lemma row_race_classified county_name row r :
  row_race county_name row = Ok (Some r) -> classified county_name r.
Proof. unfold row_race. intros H. row_classified H. Qed.

Lemma row_pinal_classified cn ch vt county_name row r :
  row_pinal cn ch vt county_name row = Ok (Some r) -> classified county_name r.
Proof. unfold row_pinal. intros H. row_classified H. Qed.

Lemma row_office_classified county_name row r :
  row_office county_name row = Ok (Some r) -> classified county_name r.
Proof. unfold row_office. intros H. row_classified H. Qed.

Lemma extract_loop_length step rs : forall acc recs,
  extract_loop step rs acc = Ok recs ->
  (length acc <= length recs <= length acc + length rs)%nat.
Proof.
  induction rs as [|row rest IH]; cbn [extract_loop]; intros acc recs H.
  - injection H as <-. cbn. lia.
  - inv_bind H. apply IH in H. destruct a; rewrite ?length_app in H; cbn in *; lia.
Qed.

(** The loop that ran, for an extraction that returned records. *)
Lemma extract_records_loop tbl county_name year county_lower recs log :
  extract_records tbl county_name year county_lower = Ok (recs, log) ->
  recs = [] \/
  exists step,
    extract_loop step (rows tbl) [] = Ok recs /\
    (forall row r, step row = Ok (Some r) -> classified county_name r).
Proof.
  unfold extract_records. intros H.
  destruct (fieldnames tbl) as [|f fs] eqn:Ef.
  { injection H as <- <-. auto. }
  repeat match type of H with
         | (if ?b then _ else _) = _ => destruct b
         end;
    try (injection H as <- <-; auto; fail);
    repeat match type of H with
           | _ ≫= _ = Ok _ => inv_bind H
           end;
    injection H as <- <-; right; eexists; (split; [eassumption|]);
    eauto using row_contest_name_classified, row_contesttitle_classified,
      row_race_classified, row_pinal_classified, row_office_classified.
Qed.

(** X4. Every record the extractor returns carries the county name it
    was called with, and its office and district texts pass the
    classifier; there is at most one record per row of the file. *)
Theorem extract_records_classified (tbl : csv_table) (county_name : string)
    (year : Z) (county_lower : string) (recs : list precinct_record)
    (log : list log_event) :
  extract_records tbl county_name year county_lower = Ok (recs, log) ->
  (forall r, r ∈ recs ->
     county r = county_name /\
     is_school_board_race (office r) (district r) = true) /\
  (length recs <= length (rows tbl))%nat.
Proof.
  intros H. apply extract_records_loop in H as [->|(step & Hloop & Hstep)].
  { split; [intros r Hr; inversion Hr | cbn; lia]. }
  split.
  - apply Forall_forall.
    apply (extract_loop_inv (classified county_name) step (rows tbl) Hstep [] recs);
      [constructor | exact Hloop].
  - apply extract_loop_length in Hloop. cbn in Hloop. lia.
Qed.

Lemma extract_records_classified_witness :
  exists recs,
    extract_records yavapai_2018 "Yavapai" 2018 "yavapai" = Ok (recs, []) /\
    length recs = 6%nat /\
    (length recs <= length (rows yavapai_2018))%nat.
Proof.
  eexists. split; [vm_compute; reflexivity|]. split; [reflexivity|].
  eapply (extract_records_classified yavapai_2018 "Yavapai" 2018 "yavapai" _ []).
  vm_compute. reflexivity.
Defined.

Lemma blank_race_rejected : is_school_board_race "" "" = false.
Proof. vm_compute. reflexivity. Qed.

Lemma extract_loop_skips step rs :
  (forall row, row ∈ rs -> step row = Ok None) ->
  extract_loop step rs [] = Ok [].
Proof.
  induction rs as [|row rest IH]; intros H; cbn [extract_loop]; [reflexivity|].
  rewrite (H row) by left. cbn [mbind result_bind].
  apply IH. intros r Hr. apply H. right. exact Hr.
Qed.

Lemma get_missing (row : gmap string string) key dflt :
  row !! key = None -> get row key dflt = dflt.
Proof. unfold get. intros ->. reflexivity. Qed.

(** X5. The layouts read the contest by the exact lower-case column
    name, with [''] for a missing key: on a file none of whose rows has
    such a column (as when the header spells the name in another letter
    case) the extractor returns no record and raises nothing. *)
Theorem extract_records_missing_columns (tbl : csv_table) (county_name : string)
    (year : Z) (county_lower : string) :
  (forall row, row ∈ rows tbl -> lacks_contest_columns row) ->
  exists log, extract_records tbl county_name year county_lower = Ok ([], log).
Proof.
  intros Hrows. unfold extract_records.
  destruct (fieldnames tbl) as [|f fs]; [eauto|].
  assert (H1 : extract_loop (row_contest_name county_name) (rows tbl) [] = Ok []).
  { apply extract_loop_skips. intros row Hr.
    destruct (Hrows row Hr) as (Hc & _). unfold row_contest_name.
    rewrite (get_missing row "contest_name" "" Hc), blank_race_rejected.
    reflexivity. }
  assert (H2 : extract_loop (row_contesttitle county_name) (rows tbl) [] = Ok []).
  { apply extract_loop_skips. intros row Hr.
    destruct (Hrows row Hr) as (_ & Hc & _). unfold row_contesttitle.
    rewrite (get_missing row "contesttitle" "" Hc), blank_race_rejected.
    reflexivity. }
  assert (H3 : extract_loop (row_race county_name) (rows tbl) [] = Ok []).
  { apply extract_loop_skips. intros row Hr.
    destruct (Hrows row Hr) as (_ & _ & Hc & _). unfold row_race.
    rewrite (get_missing row "race" "" Hc), blank_race_rejected.
    destruct (match Num.int_of_string _ with Some _ => _ | None => _ end);
      reflexivity. }
  assert (H5 : extract_loop (row_office county_name) (rows tbl) [] = Ok []).
  { apply extract_loop_skips. intros row Hr.
    destruct (Hrows row Hr) as (_ & _ & _ & Ho & Hd). unfold row_office.
    rewrite (get_missing row "office" "" Ho), (get_missing row "district" "" Hd),
      blank_race_rejected.
    reflexivity. }
  repeat match goal with
         | |- context [if ?b then _ else _] => destruct b
         end;
    rewrite ?H1, ?H2, ?H3, ?H5; cbn [mbind result_bind]; eauto.
Qed.

Lemma extract_records_missing_columns_witness :
  extract_records mixed_case_file "Pinal" 2014 "pinal" = Ok ([], []) /\
  exists log, extract_records mixed_case_file "Pinal" 2014 "pinal" = Ok ([], log).
Proof.
  split; [vm_compute; reflexivity|].
  apply extract_records_missing_columns. intros row Hr.
  apply list_elem_of_singleton in Hr. subst row.
  repeat split; vm_compute; reflexivity.
Defined.

(** ** More on the aggregator *)

Lemma string_compare_order : strict_order String.compare.
Proof.
  split; [|split].
  - intros a b. apply OrderedTypeEx.String_as_OT.cmp_eq.
  - intros a b. apply String.compare_antisym.
  - intros a b c H1 H2.
    apply OrderedTypeEx.String_as_OT.cmp_lt.
    apply OrderedTypeEx.String_as_OT.cmp_lt in H1, H2.
    eapply OrderedTypeEx.String_as_OT.lt_trans; eassumption.
Qed.

Lemma pair_compare_order {A B : Type} (cA : A -> A -> comparison)
    (cB : B -> B -> comparison) :
  strict_order cA -> strict_order cB -> strict_order (pair_compare cA cB).
Proof.
  intros (HAe & HAs & HAt) (HBe & HBs & HBt). unfold pair_compare.
  split; [|split].
  - intros [a1 b1] [a2 b2]. cbn [fst snd]. split.
    + intros H. destruct (cA a1 a2) eqn:E1; cbn [lex] in H; try discriminate.
      apply HAe in E1. apply HBe in H. congruence.
    + intros [= -> ->]. rewrite (proj2 (HAe a2 a2) eq_refl). cbn [lex].
      apply HBe. reflexivity.
  - intros [a1 b1] [a2 b2]. cbn [fst snd]. rewrite HAs, HBs.
    destruct (cA a1 a2); reflexivity.
  - intros [a1 b1] [a2 b2] [a3 b3]. cbn [fst snd]. intros H1 H2.
    destruct (cA a1 a2) eqn:E1; cbn [lex] in H1; try discriminate.
    + apply HAe in E1. subst a2.
      destruct (cA a1 a3) eqn:E2; cbn [lex] in *; try discriminate; eauto.
    + destruct (cA a2 a3) eqn:E2; cbn [lex] in H2; try discriminate.
      * apply HAe in E2. subst a3. rewrite E1. reflexivity.
      * rewrite (HAt _ _ _ E1 E2). reflexivity.
Qed.

Lemma lex_assoc a b c : lex (lex a b) c = lex a (lex b c).
Proof. destruct a; reflexivity. Qed.

Lemma key_compare_pairs a b :
  key_compare a b =
  pair_compare (pair_compare (pair_compare (pair_compare
    String.compare String.compare) String.compare) String.compare)
    String.compare a b.
Proof.
  destruct a as [[[[a1 a2] a3] a4] a5], b as [[[[b1 b2] b3] b4] b5].
  unfold key_compare, pair_compare. cbn [fst snd].
  rewrite !lex_assoc. reflexivity.
Qed.

Lemma key_compare_order : strict_order key_compare.
Proof.
  pose proof string_compare_order as HS.
  pose proof (pair_compare_order _ _
    (pair_compare_order _ _
      (pair_compare_order _ _ (pair_compare_order _ _ HS HS) HS) HS) HS)
    as (He & Hs & Ht).
  split; [|split]; intros; rewrite ?key_compare_pairs in *; eauto.
Qed.

Lemma order_le_trans {A : Type} (cmp : A -> A -> comparison) a b c :
  strict_order cmp -> cmp a b <> Gt -> cmp b c <> Gt -> cmp a c <> Gt.
Proof.
  intros (He & Hs & Ht) H1 H2.
  destruct (cmp a b) eqn:E1; try congruence.
  - apply He in E1. subst b. exact H2.
  - destruct (cmp b c) eqn:E2; try congruence.
    + apply He in E2. subst c. congruence.
    + rewrite (Ht _ _ _ E1 E2). discriminate.
Qed.

Lemma order_le_total {A : Type} (cmp : A -> A -> comparison) a b :
  strict_order cmp -> cmp a b <> Gt \/ cmp b a <> Gt.
Proof.
  intros (_ & Hs & _). rewrite (Hs a b).
  destruct (cmp a b); cbn; [left|left|right]; discriminate.
Qed.

#[local] Instance item_le_trans : Transitive item_le.
Proof.
  intros a b c. unfold item_le. apply order_le_trans, key_compare_order.
Qed.

#[local] Instance item_le_total : Total item_le.
Proof.
  intros a b. unfold item_le. apply order_le_total, key_compare_order.
Qed.

Lemma Z_compare_order : strict_order Z.compare.
Proof.
  split; [|split].
  - intros a b. apply Z.compare_eq_iff.
  - intros a b. apply Z.compare_antisym.
  - intros a b c. rewrite !Z.compare_lt_iff. apply Z.lt_trans.
Qed.

Lemma gap_compare_order :
  strict_order (pair_compare String.compare Z.compare).
Proof.
  apply pair_compare_order; [apply string_compare_order | apply Z_compare_order].
Qed.

#[local] Instance gap_le_trans : Transitive gap_le.
Proof.
  intros a b c. unfold gap_le.
  apply (order_le_trans (pair_compare String.compare Z.compare) a.1 b.1 c.1),
    gap_compare_order.
Qed.

#[local] Instance gap_le_total : Total gap_le.
Proof.
  intros a b. unfold gap_le.
  apply (order_le_total (pair_compare String.compare Z.compare) a.1 b.1),
    gap_compare_order.
Qed.

Lemma sorted_items_strict (l : list (agg_key * totals)) :
  StronglySorted item_le l -> NoDup (map fst l) ->
  StronglySorted key_lt (map result_row l).
Proof.
  destruct key_compare_order as (He & _ & _).
  induction 1 as [|x l Hl IH Hx]; cbn [map]; intros Hnd; [constructor|].
  apply NoDup_cons in Hnd as [Hnin Hnd]. constructor; [apply IH, Hnd|].
  apply Forall_forall. intros a Ha.
  apply list_elem_of_fmap in Ha as (y & -> & Hy).
  unfold key_lt. rewrite !key_of_result_row.
  rewrite Forall_forall in Hx. specialize (Hx y Hy). unfold item_le in Hx.
  destruct (key_compare x.1 y.1) eqn:E; [|reflexivity|congruence].
  apply He in E. exfalso. apply Hnin. rewrite E.
  apply list_elem_of_fmap. eauto.
Qed.

(** X6. The aggregates come out in strictly ascending order of their
    key (county, office, district, candidate, party), compared as
    Python compares tuples of strings: no key occurs twice, and the
    order of the input records does not show. *)
Theorem aggregates_strictly_sorted (recs : list precinct_record)
    (aggs : list candidate_aggregate) :
  aggregate_to_candidates recs = Ok aggs ->
  StronglySorted
    (fun a b => key_compare (key_of_agg a) (key_of_agg b) = Lt) aggs.
Proof.
  unfold aggregate_to_candidates. intros H. inv_bind H. injection H as <-.
  apply agg_loop_spec in Ha as (Hnd & _).
  apply (sorted_items_strict (merge_sort item_le a)).
  - apply StronglySorted_merge_sort; apply _.
  - rewrite merge_sort_Permutation. apply Hnd. constructor.
Qed.

Lemma aggregates_strictly_sorted_witness :
  exists aggs,
    aggregate_to_candidates yavapai_records = Ok aggs /\
    StronglySorted
      (fun a b => key_compare (key_of_agg a) (key_of_agg b) = Lt) aggs.
Proof.
  eexists. split; [vm_compute; reflexivity|].
  apply (aggregates_strictly_sorted yavapai_records). vm_compute. reflexivity.
Defined.

Lemma subtotal_add_raises v e : subtotal_add v = Raise e -> e = OverflowError.
Proof.
  unfold subtotal_add. destruct (truthy v); [|discriminate].
  destruct (int_float v) as [z|e0] eqn:E; [discriminate|].
  destruct (int_float_raises _ _ E) as [-> | ->]; [discriminate|].
  intros [= <-]. reflexivity.
Qed.

Lemma agg_step_raises agg r e :
  agg_step agg r = Raise e -> e = OverflowError /\ overflows r.
Proof.
  unfold agg_step, overflows. intros H.
  destruct (subtotal_add (early_voting r)) as [x|e1] eqn:E1;
    cbn [mbind result_bind] in H.
  2:{ injection H as <-. pose proof (subtotal_add_raises _ _ E1). subst. auto. }
  destruct (subtotal_add (election_day r)) as [y|e2] eqn:E2;
    cbn [mbind result_bind] in H.
  2:{ injection H as <-. pose proof (subtotal_add_raises _ _ E2). subst. auto. }
  destruct (subtotal_add (provisional r)) as [z|e3] eqn:E3;
    cbn [mbind result_bind] in H; [discriminate|].
  injection H as <-. pose proof (subtotal_add_raises _ _ E3). subst. auto.
Qed.

Lemma agg_step_overflows agg r :
  overflows r -> agg_step agg r = Raise OverflowError.
Proof.
  unfold agg_step, overflows. intros H.
  destruct (subtotal_add (early_voting r)) as [x|e1] eqn:E1;
    cbn [mbind result_bind].
  2:{ apply subtotal_add_raises in E1. subst. reflexivity. }
  destruct (subtotal_add (election_day r)) as [y|e2] eqn:E2;
    cbn [mbind result_bind].
  2:{ apply subtotal_add_raises in E2. subst. reflexivity. }
  destruct (subtotal_add (provisional r)) as [z|e3] eqn:E3;
    cbn [mbind result_bind].
  2:{ apply subtotal_add_raises in E3. subst. reflexivity. }
  destruct H as [H|[H|H]]; discriminate.
Qed.

Lemma agg_loop_raises rs : forall agg e,
  agg_loop agg rs = Raise e ->
  e = OverflowError /\ exists r, r ∈ rs /\ overflows r.
Proof.
  induction rs as [|r rs IH]; cbn [agg_loop]; intros agg e H; [discriminate|].
  destruct (agg_step agg r) as [agg'|e'] eqn:E; cbn [mbind result_bind] in H.
  - apply IH in H as (-> & r' & Hr' & Ho). split; [reflexivity|].
    exists r'. split; [right; exact Hr' | exact Ho].
  - injection H as <-. apply agg_step_raises in E as (-> & Ho).
    split; [reflexivity|]. exists r. split; [left | exact Ho].
Qed.

Lemma agg_loop_overflows rs : forall agg r,
  r ∈ rs -> overflows r -> agg_loop agg rs = Raise OverflowError.
Proof.
  induction rs as [|r0 rs IH]; intros agg r Hr Ho; [inversion Hr|].
  cbn [agg_loop].
  destruct (agg_step agg r0) as [agg'|e'] eqn:E; cbn [mbind result_bind].
  - apply elem_of_cons in Hr as [->|Hr].
    + rewrite (agg_step_overflows agg r0 Ho) in E. discriminate.
    + eapply IH; eassumption.
  - apply agg_step_raises in E as (-> & _). reflexivity.
Qed.



Lemma group_Permutation k recs recs' :
  recs ≡ₚ recs' -> group k recs ≡ₚ group k recs'.
Proof. intros H. unfold group. rewrite H. reflexivity. Qed.

Lemma totals_after_Permutation t l l' :
  l ≡ₚ l' -> totals_after t l = totals_after t l'.
Proof.
  intros H. unfold totals_after.
  rewrite (sum_Z_Permutation (map total_votes l) (map total_votes l'))
    by (rewrite H; reflexivity).
  rewrite (sum_Z_Permutation (map (fun r => contribution (early_voting r)) l)
             (map (fun r => contribution (early_voting r)) l'))
    by (rewrite H; reflexivity).
  rewrite (sum_Z_Permutation (map (fun r => contribution (election_day r)) l)
             (map (fun r => contribution (election_day r)) l'))
    by (rewrite H; reflexivity).
  rewrite (sum_Z_Permutation (map (fun r => contribution (provisional r)) l)
             (map (fun r => contribution (provisional r)) l'))
    by (rewrite H; reflexivity).
  reflexivity.
Qed.

(** The dict the loop builds from nothing: one item per key that
    occurs, holding the sums over the key's group. *)
Lemma agg_loop_items recs agg :
  agg_loop [] recs = Ok agg ->
  NoDup agg /\
  forall k vals,
    (k, vals) ∈ agg <->
    (exists r, r ∈ recs /\ key_of r = k) /\
    vals = totals_after zero_totals (group k recs).
Proof.
  intros H. apply agg_loop_spec in H as (Hnd & Hget & _ & Hkeys).
  specialize (Hnd (NoDup_nil_2)).
  split; [eapply NoDup_fmap_1; exact Hnd|].
  intros k vals. split.
  - intros Hin. split.
    + assert (Hk : k ∈ map fst agg)
        by (apply list_elem_of_fmap; exists (k, vals); auto).
      apply Hkeys in Hk as [Hk|Hk]; [inversion Hk | exact Hk].
    + specialize (Hget k). cbn [dict_get] in Hget. rewrite <- Hget. symmetry.
      apply dict_get_elem; assumption.
  - intros (Hk & ->).
    assert (Hin : k ∈ map fst agg) by (apply Hkeys; right; exact Hk).
    apply list_elem_of_fmap in Hin as ([k' v'] & -> & Hin). cbn [fst].
    specialize (Hget k'). cbn [dict_get] in Hget. rewrite <- Hget.
    rewrite (dict_get_elem k' v' zero_totals agg Hnd Hin). exact Hin.
Qed.

(** X8. The aggregator's result does not depend on the order of the
    records: two lists that hold the same records, in any order, give
    the same aggregates in the same order, or fail alike. *)
Theorem aggregate_order_independent (recs recs' : list precinct_record) :
  recs ≡ₚ recs' ->
  aggregate_to_candidates recs = aggregate_to_candidates recs'.
Proof.
  intros Hp. unfold aggregate_to_candidates.
  destruct (agg_loop [] recs) as [agg|e] eqn:E,
           (agg_loop [] recs') as [agg'|e'] eqn:E'; cbn [mbind result_bind].
  - f_equal. f_equal.
    apply agg_loop_items in E as (Hnd & Hin), E' as (Hnd' & Hin').
    assert (Hperm : agg ≡ₚ agg').
    { apply NoDup_Permutation; [assumption..|]. intros [k vals].
      rewrite Hin, Hin'.
      rewrite (totals_after_Permutation _ _ _ (group_Permutation k _ _ Hp)).
      split; intros ((r & Hr & Hk) & Hv); (split; [|exact Hv]); exists r;
        (split; [|exact Hk]); [rewrite <- Hp | rewrite Hp]; exact Hr. }
    apply (StronglySorted_unique_strong item_le).
    + intros x1 x2 H1 H2 H12 H21.
      rewrite merge_sort_Permutation in H1, H2.
      destruct key_compare_order as (He & Hs & _).
      unfold item_le in H12, H21. rewrite (Hs x1.1 x2.1) in H21.
      destruct (key_compare x1.1 x2.1) eqn:Ek; cbn in H21; try congruence.
      apply He in Ek. destruct x1 as [k1 v1], x2 as [k2 v2]. cbn [fst] in Ek.
      subst k2. rewrite Hperm in H1.
      apply Hin' in H1 as (_ & ->), H2 as (_ & ->). reflexivity.
    + apply StronglySorted_merge_sort; apply _.
    + apply StronglySorted_merge_sort; apply _.
    + rewrite !merge_sort_Permutation. exact Hperm.
  - exfalso. apply agg_loop_raises in E' as (_ & r & Hr & Ho).
    rewrite <- Hp in Hr. rewrite (agg_loop_overflows _ _ _ Hr Ho) in E.
    discriminate.
  - exfalso. apply agg_loop_raises in E as (_ & r & Hr & Ho).
    rewrite Hp in Hr. rewrite (agg_loop_overflows _ _ _ Hr Ho) in E'.
    discriminate.
  - apply agg_loop_raises in E as (-> & _), E' as (-> & _). reflexivity.
Qed.

Lemma aggregate_order_independent_witness :
  aggregate_to_candidates yavapai_records =
  aggregate_to_candidates (rev yavapai_records).
Proof.
  apply aggregate_order_independent. symmetry. apply Permutation_rev.
Defined.

(** ** Exceptions *)

Lemma parse_votes_raises votes e : parse_votes votes = Raise e -> e = OverflowError.
Proof.
  unfold parse_votes.
  destruct (Num.int_float_str votes) as [v|e0] eqn:E; [discriminate|].
  destruct (int_float_raises (VStr votes) e0 E) as [-> | ->]; [discriminate|].
  intros [= <-]. reflexivity.
Qed.

Ltac row_raises H :=
  repeat match type of H with
         | (if ?b then _ else _) = _ => destruct b; try discriminate H
         end;
  match type of H with
  | (parse_votes ?v ≫= _) = _ =>
      let E := fresh "E" in
      destruct (parse_votes v) as [?|?] eqn:E; cbn [mbind result_bind] in H;
      [ repeat match type of H with
               | (if ?b then _ else _) = _ => destruct b; try discriminate H
               end
      | injection H as <-; exact (parse_votes_raises _ _ E) ]
  end.




Lemma row_pinal_raises cn ch vt county_name row e :
  row_pinal cn ch vt county_name row = Raise e -> e = OverflowError.
Proof. unfold row_pinal. intros H. row_raises H. Qed.

















(** The county-years Plan lists are election years. *)
Lemma planned_years ctds_county existing gap :
  gap ∈ merge_sort gap_le (map_to_list (compute_gaps ctds_county existing)) ->
  gap.1.2 ∈ YEARS.
Proof.
  destruct gap as [[c y] needed]. intros Hg. cbn [fst snd].
  apply gaps_listed in Hg.
  destruct (compute_gaps_spec ctds_county existing) as (Hin & Hne).
  pose proof (Hne _ _ Hg) as Hn.
  apply set_choose_L in Hn as [k Hk].
  rewrite <- (needed_at_Some _ _ _ Hg) in Hk.
  apply Hin in Hk as (county & _ & _ & _ & Hy & _). exact Hy.
Qed.






(** ** Where the staged rows come from *)

(** What the second pass of Load records: a county for an identifier
    is the county of a row of the table that holds the identifier. *)
Lemma load_info_counties table : forall cc names cc' names',
  load_info table cc names = Ok (cc', names') ->
  forall k county,
    cc' !! k = Some county ->
    cc !! k = Some county \/
    exists r, r ∈ table /\ Py.truthy (m_ctds_id r) = true /\
              canon (m_ctds_id r) = Ok k /\ m_county r = county.
Proof.
  induction table as [|r rest IH]; cbn [load_info]; intros cc names cc' names' H.
  - injection H as <- <-. auto.
  - intros k county Hk.
    destruct (Py.truthy (m_ctds_id r)) eqn:Et; cbn [andb] in H.
    2:{ destruct (IH _ _ _ _ H k county Hk) as [?|(r' & Hr' & ?)]; [auto|].
        right. exists r'. split; [right; exact Hr' | assumption]. }
    destruct (Py.truthy (m_county r)) eqn:Ec.
    2:{ destruct (IH _ _ _ _ H k county Hk) as [?|(r' & Hr' & ?)]; [auto|].
        right. exists r'. split; [right; exact Hr' | assumption]. }
    inv_bind H.
    destruct (IH _ _ _ _ H k county Hk) as [Hc|(r' & Hr' & ?)].
    + destruct (decide (k = a)) as [->|Hne].
      * rewrite lookup_insert_eq in Hc. injection Hc as <-.
        right. exists r. split; [left | auto].
      * rewrite lookup_insert_ne in Hc by congruence. auto.
    + right. exists r'. split; [right; exact Hr' | assumption].
Qed.

(** X12. A run never invents a district: every row it stages is for an
    identifier that the authoritative table already holds and that the
    resolver's table can answer with, for one of the six election
    years, and its county is the display name of the county that the
    table records for that identifier. *)
Theorem staged_rows_known (table : list master_row) (directory : list ccd_row)
    (source : string -> option csv_table) (st : run_state) :
  main table directory source = Ok st ->
  forall row, row ∈ new_rows st ->
    exists r ctds year,
      r ∈ table /\ canon (m_ctds_id r) = Ok ctds /\
      ctds ∈ map snd MANUAL_CTDS_MAP /\ year ∈ YEARS /\
      m_ctds_id row = ctds +:+ ".0" /\
      m_year row = Py.str_of_int year +:+ ".0" /\
      m_county row = county_display_of (county_key (m_county r)).
Proof.
  intros H row Hrow.
  apply main_Ok in H as (existing & cc & names & _ & Hinfo & Hrun).
  apply process_gaps_summary in Hrun as ((rows & Hrows & Hstaged) & _).
  cbn [initial_state new_rows app] in Hrows. rewrite Hrows in Hrow.
  destruct (Hstaged row Hrow) as (c & y & needed & ctds & Hgap & Hs).
  destruct Hs as (Hneed & Hval & Hy & _ & Hid & Hyear & Hcounty).
  apply gaps_listed in Hgap.
  destruct (compute_gaps_spec cc existing) as (Hin & _).
  rewrite <- (needed_at_Some _ _ _ Hgap) in Hneed.
  apply Hin in Hneed as (county & Hcc & _ & -> & _).
  destruct (load_info_counties _ _ _ _ _ Hinfo ctds county Hcc)
    as [Hc|(r & Hr & _ & Hcanon & <-)].
  { rewrite lookup_empty in Hc. discriminate. }
  exists r, ctds, y. repeat split; assumption.
Qed.

Lemma staged_rows_known_witness :
  exists st,
    main scenario_table scenario_directory scenario_source = Ok st /\
    map m_candidate (new_rows st) = ["Jane Doe"; "John Roe"] /\
    forall row, row ∈ new_rows st ->
      exists r ctds year,
        r ∈ scenario_table /\ canon (m_ctds_id r) = Ok ctds /\
        ctds ∈ map snd MANUAL_CTDS_MAP /\ year ∈ YEARS /\
        m_ctds_id row = ctds +:+ ".0" /\
        m_year row = Py.str_of_int year +:+ ".0" /\
        m_county row = county_display_of (county_key (m_county r)).
Proof.
  eexists. split; [vm_compute; reflexivity|]. split; [vm_compute; reflexivity|].
  apply (staged_rows_known scenario_table scenario_directory scenario_source).
  vm_compute. reflexivity.
Defined.

(** X13. Plan lists a county-year exactly when some identifier of the
    table, recorded under that county, lacks that election year, and
    lists under it exactly those identifiers: the set is never empty,
    the year is one of the six election years, and the order in which
    the identifiers are traversed does not matter. *)
Theorem plan_lists_exact_gaps (ctds_county : gmap string string)
    (existing_pairs : gset (string * string)) (county_lower : string)
    (year : Z) (needed : gset string) :
  ((county_lower, year), needed) ∈
    merge_sort gap_le (map_to_list (compute_gaps ctds_county existing_pairs)) <->
  needed <> ∅ /\
  forall ctds,
    ctds ∈ needed <->
    exists county,
      ctds_county !! ctds = Some county /\ Py.truthy county = true /\
      county_lower = county_key county /\ year ∈ YEARS /\
      (ctds, Py.str_of_int year) ∉ existing_pairs.
Proof.
  destruct (compute_gaps_spec ctds_county existing_pairs) as (Hin & Hne).
  rewrite gaps_listed. split.
  - intros Hg. split; [eapply Hne, Hg|]. intros ctds.
    rewrite <- (needed_at_Some _ _ _ Hg). apply Hin.
  - intros (Hn & Hchar).
    apply set_choose_L in Hn as [k Hk].
    pose proof (proj2 (Hin county_lower year k) (proj1 (Hchar k) Hk)) as Hk'.
    apply needed_at_lookup in Hk' as (needed' & Hg & _).
    rewrite Hg. f_equal. apply set_eq. intros ctds.
    rewrite Hchar, <- (needed_at_Some _ _ _ Hg). apply Hin.
Qed.

(** ** What a county-year prints about unresolved races *)

(** X14. The races a county-year reports as unmatched are exactly the
    (office, district) pairs of the candidates of its file to which the
    resolver gives no identifier: none is left out and no resolved race
    is listed. *)
Theorem unresolved_races_reported (source : string -> option csv_table)
    (existing_pairs : gset (string * string))
    (ccd_districts : gmap string (string * string))
    (ctds_names : gmap string (gset string))
    (st st' : run_state) (county_lower : string) (year : Z)
    (needed : gset string) (log : list log_event)
    (cands : list candidate_aggregate) :
  process_gap source existing_pairs ccd_districts ctds_names st
    ((county_lower, year), needed) = Ok st' ->
  gap_candidates source county_lower year = Ok (log, Some cands) ->
  exists events,
    report st' = report st ++ events /\
    forall office district,
      (exists races, LogUnmatched races ∈ events /\ (office, district) ∈ races) <->
      (exists cand, cand ∈ cands /\
         agg_office cand = office /\ agg_district cand = district /\
         match_to_ctds office district (county_display_of county_lower) = None).
Proof.
  intros H Hc.
  apply process_gap_spec in H as (log' & oc & Hc' & _ & _ & _ & Hrep).
  rewrite Hc in Hc'. injection Hc' as <- <-. cbn [default] in Hrep.
  change (id cands) with cands in Hrep.
  destruct (match_candidates existing_pairs needed year
              (county_display_of county_lower) cands) as [matched unmatched] eqn:Em.
  cbn [fst snd] in Hrep.
  apply match_candidates_from in Em as (_ & Hun & _).
  eexists. split; [exact Hrep|]. intros office district. split.
  - intros (races & He & Hr).
    assert (Hm : event_mentions "" office district (LogUnmatched races) = true).
    { cbn [event_mentions]. apply existsb_exists. exists (office, district).
      split; [apply list_elem_of_In, Hr|]. cbn [fst snd].
      rewrite !String.eqb_refl. reflexivity. }
    apply elem_of_cons in He as [He|He]; [discriminate|].
    apply elem_of_app in He as [He|He].
    { rewrite (gap_candidates_log _ _ _ _ _ "" office district Hc _ He) in Hm.
      discriminate. }
    apply elem_of_app in He as [He|He].
    { unfold matched_report in He. destruct matched; [inversion He|].
      apply list_elem_of_singleton in He. discriminate. }
    destruct (unmatched_report_mentions _ _ _ _ _ He Hm) as (u & Hu & <- & <-).
    apply Hun in Hu as [Hu|(Hu & Hnone)]; [inversion Hu|]. eauto.
  - intros (cand & Hcand & <- & <- & Hnone).
    assert (Hu : cand ∈ unmatched) by (apply Hun; auto).
    unfold unmatched_report. destruct unmatched as [|u0 us]; [inversion Hu|].
    eexists. split.
    + apply elem_of_cons. right. apply elem_of_app. right.
      apply elem_of_app. right. apply list_elem_of_singleton. reflexivity.
    + rewrite merge_sort_Permutation, elem_of_remove_dups.
      apply list_elem_of_fmap. exists cand. auto.
Qed.


Lemma unresolved_races_reported_witness :
  exists st' log cands,
    process_gap scenario_source scenario_pairs (load_ccd scenario_directory) ∅
      initial_state (("yavapai", 2018), {[ "4470" ]}) = Ok st' /\
    gap_candidates scenario_source "yavapai" 2018 = Ok (log, Some cands) /\
    exists events,
      report st' = report initial_state ++ events /\
      forall office district,
        (exists races,
           LogUnmatched races ∈ events /\ (office, district) ∈ races) <->
        (exists cand, cand ∈ cands /\
           agg_office cand = office /\ agg_district cand = district /\
           match_to_ctds office district (county_display_of "yavapai") = None).
Proof.
  eexists _, _, _.
  split; [vm_compute; reflexivity|]. split; [vm_compute; reflexivity|].
  eapply (unresolved_races_reported scenario_source scenario_pairs
            (load_ccd scenario_directory) ∅ initial_state _ "yavapai" 2018
            {[ "4470" ]}).
  - vm_compute. reflexivity.
  - vm_compute. reflexivity.
Defined.

(** ** County keys, names and URLs *)



Lemma longest_fold (l : list string) : forall best,
  let r := fold_left
             (fun best s => if Nat.leb (Py.len best) (Py.len s) then s else best)
             l best in
  (r = best \/ r ∈ l) /\
  (Py.len best <= Py.len r)%nat /\
  forall s, s ∈ l -> (Py.len s <= Py.len r)%nat.
Proof.
  induction l as [|x l IH]; intros best; cbn [fold_left].
  - split; [left; reflexivity|]. split; [lia|]. intros s Hs. inversion Hs.
  - specialize (IH (if Nat.leb (Py.len best) (Py.len x) then x else best)).
    cbn zeta in IH. destruct IH as (Hr & Hb & Hl).
    destruct (Nat.leb (Py.len best) (Py.len x)) eqn:E.
    + apply Nat.leb_le in E. split.
      { right. destruct Hr as [->|Hr]; [left | right; exact Hr]. }
      split; [lia|]. intros s Hs.
      apply elem_of_cons in Hs as [->|Hs]; [exact Hb | apply Hl, Hs].
    + apply Nat.leb_gt in E. split.
      { destruct Hr as [Hr|Hr]; [left; exact Hr | right; right; exact Hr]. }
      split; [exact Hb|]. intros s Hs.
      apply elem_of_cons in Hs as [->|Hs]; [lia | apply Hl, Hs].
Qed.

(** X16. The school-district name given to a staged row, when the table
    knows names for the identifier, is one of those names and no known
    name is longer: this holds for whatever order the set of names is
    traversed in. *)
Theorem longest_name_is_longest (names : gset string) :
  names <> ∅ ->
  longest_name names ∈ names /\
  forall s, s ∈ names -> (Py.len s <= Py.len (longest_name names))%nat.
Proof.
  intros Hne. unfold longest_name.
  destruct (elements names) as [|x l] eqn:El.
  { apply elements_empty_inv in El. apply leibniz_equiv in El. contradiction. }
  cbn [fold_left]. change (Py.len "") with 0%nat. cbn [Nat.leb].
  destruct (longest_fold l x) as (Hr & Hb & Hl). cbn zeta in Hr, Hb, Hl.
  split.
  - apply elem_of_elements. rewrite El.
    destruct Hr as [->|Hr]; [left | right; exact Hr].
  - intros s Hs. apply elem_of_elements in Hs. rewrite El in Hs.
    apply elem_of_cons in Hs as [->|Hs]; [exact Hb | apply Hl, Hs].
Qed.

Lemma longest_name_is_longest_witness :
  longest_name {[ "Mayer USD"; "Mayer Unified School District" ]}
    ∈ ({[ "Mayer USD"; "Mayer Unified School District" ]} : gset string) /\
  forall s, s ∈ ({[ "Mayer USD"; "Mayer Unified School District" ]} : gset string) ->
    (Py.len s <= Py.len (longest_name
                           {[ "Mayer USD"; "Mayer Unified School District" ]}))%nat.
Proof.
  apply longest_name_is_longest.
  intros H. apply (f_equal size) in H. vm_compute in H. discriminate.
Defined.

Lemma startswith_append p s : Py.startswith (p +:+ s) p = true.
Proof.
  induction p as [|a p IH]; cbn [Py.startswith append String.app].
  - destruct s; reflexivity.
  - simpl. rewrite Ascii.eqb_refl. exact IH.
Qed.

Lemma year_cases year :
  year ∈ YEARS ->
  year = 2014 \/ year = 2016 \/ year = 2018 \/ year = 2020 \/ year = 2022 \/
  year = 2024.
Proof.
  unfold YEARS. rewrite !elem_of_cons, elem_of_nil. tauto.
Qed.

(** X17. For every county, [get_county_url] returns a URL exactly for
    the six election years, and the URL lies under the base address of
    the OpenElections repository; for any other year the look-up of the
    date prefix raises [KeyError]. *)
Theorem get_county_url_years (year : Z) (county_lower : string) :
  (year ∈ YEARS ->
   exists url, get_county_url year county_lower = Ok url /\
               Py.startswith url BASE_URL = true) /\
  (year ∉ YEARS -> get_county_url year county_lower = Raise KeyError).
Proof.
  split.
  - intros Hy. apply year_cases in Hy.
    destruct Hy as [-> | [-> | [-> | [-> | [-> | ->]]]]];
      (eexists; split; [reflexivity|]; apply startswith_append).
  - intros Hy. unfold get_county_url, subscript, DATE_PREFIXES.
    cbn [assoc].
    repeat match goal with
           | |- context [decide (year = ?y)] =>
               destruct (decide (year = y)) as [->|?];
               [exfalso; apply Hy; unfold YEARS; set_solver|]
           end.
    reflexivity.
Qed.

Lemma get_county_url_years_witness :
  exists url, get_county_url 2024 "la_paz" = Ok url /\
              Py.startswith url BASE_URL = true.
Proof.
  apply (proj1 (get_county_url_years 2024 "la_paz")). do 5 right. left.
Defined.

(** ** Line endings of a downloaded file *)

Lemma contains_char_cons a c s :
  Py.contains (String c s) (String a "") =
  (Ascii.eqb a c || Py.contains s (String a ""))%bool.
Proof.
  cbn [Py.contains Py.startswith]. destruct s; rewrite andb_true_r; reflexivity.
Qed.

Lemma contains_char_nil a : Py.contains "" (String a "") = false.
Proof. reflexivity. Qed.

Lemma contains_map_chars a f s :
  (forall c, Ascii.eqb a (f c) = false) ->
  Py.contains (Py.map_chars f s) (String a "") = false.
Proof.
  intros Hf. induction s as [|c s IH]; cbn [Py.map_chars]; [reflexivity|].
  rewrite contains_char_cons, Hf, IH. reflexivity.
Qed.

Lemma map_chars_absent a b s :
  Py.contains s (String a "") = false ->
  Py.map_chars (fun x => if Ascii.eqb x a then b else x) s = s.
Proof.
  induction s as [|c s IH]; cbn [Py.map_chars]; [reflexivity|].
  rewrite contains_char_cons. intros H. apply orb_false_iff in H as [H1 H2].
  rewrite Ascii.eqb_sym, H1, (IH H2). reflexivity.
Qed.

Lemma replace_from_absent a old new s : forall fuel,
  Py.contains s (String a "") = false ->
  Py.replace_from fuel (String a old) new s = s.
Proof.
  induction s as [|c s IH]; intros fuel H; destruct fuel as [|fuel];
    cbn [Py.replace_from]; try reflexivity.
  rewrite contains_char_cons in H. apply orb_false_iff in H as [H1 H2].
  cbn [Py.startswith]. rewrite H1. cbn [andb]. rewrite (IH fuel H2). reflexivity.
Qed.

Lemma replace_absent a old new s :
  Py.contains s (String a "") = false ->
  Py.replace (String a old) new s = s.
Proof. apply replace_from_absent. Qed.

Lemma replace_one_char a b s :
  Py.replace (String a "") (String b "") s =
  Py.map_chars (fun x => if Ascii.eqb x a then b else x) s.
Proof. unfold Py.replace. apply replace_char. unfold Py.len. lia. Qed.

(** X18. What [download_file] hands on has no carriage return left: it
    is free of ['\r'] whatever the response held, a text that is
    already free of it is handed on unchanged (so normalizing twice
    changes nothing), and a failed download stays [None]. *)
Theorem download_file_newlines (response : option string) :
  (forall out, download_file response = Some out ->
     Py.contains out (String "013" "") = false /\
     download_file (Some out) = Some out) /\
  (forall text, Py.contains text (String "013" "") = false ->
     download_file (Some text) = Some text) /\
  (download_file response = None <-> response = None).
Proof.
  assert (Hfree : forall text, Py.contains text (String "013" "") = false ->
                               download_file (Some text) = Some text).
  { intros text H. unfold download_file.
    rewrite (replace_absent _ _ _ _ H), (replace_absent _ _ _ _ H).
    reflexivity. }
  split; [|split].
  - intros out H.
    assert (Hout : Py.contains out (String "013" "") = false).
    { destruct response as [text|]; [|discriminate]. cbn [download_file] in H.
      injection H as <-. rewrite replace_one_char.
      apply contains_map_chars. intros c.
      destruct (Ascii.eqb c "013") eqn:E; [reflexivity|].
      rewrite Ascii.eqb_sym. exact E. }
    split; [exact Hout | apply Hfree, Hout].
  - exact Hfree.
  - destruct response; cbn [download_file]; split; congruence.
Qed.

Lemma download_file_newlines_witness :
  download_file (Some (String "a" (String "013" (String "010" (String "b"
                   (String "013" (String "c" (String "010" ""))))))))
  = Some (String "a" (String "010" (String "b" (String "010"
            (String "c" (String "010" "")))))) /\
  Py.contains (String "a" (String "010" (String "b" (String "010"
                 (String "c" (String "010" ""))))))
    (String "013" "") = false /\
  download_file (Some (String "a" (String "010" (String "b" (String "010"
                   (String "c" (String "010" ""))))))) =
  Some (String "a" (String "010" (String "b" (String "010"
          (String "c" (String "010" "")))))).
Proof.
  split; [reflexivity|].
  apply (proj1 (download_file_newlines
                  (Some (String "a" (String "013" (String "010" (String "b"
                     (String "013" (String "c" (String "010" "")))))))))).
  reflexivity.
Defined.

(** ** The match log *)

(** The identifiers logged while [matched] is materialized for a year:
    the keys of the dict, in order, whose pair the table lacks. *)
Lemma materialize_all_details existing ccd names year disp matched : forall st st',
  materialize_all existing ccd names year disp st matched = Ok st' ->
  exists ks,
    map md_pair (match_details st') =
      map md_pair (match_details st) ++ map (fun k => (k, year)) ks /\
    (forall k, k ∈ ks -> k ∈ map fst matched /\
                         (k, Py.str_of_int year) ∉ existing) /\
    (NoDup (map fst matched) -> NoDup ks) /\
    filled_pairs st' =
      list_to_set (map (fun k => (k, Py.str_of_int year)) ks) ∪ filled_pairs st.
Proof.
  induction matched as [|[ctds cl] rest IH]; intros st st' H;
    cbn [materialize_all] in H.
  - injection H as <-. exists []. cbn [map list_to_set]. rewrite app_nil_r.
    split; [reflexivity|]. split; [intros k Hk; inversion Hk|].
    split; [constructor | rewrite union_empty_l_L; reflexivity].
  - inv_bind H. apply materialize_spec in Ha as (_ & Ha).
    apply IH in H as (ks & Hmd & Hks & Hnd & Hfp).
    destruct (decide ((ctds, Py.str_of_int year) ∈ existing)) as [Hex|Hex].
    + subst a. exists ks. split; [exact Hmd|]. split.
      { intros k Hk. destruct (Hks k Hk). split; [right|]; assumption. }
      split; [|exact Hfp].
      cbn [map fst]. intros Hn. apply NoDup_cons in Hn as [_ Hn]. auto.
    + destruct Ha as (rows & md & _ & _ & _ & Hf & Hm & Hc & Hy).
      exists (ctds :: ks). split.
      { rewrite Hmd, Hm, map_app. cbn [map]. rewrite <- app_assoc.
        cbn [app]. rewrite <- Hc, <- Hy. reflexivity. }
      split.
      { intros k Hk. apply elem_of_cons in Hk as [->|Hk].
        - split; [left | exact Hex].
        - destruct (Hks k Hk). split; [right|]; assumption. }
      split.
      { cbn [map fst]. intros Hn. apply NoDup_cons in Hn as [Hnin Hn].
        apply NoDup_cons. split; [|auto].
        intros Hk. apply Hnin. apply Hks, Hk. }
      rewrite Hfp, Hf. cbn [map list_to_set].
      rewrite (union_comm_L {[ _ ]} (list_to_set _)), <- union_assoc_L.
      reflexivity.
Qed.

Lemma match_step_keys existing needed year disp st cand :
  NoDup (map fst st.1) /\ (forall k, k ∈ map fst st.1 -> k ∈ needed) ->
  let st' := match_step existing needed year disp st cand in
  NoDup (map fst st'.1) /\ (forall k, k ∈ map fst st'.1 -> k ∈ needed).
Proof.
  destruct st as [matched unmatched]. cbn [fst]. intros [Hnd Hin].
  unfold match_step.
  destruct (match_to_ctds (agg_office cand) (agg_district cand) disp) as [ctds|];
    [|cbn [fst]; auto].
  destruct (Py.truthy ctds); cbn [andb]; [|cbn [fst]; auto].
  destruct (bool_decide (ctds ∈ needed)) eqn:E.
  - apply bool_decide_eq_true in E. cbn [fst]. split.
    + apply dict_update_NoDup, Hnd.
    + intros k. rewrite dict_update_keys. case_decide; [apply Hin|].
      intros Hk. apply elem_of_app in Hk as [Hk|Hk]; [apply Hin, Hk|].
      apply list_elem_of_singleton in Hk. subst k. exact E.
  - match goal with
    | |- context [if ?b then _ else _] => destruct b
    end; cbn [fst]; auto.
Qed.

Lemma match_candidates_keys existing needed year disp cands :
  let m := match_candidates existing needed year disp cands in
  NoDup (map fst m.1) /\ (forall k, k ∈ map fst m.1 -> k ∈ needed).
Proof.
  unfold match_candidates.
  assert (H : forall st,
    NoDup (map fst st.1) /\ (forall k, k ∈ map fst st.1 -> k ∈ needed) ->
    let st' := fold_left (match_step existing needed year disp) cands st in
    NoDup (map fst st'.1) /\ (forall k, k ∈ map fst st'.1 -> k ∈ needed)).
  { induction cands as [|c cands IH]; intros st Hst; cbn [fold_left]; [exact Hst|].
    apply IH, match_step_keys, Hst. }
  apply H. cbn [fst map]. split; [constructor|]. intros k Hk. inversion Hk.
Qed.

Lemma process_gap_details source existing ccd names st county_lower year needed st' :
  process_gap source existing ccd names st ((county_lower, year), needed) = Ok st' ->
  exists ks,
    map md_pair (match_details st') =
      map md_pair (match_details st) ++ map (fun k => (k, year)) ks /\
    NoDup ks /\
    (forall k, k ∈ ks -> k ∈ needed /\ (k, Py.str_of_int year) ∉ existing) /\
    filled_pairs st' =
      list_to_set (map (fun k => (k, Py.str_of_int year)) ks) ∪ filled_pairs st.
Proof.
  rewrite process_gap_eq. intros H. inv_bind H. destruct a as [log oc].
  cbn [fst snd] in H. cbn zeta in H. destruct oc as [cands|].
  - pose proof (match_candidates_keys existing needed year
                  (county_display_of county_lower) cands) as [Hnd Hin].
    apply materialize_all_details in H as (ks & Hmd & Hks & Hn & Hfp).
    exists ks. split; [exact Hmd|]. split; [apply Hn, Hnd|].
    split; [|exact Hfp].
    intros k Hk. destruct (Hks k Hk) as [H1 H2]. split; [apply Hin, H1 | exact H2].
  - injection H as <-. exists []. cbn [map list_to_set say match_details
      filled_pairs]. rewrite app_nil_r.
    split; [reflexivity|]. split; [constructor|].
    split; [intros k Hk; inversion Hk | rewrite union_empty_l_L; reflexivity].
Qed.

Lemma process_gaps_details source existing ccd names gaps : forall st st',
  StronglySorted gaps_apart gaps ->
  process_gaps source existing ccd names st gaps = Ok st' ->
  exists ps,
    map md_pair (match_details st') = map md_pair (match_details st) ++ ps /\
    NoDup ps /\
    (forall k y, (k, y) ∈ ps ->
       exists c needed, ((c, y), needed) ∈ gaps /\ k ∈ needed) /\
    filled_pairs st' =
      list_to_set (map (fun p => (p.1, Py.str_of_int p.2)) ps) ∪ filled_pairs st.
Proof.
  induction gaps as [|[[c y] needed] rest IH]; intros st st' Hs H;
    cbn [process_gaps] in H.
  - injection H as <-. exists []. cbn [map list_to_set]. rewrite app_nil_r.
    split; [reflexivity|]. split; [constructor|].
    split; [intros k y Hk; inversion Hk | rewrite union_empty_l_L; reflexivity].
  - inv_bind H. apply StronglySorted_inv in Hs as [Hs Hall].
    apply process_gap_details in Ha as (ks & Hmd1 & Hnd1 & Hks & Hfp1).
    apply IH in H as (ps & Hmd2 & Hnd2 & Hps & Hfp2); [|exact Hs].
    exists (map (fun k => (k, y)) ks ++ ps). split.
    { rewrite Hmd2, Hmd1, <- app_assoc. reflexivity. }
    split.
    { apply NoDup_app. split; [|split; [|exact Hnd2]].
      - apply NoDup_fmap_2; [|exact Hnd1]. intros k1 k2 [= ->]. reflexivity.
      - intros [k y'] Hk Hp. apply list_elem_of_fmap in Hk as (k' & [= -> ->] & Hk).
        destruct (Hps _ _ Hp) as (c' & needed' & Hg & Hk').
        rewrite Forall_forall in Hall. specialize (Hall _ Hg eq_refl).
        cbn [snd] in Hall. destruct (Hks _ Hk) as [Hk1 _].
        apply (proj1 (elem_of_disjoint _ _) Hall _ Hk1 Hk'). }
    split.
    { intros k y' Hk. apply elem_of_app in Hk as [Hk|Hk].
      - apply list_elem_of_fmap in Hk as (k' & [= -> ->] & Hk).
        exists c, needed. split; [left | apply Hks, Hk].
      - destruct (Hps _ _ Hk) as (c' & needed' & Hg & Hk').
        exists c', needed'. split; [right; exact Hg | exact Hk']. }
    rewrite Hfp2, Hfp1, map_app, list_to_set_app_L, <- list_fmap_compose.
    unfold compose. cbn [fst snd].
    rewrite (union_comm_L (list_to_set (_ <$> ks)) (list_to_set _)),
      <- union_assoc_L.
    reflexivity.
Qed.

Lemma pairwise_sorted {A : Type} (R : A -> A -> Prop) (l : list A) :
  NoDup l -> (forall x y, x ∈ l -> y ∈ l -> x <> y -> R x y) ->
  StronglySorted R l.
Proof.
  induction 1 as [|x l Hnin Hnd IH]; intros HR; constructor.
  - apply IH. intros a b Ha Hb. apply HR; right; assumption.
  - apply Forall_forall. intros y Hy. apply HR; [left | right; exact Hy|].
    intros ->. contradiction.
Qed.

(** An identifier is planned under the key of its one county. *)
Lemma planned_gaps_apart ctds_county existing :
  StronglySorted gaps_apart
    (merge_sort gap_le (map_to_list (compute_gaps ctds_county existing))).
Proof.
  destruct (compute_gaps_spec ctds_county existing) as (Hin & _).
  apply pairwise_sorted.
  - rewrite merge_sort_Permutation. apply NoDup_map_to_list.
  - intros [[c1 y1] n1] [[c2 y2] n2] H1 H2 Hne. unfold gaps_apart.
    cbn [fst snd]. intros <-. apply gaps_listed in H1, H2.
    apply elem_of_disjoint. intros k Hk1 Hk2.
    rewrite <- (needed_at_Some _ _ _ H1) in Hk1.
    rewrite <- (needed_at_Some _ _ _ H2) in Hk2.
    apply Hin in Hk1 as (county1 & Hc1 & _ & -> & _).
    apply Hin in Hk2 as (county2 & Hc2 & _ & -> & _).
    rewrite Hc1 in Hc2. injection Hc2 as <-.
    rewrite H1 in H2. injection H2 as <-. apply Hne. reflexivity.
Qed.

Lemma str_of_year_inj y1 y2 :
  y1 ∈ YEARS -> y2 ∈ YEARS -> Py.str_of_int y1 = Py.str_of_int y2 -> y1 = y2.
Proof.
  intros H1 H2. apply year_cases in H1, H2.
  destruct H1 as [-> | [-> | [-> | [-> | [-> | ->]]]]];
    destruct H2 as [-> | [-> | [-> | [-> | [-> | ->]]]]];
    vm_compute; congruence.
Qed.

(** X19. The match log has exactly one entry per district-year that the
    run fills: no (identifier, year) is logged twice, the pairs marked
    as filled are the pairs of the log's entries, every logged year is
    an election year, and the number of entries is the number of filled
    pairs that the summary prints. *)
Theorem match_log_one_entry_per_pair (table : list master_row)
    (directory : list ccd_row) (source : string -> option csv_table)
    (st : run_state) :
  main table directory source = Ok st ->
  NoDup (map md_pair (match_details st)) /\
  (forall md, md ∈ match_details st -> md_year md ∈ YEARS) /\
  filled_pairs st = list_to_set (map md_filled (match_details st)) /\
  length (match_details st) = size (filled_pairs st).
Proof.
  intros H. apply main_Ok in H as (existing & cc & names & _ & _ & Hrun).
  apply process_gaps_details in Hrun as (ps & Hmd & Hnd & Hps & Hfp);
    [|apply planned_gaps_apart].
  cbn [initial_state match_details filled_pairs map app] in Hmd, Hfp.
  assert (Hyears : forall p, p ∈ ps -> p.2 ∈ YEARS).
  { intros [k y] Hp. destruct (Hps _ _ Hp) as (c & needed & Hg & _).
    apply (planned_years cc existing _ Hg). }
  assert (Hfilled : map md_filled (match_details st) =
                    map (fun p => (p.1, Py.str_of_int p.2)) ps).
  { rewrite <- Hmd, <- list_fmap_compose. reflexivity. }
  split; [rewrite Hmd; exact Hnd|]. split.
  { intros md Hin. apply (Hyears (md_pair md)). rewrite <- Hmd.
    apply list_elem_of_fmap. eauto. }
  split.
  { rewrite Hfilled, Hfp, union_empty_r_L. reflexivity. }
  rewrite Hfp, union_empty_r_L, size_list_to_set.
  - rewrite length_map, <- Hmd, length_map. reflexivity.
  - apply NoDup_fmap_2_strong; [|exact Hnd].
    intros [k1 y1] [k2 y2] H1 H2 [= -> Hy]. f_equal.
    apply str_of_year_inj; [apply (Hyears _ H1) | apply (Hyears _ H2) | exact Hy].
Qed.

Lemma match_log_one_entry_per_pair_witness :
  exists st,
    main scenario_table scenario_directory scenario_source = Ok st /\
    map md_pair (match_details st) = [("4470", 2018)] /\
    NoDup (map md_pair (match_details st)) /\
    (forall md, md ∈ match_details st -> md_year md ∈ YEARS) /\
    filled_pairs st = list_to_set (map md_filled (match_details st)) /\
    length (match_details st) = size (filled_pairs st).
Proof.
  eexists. split; [vm_compute; reflexivity|]. split; [reflexivity|].
  apply (match_log_one_entry_per_pair scenario_table scenario_directory
           scenario_source).
  vm_compute. reflexivity.
Defined.

(** ** The shape of a normalized race name *)

(** A run of blanks is matched to its end. *)
Lemma match_spaces prev a s :
  Py.is_space a = true ->
  exists p s' c,
    match_here re_spaces prev (a :: s) = Some (p, s', c) /\
    (length s' <= length s)%nat /\
    head_nonspace (Py.text s') = true.
Proof.
  intros Ha. unfold match_here, re_spaces, Plus. cbn [rmatch]. rewrite Ha.
  match goal with
  | |- exists p s' c, ?f (length s) (Some a) s None = _ /\ _ =>
      assert (H : forall n prev s cap, (length s <= n)%nat ->
                exists p s' c, f n prev s cap = Some (p, s', c) /\
                               (length s' <= length s)%nat /\
                               head_nonspace (Py.text s') = true)
  end.
  { clear. induction n as [|n IH]; intros prev s cap Hn.
    - destruct s; [|cbn in Hn; lia]. eexists _, _, _. split; [reflexivity|].
      split; [reflexivity|]. reflexivity.
    - destruct s as [|b s].
      + eexists _, _, _. split; [reflexivity|]. split; reflexivity.
      + cbn [rmatch]. destruct (Py.is_space b) eqn:Eb.
        * cbn [length] in Hn.
          destruct (IH (Some b) s cap ltac:(lia)) as (p & s' & c & Hl & Hlen & Hh).
          exists p, s', c. split; [|split; [cbn [length]; lia | exact Hh]].
          replace (Nat.ltb (length s) (length (b :: s))) with true
            by (symmetry; apply Nat.ltb_lt; cbn [length]; lia).
          rewrite Hl. reflexivity.
        * exists prev, (b :: s), cap. split; [reflexivity|].
          split; [reflexivity|]. cbn [Py.text string_of_list_ascii head_nonspace].
          rewrite Eb. reflexivity. }
  apply H. reflexivity.
Qed.

Lemma no_match_spaces prev s :
  head_nonspace (Py.text s) = true -> match_here re_spaces prev s = None.
Proof.
  unfold match_here, re_spaces, Plus. cbn [rmatch].
  destruct s as [|a s]; [reflexivity|].
  cbn [Py.text string_of_list_ascii head_nonspace]. intros H.
  apply negb_true_iff in H. rewrite H. reflexivity.
Qed.

Lemma sub_spaces_from fuel : forall prev s,
  (length s < fuel)%nat ->
  let out := Py.text (sub_from re_spaces (repl_const " ") fuel prev s) in
  single_spaced out = true /\
  (head_nonspace (Py.text s) = true -> head_nonspace out = true).
Proof.
  induction fuel as [|fuel IH]; intros prev s Hlen; [lia|].
  cbn [sub_from]. destruct s as [|a s].
  - rewrite (no_match_spaces prev []) by reflexivity. split; reflexivity.
  - destruct (Py.is_space a) eqn:Ea.
    + destruct (match_spaces prev a s Ea) as (p & s' & c & -> & Hl & Hh).
      cbn [length] in *.
      replace (Nat.ltb (length s') (S (length s))) with true
        by (symmetry; apply Nat.ltb_lt; lia).
      destruct (IH p s' ltac:(lia)) as [IH1 IH2]. cbn zeta in *.
      unfold repl_const at 1.
      cbn [Py.chars list_ascii_of_string app Py.text string_of_list_ascii].
      fold (Py.text (sub_from re_spaces (repl_const " ") fuel p s')).
      split.
      * cbn [single_spaced]. rewrite IH1, (IH2 Hh). reflexivity.
      * cbn [head_nonspace]. rewrite Ea. discriminate.
    + rewrite no_match_spaces
        by (cbn [Py.text string_of_list_ascii head_nonspace]; rewrite Ea;
            reflexivity).
      cbn [step_char Py.text string_of_list_ascii length] in *.
      fold (Py.text (sub_from re_spaces (repl_const " ") fuel (Some a) s)).
      destruct (IH (Some a) s ltac:(lia)) as [IH1 _]. cbn zeta in *.
      split.
      * cbn [single_spaced]. rewrite Ea, IH1. reflexivity.
      * intros _. cbn [head_nonspace]. rewrite Ea. reflexivity.
Qed.

Lemma length_chars s : length (Py.chars s) = String.length s.
Proof.
  induction s as [|c s IH]; cbn [Py.chars list_ascii_of_string length
    String.length]; [reflexivity|].
  f_equal. exact IH.
Qed.

Lemma sub_spaces_single t :
  single_spaced (Re.sub re_spaces (repl_const " ") t) = true.
Proof.
  unfold Re.sub. apply sub_spaces_from. rewrite length_chars. lia.
Qed.

Lemma single_spaced_lstrip s :
  single_spaced s = true -> single_spaced (Py.lstrip s) = true.
Proof.
  induction s as [|c s IH]; cbn [Py.lstrip]; [auto|]. intros H.
  destruct (Py.is_space c); [|exact H].
  cbn [single_spaced] in H. apply andb_true_iff in H as [_ H]. auto.
Qed.

Lemma rstrip_same_head s d r :
  Py.rstrip s = String d r -> exists s', s = String d s'.
Proof.
  destruct s as [|c s]; cbn [Py.rstrip]; [discriminate|].
  destruct (Py.rstrip s); [destruct (Py.is_space c); [discriminate|]|];
    intros [= <- <-]; eauto.
Qed.

Lemma single_spaced_rstrip s :
  single_spaced s = true -> single_spaced (Py.rstrip s) = true.
Proof.
  induction s as [|c s IH]; cbn [Py.rstrip]; [auto|]. intros H.
  cbn [single_spaced] in H. apply andb_true_iff in H as [Hc H].
  specialize (IH H).
  destruct (Py.rstrip s) as [|d r] eqn:E.
  - destruct (Py.is_space c) eqn:Ec; [reflexivity|].
    cbn [single_spaced]. rewrite Ec. reflexivity.
  - cbn [single_spaced] in *. rewrite IH, andb_true_r.
    destruct (Py.is_space c); [|reflexivity].
    apply andb_true_iff in Hc as [Hc1 Hc2]. rewrite Hc1. cbn [andb].
    destruct (rstrip_same_head _ _ _ E) as [s' ->]. exact Hc2.
Qed.

Lemma single_spaced_chars s a :
  single_spaced s = true -> a ∈ Py.chars s -> Py.is_space a = true ->
  a = " "%char.
Proof.
  induction s as [|c s IH]; cbn [Py.chars list_ascii_of_string single_spaced];
    intros H Ha Hs; [inversion Ha|].
  apply andb_true_iff in H as [Hc H].
  apply elem_of_cons in Ha as [->|Ha]; [|apply IH; assumption].
  rewrite Hs in Hc. apply andb_true_iff in Hc as [Hc _].
  apply Ascii.eqb_eq, Hc.
Qed.

Lemma single_spaced_no_double s :
  single_spaced s = true -> Py.contains s "  " = false.
Proof.
  induction s as [|c s IH]; [reflexivity|]. cbn [single_spaced]. intros H.
  apply andb_true_iff in H as [Hc H].
  cbn [Py.contains]. rewrite (IH H), orb_false_r.
  destruct s as [|d s]; cbn [Py.startswith]; [apply andb_false_r|].
  destruct (Ascii.eqb " " c) eqn:Ec; [|reflexivity].
  destruct (Ascii.eqb " " d) eqn:Ed; [|reflexivity].
  exfalso. apply Ascii.eqb_eq in Ec, Ed. subst c d.
  vm_compute in Hc. discriminate Hc.
Qed.

Lemma collapsed_tidy t :
  let n := Py.strip (Re.sub re_spaces (repl_const " ") t) in
  Py.strip n = n /\
  Py.contains n "  " = false /\
  (forall a, a ∈ Py.chars n -> Py.is_space a = true -> a = " "%char).
Proof.
  cbn zeta.
  assert (H : single_spaced (Py.strip (Re.sub re_spaces (repl_const " ") t)) = true).
  { unfold Py.strip.
    apply single_spaced_rstrip, single_spaced_lstrip, sub_spaces_single. }
  split; [apply strip_idem|]. split; [apply single_spaced_no_double, H|].
  intros a. apply single_spaced_chars, H.
Qed.

(** X20. A normalized race name is tidy: it neither begins nor ends
    with a blank, its only blanks are single spaces, and no two of them
    are adjacent, whatever text went in. *)
Theorem normalize_race_name_tidy (text : string) :
  Py.strip (normalize_race_name text) = normalize_race_name text /\
  Py.contains (normalize_race_name text) "  " = false /\
  (forall a, a ∈ Py.chars (normalize_race_name text) ->
             Py.is_space a = true -> a = " "%char).
Proof. unfold normalize_race_name. apply collapsed_tidy. Qed.

(** ** Numbers written with a trailing [.0] *)

Lemma digit_facts a :
  Py.is_digit a = true ->
  Ascii.eqb a "_" = false /\ Ascii.eqb a "-" = false /\ Ascii.eqb a "+" = false /\
  Ascii.eqb a "." = false /\ Num.is_blank a = false /\
  Ascii.eqb (Py.lower_char a) "i" = false /\
  Ascii.eqb (Py.lower_char a) "n" = false.
Proof.
  revert a.
  assert (H : forall a,
    (negb (Py.is_digit a) ||
     (negb (Ascii.eqb a "_") && negb (Ascii.eqb a "-") && negb (Ascii.eqb a "+") &&
      negb (Ascii.eqb a ".") && negb (Num.is_blank a) &&
      negb (Ascii.eqb (Py.lower_char a) "i") &&
      negb (Ascii.eqb (Py.lower_char a) "n")))%bool = true).
  { apply forall_ascii. vm_compute. reflexivity. }
  intros a Ha. specialize (H a). rewrite Ha in H. cbn [negb orb] in H.
  repeat (apply andb_true_iff in H as [H ?]).
  repeat split; apply negb_true_iff; assumption.
Qed.

Lemma uint_digits u :
  Forall (fun c => Py.is_digit c = true) (Py.chars (NilEmpty.string_of_uint u)).
Proof.
  induction u; cbn [NilEmpty.string_of_uint Py.chars list_ascii_of_string];
    constructor; solve [reflexivity | exact IHu].
Qed.

Lemma uint_value_acc u : forall acc,
  fold_left (fun acc c => 10 * acc + Num.digit_value c)
    (Py.chars (NilEmpty.string_of_uint u)) (Z.pos acc) =
  Z.pos (Pos.of_uint_acc u acc).
Proof.
  induction u; intros acc;
    cbn [NilEmpty.string_of_uint Py.chars list_ascii_of_string fold_left
         Pos.of_uint_acc];
    [reflexivity|..];
    match goal with
    | |- fold_left _ _ (10 * Z.pos acc + ?d) = Z.pos (Pos.of_uint_acc _ ?a) =>
        let v := eval vm_compute in d in
        replace (10 * Z.pos acc + d) with (Z.pos a) by (change d with v; lia)
    end; apply IHu.
Qed.

Lemma uint_value u :
  Num.digits_value (Py.chars (NilEmpty.string_of_uint u)) = Z.of_N (Pos.of_uint u).
Proof.
  unfold Num.digits_value.
  induction u;
    cbn [NilEmpty.string_of_uint Py.chars list_ascii_of_string fold_left
         Pos.of_uint];
    [reflexivity | exact IHu |..];
    match goal with
    | |- fold_left _ _ (10 * 0 + ?d) = Z.of_N (N.pos (Pos.of_uint_acc _ ?a)) =>
        change (10 * 0 + d) with (Z.pos a)
    end; apply uint_value_acc.
Qed.

(** A run of digits is read to its end. *)
Lemma digitpart_digits ds rest :
  Forall (fun c => Py.is_digit c = true) ds ->
  match rest with
  | c :: _ => Py.is_digit c = false /\ Ascii.eqb c "_" = false
  | [] => True
  end ->
  Num.digitpart (ds ++ rest) = (ds, rest).
Proof.
  intros Hds Hrest. induction Hds as [|c ds Hc Hds IH]; cbn [app].
  - destruct rest as [|c rest]; [reflexivity|]. destruct Hrest as [H1 _].
    cbn [Num.digitpart]. rewrite H1. reflexivity.
  - cbn [Num.digitpart]. rewrite Hc.
    assert (Hu : match ds ++ rest with
                 | u :: _ => Ascii.eqb u "_" = false
                 | [] => True
                 end).
    { destruct Hds as [|u ds Hu _]; cbn [app].
      - destruct rest; [exact I | apply Hrest].
      - apply digit_facts, Hu. }
    destruct (ds ++ rest) as [|u [|d s'']] eqn:E; rewrite ?IH; try reflexivity.
    rewrite Hu. reflexivity.
Qed.

Lemma append_cons a (s t : string) : String a s +:+ t = String a (s +:+ t).
Proof. reflexivity. Qed.

Lemma append_nil (t : string) : "" +:+ t = t.
Proof. reflexivity. Qed.

Lemma chars_app s t : Py.chars (s +:+ t) = Py.chars s ++ Py.chars t.
Proof.
  induction s as [|c s IH]; [reflexivity|].
  rewrite append_cons. cbn [Py.chars list_ascii_of_string app] in *.
  f_equal. exact IH.
Qed.

Lemma text_chars s : Py.text (Py.chars s) = s.
Proof. apply string_of_list_ascii_of_string. Qed.

Lemma num_rstrip_end s c :
  Num.is_blank c = false ->
  Num.rstrip (s +:+ String c "") = s +:+ String c "".
Proof.
  intros Hc. induction s as [|a s IH].
  - rewrite append_nil. cbn [Num.rstrip]. rewrite Hc. reflexivity.
  - rewrite append_cons. cbn [Num.rstrip]. rewrite IH.
    destruct s; reflexivity.
Qed.

Lemma append_assoc_text (s t u : string) : (s +:+ t) +:+ u = s +:+ (t +:+ u).
Proof.
  induction s as [|a s IH]; [reflexivity|].
  rewrite !append_cons. f_equal. exact IH.
Qed.

Lemma num_strip_number s :
  match s with
  | String a _ => Num.is_blank a = false
  | EmptyString => True
  end ->
  Num.strip (s +:+ ".0") = s +:+ ".0".
Proof.
  intros Hs. unfold Num.strip.
  assert (Hl : Num.lstrip (s +:+ ".0") = s +:+ ".0").
  { destruct s as [|a s]; [reflexivity|].
    rewrite append_cons. cbn [Num.lstrip]. rewrite Hs. reflexivity. }
  rewrite Hl.
  change ".0" with ("." +:+ String "0" "").
  rewrite <- append_assoc_text. apply num_rstrip_end. reflexivity.
Qed.

Lemma round_exact k d : 0 < d -> Num.round_half_even (k * d) d = k.
Proof.
  intros Hd. unfold Num.round_half_even.
  rewrite Z.mod_mul by lia. rewrite Z.div_mul by lia.
  replace (2 * 0 <? d) with true by (symmetry; apply Z.ltb_lt; lia).
  reflexivity.
Qed.

Lemma floor_log2_tenfold n : 0 < n -> Num.floor_log2 (10 * n) 10 = Z.log2 n.
Proof.
  intros Hn. unfold Num.floor_log2, Num.ge_pow2.
  pose proof (Z.log2_nonneg n) as H0.
  pose proof (Z.log2_spec n Hn) as [Hlo Hhi].
  assert (Hcases : Z.log2 (10 * n) = Z.log2 n + 3 \/ Z.log2 (10 * n) = Z.log2 n + 4).
  { destruct (Z_lt_le_dec (10 * n) (2 ^ (Z.log2 n + 4))) as [Hlt|Hge].
    - left. apply Z.log2_unique; [lia|].
      rewrite Z.pow_add_r by lia. change (2 ^ 3) with 8.
      replace (Z.succ (Z.log2 n + 3)) with (Z.log2 n + 4) by lia. lia.
    - right. apply Z.log2_unique; [lia|]. split; [exact Hge|].
      replace (Z.succ (Z.log2 n + 4)) with (Z.succ (Z.log2 n) + 4) by lia.
      rewrite Z.pow_add_r by lia. change (2 ^ 4) with 16. lia. }
  change (Z.log2 10) with 3.
  destruct Hcases as [-> | ->].
  - replace (Z.log2 n + 3 - 3) with (Z.log2 n) by lia.
    replace (0 <=? Z.log2 n) with true by (symmetry; apply Z.leb_le; lia).
    replace (10 * 2 ^ Z.log2 n <=? 10 * n) with true
      by (symmetry; apply Z.leb_le; lia).
    reflexivity.
  - replace (Z.log2 n + 4 - 3) with (Z.succ (Z.log2 n)) by lia.
    replace (0 <=? Z.succ (Z.log2 n)) with true
      by (symmetry; apply Z.leb_le; lia).
    replace (10 * 2 ^ Z.succ (Z.log2 n) <=? 10 * n) with false
      by (symmetry; apply Z.leb_gt; lia).
    lia.
Qed.

(** A positive integer below [2^53], given as a decimal with one zero
    after the point, is a float that [int] turns into the integer. *)
Lemma tenfold_exact n neg :
  0 < n < 2 ^ 53 ->
  Num.int_of_float (Num.float_of_decimal neg (10 * n) (-1)) =
  Ok (if neg then - n else n).
Proof.
  intros [Hn Hb]. unfold Num.float_of_decimal.
  replace (10 * n =? 0) with false by (symmetry; apply Z.eqb_neq; lia).
  change (0 <=? -1) with false. cbn iota. change (10 ^ (- -1)) with 10.
  unfold Num.binary64. rewrite (floor_log2_tenfold n Hn).
  pose proof (Z.log2_nonneg n) as H0.
  assert (Hl : Z.log2 n < 53) by (apply Z.log2_lt_pow2; lia).
  replace (1023 <? Z.log2 n) with false by (symmetry; apply Z.ltb_ge; lia).
  replace (Z.max (Z.log2 n - 52) (-1074)) with (Z.log2 n - 52) by lia.
  remember (Z.log2 n - 52) as u eqn:Eu.
  assert (Hu : -52 <= u <= 0) by lia. clear Eu.
  replace (u =? 971) with false by (symmetry; apply Z.eqb_neq; lia).
  cbn [andb].
  destruct (0 <=? u) eqn:E.
  - apply Z.leb_le in E. assert (u = 0) as -> by lia.
    change (2 ^ 0) with 1. rewrite Z.mul_1_r, Z.mul_comm, round_exact by lia.
    cbn [Num.int_of_float]. change (0 <=? 0) with true. cbn iota.
    change (2 ^ 0) with 1. rewrite Z.mul_1_r. reflexivity.
  - pose proof (proj1 (Z.leb_gt _ _) E) as E'.
    replace (10 * n * 2 ^ (- u)) with (n * 2 ^ (- u) * 10) by lia.
    rewrite round_exact by lia.
    cbn [Num.int_of_float]. rewrite E.
    rewrite Z.div_mul by (apply Z.pow_nonzero; lia). reflexivity.
Qed.

Lemma digits_value_tenfold ds :
  Num.digits_value (ds ++ ["0"%char]) = 10 * Num.digits_value ds.
Proof.
  unfold Num.digits_value. rewrite fold_left_app. cbn [fold_left].
  change (Num.digit_value "0") with 0. lia.
Qed.

Lemma lower_digit_word c l w :
  Py.is_digit c = true ->
  (String.eqb w "inf" || String.eqb w "infinity" || String.eqb w "nan")%bool = true ->
  Py.lower (Py.text (c :: l)) <> w.
Proof.
  intros Hc Hw Heq. subst w.
  destruct (digit_facts c Hc) as (_ & _ & _ & _ & _ & Hi & Hn).
  unfold Py.lower in Hw.
  cbn [Py.text string_of_list_ascii Py.map_chars String.eqb] in Hw.
  rewrite Hi, Hn in Hw. discriminate.
Qed.

Ltac read_digits c l Hc Hall :=
  let W1 := fresh in let W2 := fresh in let W3 := fresh in
  destruct (String.eqb (Py.lower (Py.text (c :: l ++ ["."; "0"]%char))) "inf") eqn:W1;
    [exfalso; apply (lower_digit_word c (l ++ ["."; "0"]%char) "inf" Hc eq_refl);
     apply String.eqb_eq, W1|];
  destruct (String.eqb (Py.lower (Py.text (c :: l ++ ["."; "0"]%char))) "infinity")
    eqn:W2;
    [exfalso;
     apply (lower_digit_word c (l ++ ["."; "0"]%char) "infinity" Hc eq_refl);
     apply String.eqb_eq, W2|];
  destruct (String.eqb (Py.lower (Py.text (c :: l ++ ["."; "0"]%char))) "nan") eqn:W3;
    [exfalso; apply (lower_digit_word c (l ++ ["."; "0"]%char) "nan" Hc eq_refl);
     apply String.eqb_eq, W3|];
  cbn [orb];
  change (c :: l ++ ["."; "0"]%char) with ((c :: l) ++ ["."; "0"]%char);
  rewrite (digitpart_digits (c :: l) ["."; "0"]%char Hall (conj eq_refl eq_refl));
  change (Ascii.eqb "." ".") with true; cbn iota;
  change (Num.digitpart ["0"%char]) with (["0"%char], @nil ascii);
  cbn [app length Z.of_nat Pos.of_succ_nat Z.opp];
  change (c :: l ++ ["0"%char]) with ((c :: l) ++ ["0"%char]);
  rewrite (digits_value_tenfold (c :: l)).

(** [float] of a run of digits followed by [.0], with or without a
    minus sign before it. *)
Lemma float_of_digits s :
  s <> "" -> Forall (fun c => Py.is_digit c = true) (Py.chars s) ->
  Num.float_of_string (s +:+ ".0") =
    Some (Num.float_of_decimal false (10 * Num.digits_value (Py.chars s)) (-1)) /\
  Num.float_of_string (String "-" s +:+ ".0") =
    Some (Num.float_of_decimal true (10 * Num.digits_value (Py.chars s)) (-1)).
Proof.
  intros Hne Hall. destruct s as [|c s]; [contradiction|].
  pose proof Hall as Hall'.
  cbn [Py.chars list_ascii_of_string] in Hall'.
  apply Forall_cons in Hall' as [Hc _].
  destruct (digit_facts c Hc) as (_ & Hm & Hp & _ & Hb & _ & _).
  split.
  - unfold Num.float_of_string.
    rewrite num_strip_number by exact Hb.
    rewrite chars_app.
    cbn [Py.chars list_ascii_of_string app Num.sign] in *.
    rewrite Hm, Hp.
    read_digits c (list_ascii_of_string s) Hc Hall. reflexivity.
  - unfold Num.float_of_string.
    rewrite num_strip_number by reflexivity.
    rewrite chars_app.
    cbn [Py.chars list_ascii_of_string app Num.sign] in *.
    change (Ascii.eqb "-" "-") with true. cbn iota.
    read_digits c (list_ascii_of_string s) Hc Hall. reflexivity.
Qed.

Lemma str_of_pos p :
  let s := NilEmpty.string_of_uint (Pos.to_uint p) in
  Py.str_of_int (Z.pos p) = s /\ Py.str_of_int (Z.neg p) = String "-" s /\
  s <> "" /\ Forall (fun c => Py.is_digit c = true) (Py.chars s) /\
  Num.digits_value (Py.chars s) = Z.pos p.
Proof.
  cbn zeta. unfold Py.str_of_int. cbn [Z.to_int NilZero.string_of_int].
  pose proof (DecimalPos.Unsigned.to_uint_nonnil p) as Hnil.
  assert (Hs : NilZero.string_of_uint (Pos.to_uint p) =
               NilEmpty.string_of_uint (Pos.to_uint p)).
  { unfold NilZero.string_of_uint. destruct (Pos.to_uint p); [contradiction|..];
      reflexivity. }
  rewrite Hs. split; [reflexivity|]. split; [reflexivity|]. split.
  { destruct (Pos.to_uint p); [contradiction|..]; discriminate. }
  split; [apply uint_digits|].
  rewrite uint_value, DecimalPos.Unsigned.of_to. reflexivity.
Qed.

(** X21. What the run writes it can read back: an integer of magnitude
    below [2^53] (an identifier, a year, a vote count), formatted the
    way the staged rows hold it, as its decimal digits followed by
    [.0], is turned by [int(float(...))] into the same integer, and by
    [str(int(float(...)))] into the same digits. *)
Theorem dot_zero_round_trip (v : Z) :
  - 2 ^ 53 < v < 2 ^ 53 ->
  Num.int_float_str (Py.str_of_int v +:+ ".0") = Ok v /\
  canon (Py.str_of_int v +:+ ".0") = Ok (Py.str_of_int v).
Proof.
  intros Hv.
  assert (H : Num.int_float_str (Py.str_of_int v +:+ ".0") = Ok v).
  { destruct v as [|p|p].
    - vm_compute. reflexivity.
    - destruct (str_of_pos p) as (-> & _ & Hne & Hall & Hval).
      unfold Num.int_float_str.
      rewrite (proj1 (float_of_digits _ Hne Hall)), Hval.
      apply (tenfold_exact (Z.pos p) false). lia.
    - destruct (str_of_pos p) as (_ & -> & Hne & Hall & Hval).
      unfold Num.int_float_str.
      rewrite (proj2 (float_of_digits _ Hne Hall)), Hval.
      apply (tenfold_exact (Z.pos p) true). lia. }
  split; [exact H|]. unfold canon. rewrite H. reflexivity.
Qed.

Lemma dot_zero_round_trip_witness :
  Num.int_float_str (Py.str_of_int 4470 +:+ ".0") = Ok 4470 /\
  canon (Py.str_of_int 4470 +:+ ".0") = Ok (Py.str_of_int 4470).
Proof. apply dot_zero_round_trip. lia. Defined.

(** ** The directory look-up *)

Lemma load_ccd_snoc directory r :
  load_ccd (directory ++ [r]) =
  if (String.eqb (FIPST r) "04" && String.eqb (LEA_TYPE r) "1")%bool
  then <[ Py.replace "AZ-" "" (ST_LEAID r) := (LEA_NAME r, LEAID r) ]>
         (load_ccd directory)
  else load_ccd directory.
Proof. unfold load_ccd. rewrite fold_left_app. reflexivity. Qed.

(** X22. The directory look-up holds, for an identifier, the name and
    the LEAID of the last row of the directory that is a regular
    Arizona district with that state identifier, and nothing for an
    identifier that no such row carries: rows of other states or of
    other kinds never enter it. *)
Theorem load_ccd_last_wins (directory : list ccd_row) (ctds : string) :
  load_ccd directory !! ctds =
  (fun r => (LEA_NAME r, LEAID r)) <$> last (ccd_rows_for ctds directory).
Proof.
  induction directory as [|r directory IH] using rev_ind; [reflexivity|].
  rewrite load_ccd_snoc. unfold ccd_rows_for in *. rewrite filter_app.
  destruct (String.eqb (FIPST r) "04") eqn:E1;
    [apply String.eqb_eq in E1 | apply String.eqb_neq in E1]; cbn [andb].
  2:{ rewrite filter_cons_False, filter_nil, app_nil_r by tauto. exact IH. }
  destruct (String.eqb (LEA_TYPE r) "1") eqn:E2;
    [apply String.eqb_eq in E2 | apply String.eqb_neq in E2].
  2:{ rewrite filter_cons_False, filter_nil, app_nil_r by tauto. exact IH. }
  destruct (decide (Py.replace "AZ-" "" (ST_LEAID r) = ctds)) as [E3|E3].
  - rewrite filter_cons_True, filter_nil by tauto.
    rewrite last_snoc, E3, lookup_insert_eq. reflexivity.
  - rewrite filter_cons_False, filter_nil, app_nil_r by tauto.
    rewrite lookup_insert_ne by exact E3. exact IH.
Qed.
